(** * The content server of the social poster: caching, validation, prompts
    and poll parsing

    A shallow embedding of the Express server (the three generation routes,
    [checkCache], [errorHandler], [contentSchema], [promptTemplates]) and the
    properties its specification states about it.

    The model starts where a route starts: with the parsed JSON body of a
    request. What Express does before that (CORS, the JSON body parser, the
    rate limiter) and the listening socket are outside it. The upstream
    provider and the Redis server are part of the environment: the provider
    as an oracle that may answer or throw, differently at each call; the
    server as a store with expiry whose reads and writes may fail. *)

From Stdlib Require Import ZArith NArith List Ascii String Bool Lia.
From stdpp Require Import base option list gmap.

Local Open Scope N_scope.
Set Warnings "-register-all".

(** ** JavaScript strings

    A JavaScript string is a sequence of UTF-16 code units; [length], [trim],
    [split] and the regular expression of the poll parser all work on code
    units. *)

Abbreviation jsstring := (list N).

(** A source literal (ASCII only) as a JavaScript string. *)
Definition lit (s : string) : jsstring :=
  List.map N_of_ascii (list_ascii_of_string s).

(** ECMAScript WhiteSpace and LineTerminator: what [String.prototype.trim]
    strips and what [\s] matches. *)
Definition isWhiteSpace (c : N) : bool :=
  ((9 <=? c) && (c <=? 13)) || (c =? 32) || (c =? 160) || (c =? 5760)
  || ((8192 <=? c) && (c <=? 8202)) || (c =? 8232) || (c =? 8233)
  || (c =? 8239) || (c =? 8287) || (c =? 12288) || (c =? 65279).

(** [[0-9]] *)
Definition isDigit (c : N) : bool := (48 <=? c) && (c <=? 57).

Fixpoint dropWhile (p : N -> bool) (s : jsstring) : jsstring :=
  match s with
  | [] => []
  | c :: s' => if p c then dropWhile p s' else s
  end.

Definition trimStart (s : jsstring) : jsstring := dropWhile isWhiteSpace s.
Definition trimEnd (s : jsstring) : jsstring := rev (dropWhile isWhiteSpace (rev s)).
Definition trim (s : jsstring) : jsstring := trimEnd (trimStart s).

(** [s.split(sep)] for a separator of one code unit. *)
Fixpoint split (sep : N) (s : jsstring) : list jsstring :=
  match s with
  | [] => [[]]
  | c :: s' =>
      if c =? sep then [] :: split sep s'
      else match split sep s' with
           | l :: ls => (c :: l) :: ls
           | [] => [[c]]
           end
  end.

(** [a.slice(b, e)] for indices within [0 .. ], clipped to the array. *)
Definition slice {A} (b e : nat) (l : list A) : list A := take (e - b) (drop b l).

(** A string is truthy when it is not empty. *)
Definition truthy_string (s : jsstring) : bool :=
  match s with [] => false | _ => true end.

(** [line.replace(/^[0-9]+\.\s*/, '')]: one or more digits at the start of
    the line, a dot, and the white space after it are removed; a line that
    does not start so is left as it is. *)
Definition strip_marker (line : jsstring) : jsstring :=
  match line with
  | c :: _ =>
      if isDigit c then
        match dropWhile isDigit line with
        | d :: rest => if d =? 46 then dropWhile isWhiteSpace rest else line
        | [] => line
        end
      else line
  | [] => line
  end.

(** ** JSON values

    A request body, an upstream payload and a response are JSON documents.
    The only things the server does with a number are to test it for
    truthiness and to print it, so a number is kept as the text JavaScript
    prints for it. The properties of an object are listed in the order
    JavaScript enumerates them, each key once. *)

Inductive json :=
| JNull
| JBool (b : bool)
| JNum (text : jsstring)
| JStr (s : jsstring)
| JArr (items : list json)
| JObj (props : list (jsstring * json)).

(** A JavaScript value that may be [undefined] is an [option json]. *)
Definition eqb_string (a b : jsstring) : bool := bool_decide (a = b).

(** [obj[key]] on the own properties of an object. *)
Fixpoint lookup_prop (key : jsstring) (props : list (jsstring * json)) : option json :=
  match props with
  | [] => None
  | (k, v) :: rest => if eqb_string k key then Some v else lookup_prop key rest
  end.

(** Truthiness: [undefined], [null], [false], [0] and the empty string are
    falsy. *)
Definition truthy (v : option json) : bool :=
  match v with
  | None => false
  | Some JNull => false
  | Some (JBool b) => b
  | Some (JNum t) => negb (eqb_string t (lit "0"))
  | Some (JStr s) => truthy_string s
  | Some (JArr _) => true
  | Some (JObj _) => true
  end.

Fixpoint join (sep : jsstring) (parts : list jsstring) : jsstring :=
  match parts with
  | [] => []
  | [p] => p
  | p :: rest => p ++ sep ++ join sep rest
  end.

(** The string a template literal interpolates for a value. *)
Fixpoint ToString (v : json) : jsstring :=
  match v with
  | JNull => lit "null"
  | JBool true => lit "true"
  | JBool false => lit "false"
  | JNum t => t
  | JStr s => s
  | JArr items =>
      join [44] (List.map (fun x => match x with JNull => [] | _ => ToString x end) items)
  | JObj _ => lit "[object Object]"
  end.

Definition interpolate (v : option json) : jsstring :=
  match v with
  | None => lit "undefined"
  | Some x => ToString x
  end.

(** *** [JSON.stringify] *)

Definition hex_digit (n : N) : N := if n <? 10 then 48 + n else 87 + n.

Definition unicode_escape (c : N) : jsstring :=
  [92; 117; hex_digit ((c / 4096) mod 16); hex_digit ((c / 256) mod 16);
   hex_digit ((c / 16) mod 16); hex_digit (c mod 16)].

Definition escape_unit (c : N) : jsstring :=
  if c =? 8 then [92; 98]
  else if c =? 9 then [92; 116]
  else if c =? 10 then [92; 110]
  else if c =? 12 then [92; 102]
  else if c =? 13 then [92; 114]
  else if c =? 34 then [92; 34]
  else if c =? 92 then [92; 92]
  else if c <? 32 then unicode_escape c
  else [c].

Definition isHighSurrogate (c : N) : bool := (55296 <=? c) && (c <=? 56319).
Definition isLowSurrogate (c : N) : bool := (56320 <=? c) && (c <=? 57343).

Fixpoint quote_units (s : jsstring) : jsstring :=
  match s with
  | [] => []
  | c :: s' =>
      if isHighSurrogate c then
        match s' with
        | d :: s'' =>
            if isLowSurrogate d then c :: d :: quote_units s''
            else unicode_escape c ++ quote_units s'
        | [] => unicode_escape c
        end
      else if isLowSurrogate c then unicode_escape c ++ quote_units s'
      else escape_unit c ++ quote_units s'
  end.

Definition quote (s : jsstring) : jsstring := [34] ++ quote_units s ++ [34].

Fixpoint JSON_stringify (v : json) : jsstring :=
  match v with
  | JNull => lit "null"
  | JBool true => lit "true"
  | JBool false => lit "false"
  | JNum t => t
  | JStr s => quote s
  | JArr items => [91] ++ join [44] (List.map JSON_stringify items) ++ [93]
  | JObj props =>
      [123] ++ join [44] (List.map (fun kv => quote (fst kv) ++ [58] ++ JSON_stringify (snd kv)) props)
      ++ [125]
  end.

(** [JSON.stringify(undefined)] is [undefined], which a template literal
    prints as such. *)
Definition stringify_opt (v : option json) : jsstring :=
  match v with
  | None => lit "undefined"
  | Some x => JSON_stringify x
  end.

(** ** Exceptions and responses *)

Inductive ZodIssueCode := invalid_type | invalid_enum_value | too_small.

(** The parameters a check of Zod hands to [addIssueToContext] with the
    code, by the check that raises the issue and in the order it lists
    them: a type check ([code, expected, received]), the type check of an
    enum ([expected, received, code]), the membership check of an enum
    ([received, code, options]) and the length check of a string ([code,
    minimum, type, inclusive, exact, message]). A number is kept as the
    text JavaScript prints for it. *)
Inductive IssueParams :=
| type_params (expected received : jsstring)
| enum_type_params (expected received : jsstring)
| enum_value_params (received : jsstring) (options : list jsstring)
| size_params (minimum : jsstring) (type : jsstring) (inclusive exact : bool).

(** An issue as [makeIssue] builds it: the data of the check, the path and
    the message. *)
Record ZodIssue := {
  code : ZodIssueCode;
  params : IssueParams;
  path : list jsstring;
  message : jsstring
}.

(** What a handler can throw: a [ZodError] with its issues, a [TypeError]
    of the engine (no [status]), or an [Error] with its message and, for an
    error of the upstream client, the HTTP status it carries. *)
Inductive Exception :=
| ZodError (errors : list ZodIssue)
| TypeError
| Error (status : option Z) (msg : jsstring).

Record Response := {
  statusCode : Z;
  body : json
}.

Definition code_name (c : ZodIssueCode) : jsstring :=
  match c with
  | invalid_type => lit "invalid_type"
  | invalid_enum_value => lit "invalid_enum_value"
  | too_small => lit "too_small"
  end.

(** An issue as it appears in [details]: the object [makeIssue] built,
    [{...issueData, path, message}], whole. Its properties come in the
    order of the check's data, then the path, then the message; the
    message of the length check is part of its data and so comes before
    the path. *)
Definition issue_json (i : ZodIssue) : json :=
  let code_property := (lit "code", JStr (code_name (code i))) in
  let path_property := (lit "path", JArr (List.map JStr (path i))) in
  let message_property := (lit "message", JStr (message i)) in
  JObj match params i with
       | type_params expected received =>
           [code_property; (lit "expected", JStr expected); (lit "received", JStr received);
            path_property; message_property]
       | enum_type_params expected received =>
           [(lit "expected", JStr expected); (lit "received", JStr received); code_property;
            path_property; message_property]
       | enum_value_params received options =>
           [(lit "received", JStr received); code_property;
            (lit "options", JArr (List.map JStr options));
            path_property; message_property]
       | size_params minimum type inclusive exact =>
           [code_property; (lit "minimum", JNum minimum); (lit "type", JStr type);
            (lit "inclusive", JBool inclusive); (lit "exact", JBool exact);
            message_property; path_property]
       end.

Definition failure (error : jsstring) : json :=
  JObj [(lit "success", JBool false); (lit "error", JStr error)].

(** [errorHandler(err, req, res, next)]. The status of an error is taken
    to be one that [res.status(...).json(...)] sends with its body, as
    the error statuses of HTTP (400 to 599) that an error of the upstream
    client carries are: a status outside 100..999 makes the call throw,
    and 204 or 304 send no body; such statuses are outside the model. *)
Definition errorHandler (err : Exception) : Response :=
  match err with
  | ZodError errors =>
      {| statusCode := 400;
         body := JObj [(lit "success", JBool false);
                       (lit "error", JStr (lit "Invalid input"));
                       (lit "details", JArr (List.map issue_json errors))] |}
  | TypeError =>
      {| statusCode := 500; body := failure (lit "Internal server error") |}
  | Error status msg =>
      let statusCode := match status with
                        | Some s => if (s =? 0)%Z then 500%Z else s
                        | None => 500%Z
                        end in
      let message := if (statusCode =? 500)%Z then lit "Internal server error" else msg in
      {| statusCode := statusCode; body := failure message |}
  end.

(** ** The poll response parser (the [generate-poll] route, after the
    upstream call) *)

Definition strip (line : jsstring) : jsstring := trim (strip_marker line).

Definition poll_lines (content : jsstring) : list jsstring :=
  List.filter (fun line => truthy_string (trim line)) (split 10 content).

Definition poll_result (raw : jsstring) : Exception + json :=
  let content := trim raw in
  let lines := poll_lines content in
  match lines !! 0%nat with
  | None => inl TypeError
  | Some first =>
      inr (JObj [(lit "success", JBool true);
                 (lit "content", JStr content);
                 (lit "question", JStr (strip first));
                 (lit "options", JArr (List.map (fun line => JStr (strip line)) (slice 1 4 lines)))])
  end.

(** ** The request validator: [contentSchema]

    Zod checks every key of the schema and collects the issues of all of
    them; a field's check gives its issues or its value. *)

Record Preferences := {
  platforms : option (list (jsstring * bool));
  tonePreference : option jsstring;
  contentLength : option jsstring;
  hashtagPreference : option jsstring
}.

Record ContentRequest := {
  postType : jsstring;
  topic : jsstring;
  audience : jsstring;
  style : jsstring;
  guidelines : jsstring;
  preferences : option Preferences
}.

Definition parsedType (v : option json) : jsstring :=
  match v with
  | None => lit "undefined"
  | Some JNull => lit "null"
  | Some (JBool _) => lit "boolean"
  | Some (JNum _) => lit "number"
  | Some (JStr _) => lit "string"
  | Some (JArr _) => lit "array"
  | Some (JObj _) => lit "object"
  end.

Definition invalid_type_issue (p : list jsstring) (expected : jsstring) (v : option json) : ZodIssue :=
  {| code := invalid_type;
     params := type_params expected (parsedType v);
     path := p;
     message := match v with
                | None => lit "Required"
                | Some _ => lit "Expected " ++ expected ++ lit ", received " ++ parsedType v
                end |}.

(** The same issue as [ZodEnum] raises it: its data lists the code last. *)
Definition enum_type_issue (p : list jsstring) (expected : jsstring) (v : option json) : ZodIssue :=
  {| code := invalid_type;
     params := enum_type_params expected (parsedType v);
     path := p;
     message := message (invalid_type_issue p expected v) |}.

Definition Parsed (A : Type) : Type := list ZodIssue + A.

Definition issues {A} (r : Parsed A) : list ZodIssue :=
  match r with inl i => i | inr _ => [] end.

(** [z.string()] *)
Definition z_string (p : list jsstring) (v : option json) : Parsed jsstring :=
  match v with
  | Some (JStr s) => inr s
  | _ => inl [invalid_type_issue p (lit "string") v]
  end.

(** [z.string().min(1, 'Topic is required')] *)
Definition z_string_min1 (p : list jsstring) (v : option json) : Parsed jsstring :=
  match z_string p v with
  | inr s =>
      if (length s <? 1)%nat
      then inl [{| code := too_small;
                   params := size_params (lit "1") (lit "string") true false;
                   path := p;
                   message := lit "Topic is required" |}]
      else inr s
  | inl i => inl i
  end.

(** [z.string().optional().default(d)] *)
Definition z_string_default (d : jsstring) (p : list jsstring) (v : option json) : Parsed jsstring :=
  match v with
  | None => inr d
  | Some _ => z_string p v
  end.

(** [z.string().optional()] *)
Definition z_string_optional (p : list jsstring) (v : option json) : Parsed (option jsstring) :=
  match v with
  | None => inr None
  | Some _ => match z_string p v with inr s => inr (Some s) | inl i => inl i end
  end.

Definition postTypes : list jsstring := [lit "post"; lit "thread"; lit "poll"].

(** [util.joinValues]: ['post' | 'thread' | 'poll'] *)
Definition joinValues (vs : list jsstring) : jsstring :=
  join (lit " | ") (List.map (fun v => [39] ++ v ++ [39]) vs).

(** [z.enum(['post', 'thread', 'poll'])] *)
Definition z_enum (options : list jsstring) (p : list jsstring) (v : option json) : Parsed jsstring :=
  match v with
  | Some (JStr s) =>
      if existsb (eqb_string s) options then inr s
      else inl [{| code := invalid_enum_value;
                   params := enum_value_params s options;
                   path := p;
                   message := lit "Invalid enum value. Expected " ++ joinValues options
                              ++ lit ", received '" ++ s ++ [39] |}]
  | _ => inl [enum_type_issue p (joinValues options) v]
  end.

(** [z.boolean()] *)
Definition z_boolean (p : list jsstring) (v : option json) : Parsed bool :=
  match v with
  | Some (JBool b) => inr b
  | _ => inl [invalid_type_issue p (lit "boolean") v]
  end.

(** The entries of a record, each value checked under its own key. *)
Fixpoint z_record_entries (p : list jsstring) (props : list (jsstring * json))
  : Parsed (list (jsstring * bool)) :=
  match props with
  | [] => inr []
  | (k, v) :: rest =>
      match z_boolean (p ++ [k]) (Some v), z_record_entries p rest with
      | inr b, inr bs => inr ((k, b) :: bs)
      | rv, rrest => inl (issues rv ++ issues rrest)
      end
  end.

(** [z.record(z.boolean()).optional()] *)
Definition z_platforms (p : list jsstring) (v : option json)
  : Parsed (option (list (jsstring * bool))) :=
  match v with
  | None => inr None
  | Some (JObj props) =>
      match z_record_entries p props with
      | inr m => inr (Some m)
      | inl i => inl i
      end
  | Some _ => inl [invalid_type_issue p (lit "object") v]
  end.

(** The [preferences] object schema, [.optional()]. *)
Definition z_preferences (p : list jsstring) (v : option json) : Parsed (option Preferences) :=
  match v with
  | None => inr None
  | Some (JObj props) =>
      let r1 := z_platforms (p ++ [lit "platforms"]) (lookup_prop (lit "platforms") props) in
      let r2 := z_string_optional (p ++ [lit "tonePreference"]) (lookup_prop (lit "tonePreference") props) in
      let r3 := z_string_optional (p ++ [lit "contentLength"]) (lookup_prop (lit "contentLength") props) in
      let r4 := z_string_optional (p ++ [lit "hashtagPreference"]) (lookup_prop (lit "hashtagPreference") props) in
      match r1, r2, r3, r4 with
      | inr a, inr b, inr c, inr d =>
          inr (Some {| platforms := a; tonePreference := b; contentLength := c; hashtagPreference := d |})
      | _, _, _, _ => inl (issues r1 ++ issues r2 ++ issues r3 ++ issues r4)
      end
  | Some _ => inl [invalid_type_issue p (lit "object") v]
  end.

(** [contentSchema.safeParse]: the issues of every field, in the order of
    the schema's keys, or the request with its defaults filled in. *)
Definition contentSchema (input : json) : Parsed ContentRequest :=
  match input with
  | JObj props =>
      let r1 := z_enum postTypes [lit "postType"] (lookup_prop (lit "postType") props) in
      let r2 := z_string_min1 [lit "topic"] (lookup_prop (lit "topic") props) in
      let r3 := z_string_default (lit "general audience") [lit "audience"] (lookup_prop (lit "audience") props) in
      let r4 := z_string_default (lit "neutral and engaging") [lit "style"] (lookup_prop (lit "style") props) in
      let r5 := z_string_default (lit "none") [lit "guidelines"] (lookup_prop (lit "guidelines") props) in
      let r6 := z_preferences [lit "preferences"] (lookup_prop (lit "preferences") props) in
      match r1, r2, r3, r4, r5, r6 with
      | inr a, inr b, inr c, inr d, inr e, inr f =>
          inr {| postType := a; topic := b; audience := c; style := d; guidelines := e; preferences := f |}
      | _, _, _, _, _, _ =>
          inl (issues r1 ++ issues r2 ++ issues r3 ++ issues r4 ++ issues r5 ++ issues r6)
      end
  | _ => inl [invalid_type_issue [] (lit "object") (Some input)]
  end.

(** [contentSchema.parse(req.body)]: throws the [ZodError] of the issues. *)
Definition contentSchema_parse (input : json) : Exception + ContentRequest :=
  match contentSchema input with
  | inr r => inr r
  | inl i => inl (ZodError i)
  end.

(** ** The prompt builder: [promptTemplates] and [generatePrompt] *)

Definition platforms_json (m : list (jsstring * bool)) : json :=
  JObj (List.map (fun kv => (fst kv, JBool (snd kv))) m).

(** [${x}] for a string that may be [undefined]. *)
Definition interpolate_string (s : option jsstring) : jsstring :=
  match s with
  | None => lit "undefined"
  | Some x => x
  end.

Definition template_post (c : ContentRequest) : jsstring :=
  lit "
    Generate a social media post.
    Topic: " ++ topic c ++ lit "
    Target Audience: " ++ audience c ++ lit "
    Style: " ++ style c ++ lit "
    Guidelines: " ++ guidelines c ++ lit "
    " ++ match preferences c with
         | Some p =>
             lit "Platform Preferences: " ++ stringify_opt (platforms_json <$> platforms p) ++ lit "
    Tone Preference: " ++ interpolate_string (tonePreference p) ++ lit "
    Content Length: " ++ interpolate_string (contentLength p) ++ lit "
    Hashtag Preference: " ++ interpolate_string (hashtagPreference p)
         | None => []
         end ++ lit "
  ".

Definition template_thread (c : ContentRequest) : jsstring :=
  lit "
    Generate a multi-post thread for a Twitter-like platform.
    Topic: " ++ topic c ++ lit "
    Target Audience: " ++ audience c ++ lit "
    Style: " ++ style c ++ lit "
    Guidelines: " ++ guidelines c ++ lit "
    " ++ match preferences c with
         | Some p =>
             lit "Tone Preference: " ++ interpolate_string (tonePreference p) ++ lit "
    Content Length: " ++ interpolate_string (contentLength p) ++ lit "
    Hashtag Preference: " ++ interpolate_string (hashtagPreference p)
         | None => []
         end ++ lit "
  ".

Definition template_poll (c : ContentRequest) : jsstring :=
  lit "
    Generate an engaging social media poll.
    Topic: " ++ topic c ++ lit "
    Target Audience: " ++ audience c ++ lit "
    Style: " ++ style c ++ lit "
    Guidelines: " ++ guidelines c ++ lit "

    Please format the response EXACTLY like this:
    1. Poll Question
    2. Option A
    3. Option B
    4. Option C
    5. Option D
    6. Explanation of why this poll is engaging
  ".

(** [promptTemplates[type]]: the own keys of the table. *)
Definition promptTemplates (type : jsstring) : option (ContentRequest -> jsstring) :=
  if eqb_string type (lit "post") then Some template_post
  else if eqb_string type (lit "thread") then Some template_thread
  else if eqb_string type (lit "poll") then Some template_poll
  else None.

Definition generatePrompt (type : jsstring) (content : ContentRequest) : Exception + jsstring :=
  match promptTemplates type with
  | None => inl (Error None (lit "Invalid content type: " ++ type))
  | Some template => inr (template content)
  end.

(** ** The environment and the state of a request

    The upstream provider is a black box: what the [n]-th call of the
    process returns is given by the environment, and may differ from call
    to call. The Redis server keeps, under a key, the JSON document whose
    text was stored and the time at which the entry expires; a stored text
    that is empty or not JSON is answered like an absent key by
    [checkCache] and is left out. *)

Record ChatRequest := {
  chat_model : jsstring;
  chat_system : jsstring;
  chat_user : jsstring;
  (* the texts handed to parseFloat and parseInt, when the call sets them *)
  chat_sampling : option (jsstring * jsstring)
}.

Record ChatCompletion := {
  (* choices[i].message.content, None for null *)
  choices : list (option jsstring);
  usage : option json
}.

Record ImageRequest := {
  image_model : jsstring;
  image_prompt : json;
  image_n : Z;
  image_size : jsstring;
  image_quality : jsstring;
  image_response_format : jsstring
}.

Record ImagesResponse := {
  (* data[i].url, None when the item has none *)
  data : option (list (option jsstring))
}.

Record Env := {
  OPENAI_API_KEY : option jsstring;
  OPENAI_TEMPERATURE : option jsstring;
  OPENAI_MAX_TOKENS : option jsstring;
  now : Z;
  chat_completions_create : nat -> ChatRequest -> Exception + ChatCompletion;
  images_generate : nat -> ImageRequest -> Exception + ImagesResponse
}.

Record Redis := {
  entries : gmap jsstring (json * Z);
  get_error : option Exception;
  setex_error : option Exception
}.

Inductive Event :=
| CacheGet (key : jsstring)
| SchemaCheck (input : json)
| ChatCall (req : ChatRequest)
| ImageCall (req : ImageRequest)
| CacheSet (key : jsstring) (ttl : Z) (value : json).

Record State := {
  (* the module's client: None when REDIS_URL is not set *)
  redis : option Redis;
  trace : list Event
}.

Definition is_upstream (e : Event) : bool :=
  match e with
  | ChatCall _ | ImageCall _ => true
  | _ => false
  end.

(** The upstream calls made so far. *)
Definition upstream_calls (t : list Event) : list Event := List.filter is_upstream t.

(** *** A reader, state and exception monad for the handlers *)

Definition M (A : Type) : Type := Env -> State -> (Exception + A) * State.

Definition ret {A} (a : A) : M A := fun _ s => (inr a, s).

Definition bind {A B} (m : M A) (k : A -> M B) : M B :=
  fun e s =>
    match m e s with
    | (inr a, s') => k a e s'
    | (inl err, s') => (inl err, s')
    end.

Definition throw {A} (err : Exception) : M A := fun _ s => (inl err, s).

Definition try_catch {A} (m : M A) (handler : Exception -> M A) : M A :=
  fun e s =>
    match m e s with
    | (inr a, s') => (inr a, s')
    | (inl err, s') => handler err e s'
    end.

Definition lift {A} (r : Exception + A) : M A := fun _ s => (r, s).

Definition ask : M Env := fun e s => (inr e, s).

Definition client : M (option Redis) := fun _ s => (inr (redis s), s).

Definition log (ev : Event) : M unit :=
  fun _ s => (inr tt, {| redis := redis s; trace := trace s ++ [ev] |}).

Declare Scope handler_scope.
Delimit Scope handler_scope with handler.
Notation "x <- m ;; k" := (bind m (fun x => k))
  (at level 100, m at next level, right associativity) : handler_scope.
Notation "m ;;; k" := (bind m (fun _ => k))
  (at level 100, right associativity) : handler_scope.
Local Open Scope handler_scope.

(** [await redis.get(key)]: the value of an entry that has not expired. *)
Definition redis_get (key : jsstring) : M (option json) :=
  log (CacheGet key) ;;;
  fun e s =>
    match redis s with
    | None => (inl TypeError, s)
    | Some r =>
        match get_error r with
        | Some err => (inl err, s)
        | None =>
            match entries r !! key with
            | Some (v, expiresAt) =>
                if (now e <? expiresAt)%Z then (inr (Some v), s) else (inr None, s)
            | None => (inr None, s)
            end
        end
    end.

(** [await redis.setex(key, ttl, text)] *)
Definition redis_setex (key : jsstring) (ttl : Z) (value : json) : M unit :=
  log (CacheSet key ttl value) ;;;
  fun e s =>
    match redis s with
    | None => (inl TypeError, s)
    | Some r =>
        match setex_error r with
        | Some err => (inl err, s)
        | None =>
            (inr tt,
             {| redis := Some {| entries := <[key := (value, (now e + ttl)%Z)]> (entries r);
                                 get_error := get_error r;
                                 setex_error := setex_error r |};
                trace := trace s |})
        end
    end.

(** [await openai.chat.completions.create(req)] *)
Definition chat_create (req : ChatRequest) : M ChatCompletion :=
  fun e s =>
    let n := length (upstream_calls (trace s)) in
    (chat_completions_create e n req,
     {| redis := redis s; trace := trace s ++ [ChatCall req] |}).

(** [await openai.images.generate(req)] *)
Definition image_create (req : ImageRequest) : M ImagesResponse :=
  fun e s =>
    let n := length (upstream_calls (trace s)) in
    (images_generate e n req,
     {| redis := redis s; trace := trace s ++ [ImageCall req] |}).

(** ** The middleware and the three routes *)

Definition ok (v : json) : Response := {| statusCode := 200; body := v |}.

(** [process.env.X || d] *)
Definition env_or (v : option jsstring) (d : jsstring) : jsstring :=
  match v with
  | Some (c :: s) => c :: s
  | _ => d
  end.

(** [!process.env.OPENAI_API_KEY] *)
Definition api_key_missing (e : Env) : bool :=
  match OPENAI_API_KEY e with
  | Some (_ :: _) => false
  | _ => true
  end.

Definition require_api_key : M unit :=
  e <- ask ;;
  if api_key_missing e
  then throw (Error None (lit "OpenAI API key is not configured"))
  else ret tt.

(** The key [checkCache] reads, on every route. *)
Definition checkCache_key (req_body : json) : jsstring :=
  lit "content:" ++ JSON_stringify req_body.

(** [checkCache(req, res, next)]: [Some r] when it answered with [r],
    [None] when it called [next()]. *)
Definition checkCache (req_body : json) : M (option Response) :=
  r <- client ;;
  match r with
  | None => ret None
  | Some _ =>
      let cacheKey := checkCache_key req_body in
      try_catch
        (cachedResult <- redis_get cacheKey ;;
         match cachedResult with
         | Some v => ret (Some (ok v))
         | None => ret None
         end)
        (fun error => ret None)
  end.

(** [if (redis) { await redis.setex(cacheKey, 3600, JSON.stringify(result)) }] *)
Definition cache_result (cacheKey : jsstring) (result : json) : M unit :=
  r <- client ;;
  match r with
  | Some _ => redis_setex cacheKey 3600 result
  | None => ret tt
  end.

Definition system_post : jsstring :=
  lit "You are an AI-powered social media content generation assistant for Intellisync Solutions, specializing in creating engaging, platform-optimized content across multiple social media channels.

Core Objectives:
- Generate high-quality, contextually relevant social media content
- Adapt tone and style based on user-specified preferences
- Ensure content is platform-specific and meets each platform's best practices".

Definition system_poll : jsstring :=
  lit "You are an AI-powered poll generation assistant for social media. Create engaging, interactive polls that encourage audience participation and generate meaningful discussions. Focus on clarity, relevance, and engagement potential.".

(** [completion.choices[0].message.content]: a [TypeError] when there is
    no first choice. *)
Definition first_content (completion : ChatCompletion) : M (option jsstring) :=
  match choices completion !! 0%nat with
  | Some content => ret content
  | None => throw TypeError
  end.

Definition json_of_content (content : option jsstring) : json :=
  match content with
  | Some s => JStr s
  | None => JNull
  end.

Definition post_key (req_body : json) : jsstring :=
  lit "content:" ++ JSON_stringify req_body.

(** The handler of [POST /api/generatePost]. *)
Definition generatePost_handler (req_body : json) : M Response :=
  log (SchemaCheck req_body) ;;;
  validatedInput <- lift (contentSchema_parse req_body) ;;
  require_api_key ;;;
  e <- ask ;;
  prompt <- lift (generatePrompt (postType validatedInput) validatedInput) ;;
  completion <- chat_create
    {| chat_model := lit "gpt-4o-mini";
       chat_system := system_post;
       chat_user := prompt;
       chat_sampling := Some (env_or (OPENAI_TEMPERATURE e) (lit "0.7"),
                              env_or (OPENAI_MAX_TOKENS e) (lit "500")) |} ;;
  content <- first_content completion ;;
  let result :=
    JObj ([(lit "success", JBool true); (lit "content", json_of_content content)]
          ++ match usage completion with
             | Some u => [(lit "usage", u)]
             | None => []
             end) in
  cache_result (post_key req_body) result ;;;
  ret (ok result).

(** [const { a, b } = req.body]: reading a property of [null] throws. *)
Definition destructure (req_body : json) (key : jsstring) : M (option json) :=
  match req_body with
  | JNull => throw TypeError
  | JObj props => ret (lookup_prop key props)
  | _ => ret None
  end.

Definition image_key (prompt : option json) : jsstring :=
  lit "image:" ++ interpolate prompt.

(** The handler of [POST /api/generateImage]. *)
Definition generateImage_handler (req_body : json) : M Response :=
  prompt <- destructure req_body (lit "prompt") ;;
  (if truthy prompt then ret tt else throw (Error None (lit "Prompt is required"))) ;;;
  require_api_key ;;;
  response <- image_create
    {| image_model := lit "dall-e-3";
       image_prompt := default JNull prompt;
       image_n := 1;
       image_size := lit "1024x1024";
       image_quality := lit "standard";
       image_response_format := lit "url" |} ;;
  url <- match data response with
         | Some (Some (c :: u) :: _) => ret (c :: u)
         | _ => throw (Error None (lit "Invalid response from image generation service"))
         end ;;
  let result := JObj [(lit "success", JBool true); (lit "imageUrl", JStr url)] in
  cache_result (image_key prompt) result ;;;
  ret (ok result).

Definition poll_key (req_body : json) : jsstring :=
  lit "poll:" ++ JSON_stringify req_body.

Definition poll_prompt (topic audience style guidelines : option json) : jsstring :=
  lit "
      Generate an engaging social media poll.
      Topic: " ++ interpolate topic ++ lit "
      Target Audience: " ++ interpolate audience ++ lit "
      Style: " ++ interpolate style ++ lit "
      Guidelines: " ++ interpolate guidelines ++ lit "

      Please format the response EXACTLY like this:
      1. Poll Question
      2. Option A
      3. Option B
      4. Option C
      5. Option D
      6. Explanation of why this poll is engaging
    ".

(** The handler of [POST /api/generate-poll]. *)
Definition generate_poll_handler (req_body : json) : M Response :=
  topic <- destructure req_body (lit "topic") ;;
  audience <- destructure req_body (lit "audience") ;;
  style <- destructure req_body (lit "style") ;;
  guidelines <- destructure req_body (lit "guidelines") ;;
  (if truthy topic then ret tt else throw (Error None (lit "Poll topic is required"))) ;;;
  require_api_key ;;;
  completion <- chat_create
    {| chat_model := lit "gpt-4o-mini";
       chat_system := system_poll;
       chat_user := poll_prompt topic audience style guidelines;
       chat_sampling := None |} ;;
  content <- first_content completion ;;
  raw <- match content with
         | Some s => ret s
         | None => throw TypeError
         end ;;
  result <- lift (poll_result raw) ;;
  cache_result (poll_key req_body) result ;;;
  ret (ok result).

(** [app.post(path, checkCache, handler)] followed by
    [app.use(errorHandler)]: the handler runs when [checkCache] calls
    [next()], and what it throws goes to [errorHandler]. *)
Definition route (handler : json -> M Response) (req_body : json) (e : Env) (s : State)
  : Response * State :=
  match checkCache req_body e s with
  | (inr (Some r), s') => (r, s')
  | (inr None, s') =>
      match handler req_body e s' with
      | (inr r, s'') => (r, s'')
      | (inl err, s'') => (errorHandler err, s'')
      end
  | (inl err, s') => (errorHandler err, s')
  end.

Definition generatePost := route generatePost_handler.
Definition generateImage := route generateImage_handler.
Definition generate_poll := route generate_poll_handler.

(** ** Notions the properties are stated with *)

(** A line of a well-formed poll response: a numeric marker, a dot, white
    space, and a text that has no line break and no white space at either
    end. *)
Record PollLine := {
  marker : jsstring;
  gap : jsstring;
  text : jsstring
}.

Definition render_line (l : PollLine) : jsstring :=
  marker l ++ [46] ++ gap l ++ text l.

Definition render (ls : list PollLine) : jsstring :=
  join [10] (List.map render_line ls).

Definition no_break (s : jsstring) : bool := forallb (fun c => negb (c =? 10)) s.

Definition well_formed_line (l : PollLine) : bool :=
  match marker l with [] => false | _ :: _ => forallb isDigit (marker l) end
  && forallb isWhiteSpace (gap l) && no_break (gap l)
  && match text l with [] => false | c :: _ => negb (isWhiteSpace c) end
  && match last (text l) with None => false | Some c => negb (isWhiteSpace c) end
  && no_break (text l).

(** The events a run appended to the trace. *)
Definition emitted (s s' : State) : list Event := drop (length (trace s)) (trace s').

(** The entry a read of [key] at time [t] finds. *)
Definition live_entry (t : Z) (r : Redis) (key : jsstring) : option json :=
  match entries r !! key with
  | Some (v, expiresAt) => if (t <? expiresAt)%Z then Some v else None
  | None => None
  end.

(** The three generation operations. *)
Inductive Operation := Post | Image | Poll.

Definition generate (op : Operation) : json -> Env -> State -> Response * State :=
  match op with
  | Post => generatePost
  | Image => generateImage
  | Poll => generate_poll
  end.

(** [req.body[key]], [undefined] when the body is not an object. *)
Definition prop (input : json) (key : jsstring) : option json :=
  match input with
  | JObj props => lookup_prop key props
  | _ => None
  end.

(** The key an operation stores its result under. *)
Definition result_key (op : Operation) (req_body : json) : jsstring :=
  match op with
  | Post => post_key req_body
  | Image => image_key (prop req_body (lit "prompt"))
  | Poll => poll_key req_body
  end.

(** What the cache answers a request with: the live entry under the key
    [checkCache] reads, when there is a client and the read does not fail. *)
Definition cache_answer (e : Env) (s : State) (req_body : json) : option json :=
  match redis s with
  | Some r =>
      match get_error r with
      | None => live_entry (now e) r (checkCache_key req_body)
      | Some _ => None
      end
  | None => None
  end.

(** ** The orchestration the three routes share

    Every route goes through the same stages: the cache lookup, the checks
    of the handler, one upstream call, the reading of its payload, the
    cache write and the response. The stages are spelled out here once;
    [generate_orchestrate] below shows that each route, as embedded above,
    runs exactly them. *)

Definition add_events (s : State) (evs : list Event) : State :=
  {| redis := redis s; trace := trace s ++ evs |}.

Definition key_error : Exception := Error None (lit "OpenAI API key is not configured").

(** What the content route makes of the upstream's answer. *)
Definition post_outcome (r : Exception + ChatCompletion) : Exception + json :=
  match r with
  | inl err => inl err
  | inr completion =>
      match choices completion !! 0%nat with
      | None => inl TypeError
      | Some content =>
          inr (JObj ([(lit "success", JBool true); (lit "content", json_of_content content)]
                     ++ match usage completion with
                        | Some u => [(lit "usage", u)]
                        | None => []
                        end))
      end
  end.

Definition image_outcome (r : Exception + ImagesResponse) : Exception + json :=
  match r with
  | inl err => inl err
  | inr response =>
      match data response with
      | Some (Some (c :: u) :: _) =>
          inr (JObj [(lit "success", JBool true); (lit "imageUrl", JStr (c :: u))])
      | _ => inl (Error None (lit "Invalid response from image generation service"))
      end
  end.

Definition poll_outcome (r : Exception + ChatCompletion) : Exception + json :=
  match r with
  | inl err => inl err
  | inr completion =>
      match choices completion !! 0%nat with
      | Some (Some raw) => poll_result raw
      | _ => inl TypeError
      end
  end.

(** The events a handler logs before its upstream call. *)
Definition checks (op : Operation) (input : json) : list Event :=
  match op with
  | Post => [SchemaCheck input]
  | _ => []
  end.

(** The handler up to its upstream call: the exception it throws before
    calling, or the call it makes together with what it makes of the
    answer of the [n]-th call. *)
Definition plan (op : Operation) (input : json) (e : Env)
  : Exception + (Event * (nat -> Exception + json)) :=
  match op with
  | Post =>
      match contentSchema input with
      | inl iss => inl (ZodError iss)
      | inr c =>
          if api_key_missing e then inl key_error
          else match generatePrompt (postType c) c with
               | inl err => inl err
               | inr prompt =>
                   let req :=
                     {| chat_model := lit "gpt-4o-mini";
                        chat_system := system_post;
                        chat_user := prompt;
                        chat_sampling := Some (env_or (OPENAI_TEMPERATURE e) (lit "0.7"),
                                               env_or (OPENAI_MAX_TOKENS e) (lit "500")) |} in
                   inr (ChatCall req, fun n => post_outcome (chat_completions_create e n req))
               end
      end
  | Image =>
      match input with
      | JNull => inl TypeError
      | _ =>
          if truthy (prop input (lit "prompt")) then
            if api_key_missing e then inl key_error
            else
              let req :=
                {| image_model := lit "dall-e-3";
                   image_prompt := default JNull (prop input (lit "prompt"));
                   image_n := 1;
                   image_size := lit "1024x1024";
                   image_quality := lit "standard";
                   image_response_format := lit "url" |} in
              inr (ImageCall req, fun n => image_outcome (images_generate e n req))
          else inl (Error None (lit "Prompt is required"))
      end
  | Poll =>
      match input with
      | JNull => inl TypeError
      | _ =>
          if truthy (prop input (lit "topic")) then
            if api_key_missing e then inl key_error
            else
              let req :=
                {| chat_model := lit "gpt-4o-mini";
                   chat_system := system_poll;
                   chat_user := poll_prompt (prop input (lit "topic")) (prop input (lit "audience"))
                                  (prop input (lit "style")) (prop input (lit "guidelines"));
                   chat_sampling := None |} in
              inr (ChatCall req, fun n => poll_outcome (chat_completions_create e n req))
          else inl (Error None (lit "Poll topic is required"))
      end
  end.

(** The event of the lookup, when there is a client. *)
Definition lookup_events (s : State) (input : json) : list Event :=
  match redis s with
  | Some _ => [CacheGet (checkCache_key input)]
  | None => []
  end.

(** The state after [checkCache]. *)
Definition looked_up (s : State) (input : json) : State :=
  add_events s (lookup_events s input).

(** The server after [setex key 3600 result] at the time of the request. *)
Definition stored (r : Redis) (key : jsstring) (result : json) (e : Env) : Redis :=
  {| entries := <[key := (result, (now e + 3600)%Z)]> (entries r);
     get_error := get_error r;
     setex_error := setex_error r |}.

(** The cache write and the response. *)
Definition store_and_respond (key : jsstring) (result : json) (e : Env) (s : State)
  : Response * State :=
  match redis s with
  | None => (ok result, s)
  | Some r =>
      match setex_error r with
      | Some err => (errorHandler err, add_events s [CacheSet key 3600 result])
      | None =>
          (ok result,
           {| redis := Some (stored r key result e);
              trace := trace s ++ [CacheSet key 3600 result] |})
      end
  end.

(** The stages after the lookup, from the state [s1] it left. *)
Definition proceed (op : Operation) (input : json) (e : Env) (s1 : State) : Response * State :=
  let s1' := add_events s1 (checks op input) in
  match plan op input e with
  | inl err => (errorHandler err, s1')
  | inr (call, outcome) =>
      let s2 := add_events s1' [call] in
      match outcome (length (upstream_calls (trace s1))) with
      | inl err => (errorHandler err, s2)
      | inr result => store_and_respond (result_key op input) result e s2
      end
  end.

Definition orchestrate (op : Operation) (input : json) (e : Env) (s : State)
  : Response * State :=
  match cache_answer e s input with
  | Some v => (ok v, looked_up s input)
  | None => proceed op input e (looked_up s input)
  end.

Definition handler (op : Operation) : json -> M Response :=
  match op with
  | Post => generatePost_handler
  | Image => generateImage_handler
  | Poll => generate_poll_handler
  end.

(** A handler's result as the route answers it. *)
Definition answered (r : (Exception + Response) * State) : Response * State :=
  match r with
  | (inr resp, s) => (resp, s)
  | (inl err, s) => (errorHandler err, s)
  end.

(** The paths of a request through a route, each with the response and
    the state it ends in: answered by the cache; rejected by the handler
    before any call; failed at the upstream call; answered without a cache
    client; failed at the cache write; answered and stored. *)
Inductive Run (op : Operation) (input : json) (e : Env) (s : State)
  : Response * State -> Prop :=
| run_hit v :
    cache_answer e s input = Some v ->
    Run op input e s (ok v, add_events s (lookup_events s input))
| run_rejected err :
    cache_answer e s input = None ->
    plan op input e = inl err ->
    Run op input e s
      (errorHandler err, add_events s (lookup_events s input ++ checks op input))
| run_upstream_failed call outcome err :
    cache_answer e s input = None ->
    plan op input e = inr (call, outcome) ->
    outcome (length (upstream_calls (trace s))) = inl err ->
    Run op input e s
      (errorHandler err,
       add_events s (lookup_events s input ++ checks op input ++ [call]))
| run_uncached call outcome result :
    redis s = None ->
    plan op input e = inr (call, outcome) ->
    outcome (length (upstream_calls (trace s))) = inr result ->
    Run op input e s
      (ok result, add_events s (lookup_events s input ++ checks op input ++ [call]))
| run_write_failed call outcome result r err :
    cache_answer e s input = None ->
    plan op input e = inr (call, outcome) ->
    outcome (length (upstream_calls (trace s))) = inr result ->
    redis s = Some r ->
    setex_error r = Some err ->
    Run op input e s
      (errorHandler err,
       add_events s (lookup_events s input ++ checks op input
                     ++ [call; CacheSet (result_key op input) 3600 result]))
| run_stored call outcome result r :
    cache_answer e s input = None ->
    plan op input e = inr (call, outcome) ->
    outcome (length (upstream_calls (trace s))) = inr result ->
    redis s = Some r ->
    setex_error r = None ->
    Run op input e s
      (ok result,
       {| redis := Some (stored r (result_key op input) result e);
          trace := trace s ++ lookup_events s input ++ checks op input
                   ++ [call; CacheSet (result_key op input) 3600 result] |}).

Definition is_schema_check (ev : Event) : bool :=
  match ev with SchemaCheck _ => true | _ => false end.

Definition is_cache_get (ev : Event) : bool :=
  match ev with CacheGet _ => true | _ => false end.

Definition is_cache_set (ev : Event) : bool :=
  match ev with CacheSet _ _ _ => true | _ => false end.

(** Every event of kind [b] in the trace has an event of kind [a] before
    it. *)
Definition precedes (a b : Event -> bool) (t : list Event) : Prop :=
  forall pre ev post, t = pre ++ ev :: post -> b ev = true -> existsb a pre = true.

(** A checker for [precedes]: [seen] tells whether an [a] has occurred. *)
Fixpoint precedes_from (seen : bool) (a b : Event -> bool) (t : list Event) : bool :=
  match t with
  | [] => true
  | ev :: t' => (negb (b ev) || seen) && precedes_from (seen || a ev) a b t'
  end.

(** The [n]-th upstream call failed: it threw (a timeout, an error status)
    or its payload lacks what the route reads (no first choice, no URL). *)
Definition upstream_failed (e : Env) (n : nat) (ev : Event) : bool :=
  match ev with
  | ChatCall req =>
      match chat_completions_create e n req with
      | inl _ => true
      | inr completion => match choices completion with [] => true | _ :: _ => false end
      end
  | ImageCall req =>
      match images_generate e n req with
      | inl _ => true
      | inr response =>
          match data response with
          | Some (Some (_ :: _) :: _) => false
          | _ => true
          end
      end
  | _ => false
  end.

(** *** The constraints of the schema, field by field *)

Definition kind_ok (v : option json) : bool :=
  match v with
  | Some (JStr s) => existsb (eqb_string s) postTypes
  | _ => false
  end.

(** As the code has it: a string of at least one code unit. *)
Definition topic_ok (v : option json) : bool :=
  match v with
  | Some (JStr (_ :: _)) => true
  | _ => false
  end.

(** As the specification words it: non-empty after trimming. *)
Definition topic_ok_trimmed (v : option json) : bool :=
  match v with
  | Some (JStr s) => truthy_string (trim s)
  | _ => false
  end.

Definition string_or_absent (v : option json) : bool :=
  match v with
  | None => true
  | Some (JStr _) => true
  | Some _ => false
  end.

Definition platforms_ok (v : option json) : bool :=
  match v with
  | None => true
  | Some (JObj props) =>
      forallb (fun kv => match snd kv with JBool _ => true | _ => false end) props
  | Some _ => false
  end.

Definition preferences_ok (v : option json) : bool :=
  match v with
  | None => true
  | Some (JObj props) =>
      platforms_ok (lookup_prop (lit "platforms") props)
      && string_or_absent (lookup_prop (lit "tonePreference") props)
      && string_or_absent (lookup_prop (lit "contentLength") props)
      && string_or_absent (lookup_prop (lit "hashtagPreference") props)
  | Some _ => false
  end.

Definition constraints : list (jsstring * (option json -> bool)) :=
  [(lit "postType", kind_ok); (lit "topic", topic_ok);
   (lit "audience", string_or_absent); (lit "style", string_or_absent);
   (lit "guidelines", string_or_absent); (lit "preferences", preferences_ok)].

(** The fields of an object that violate their constraint. *)
Definition violated (props : list (jsstring * json)) : list jsstring :=
  List.map fst
    (List.filter (fun fc => negb (snd fc (lookup_prop (fst fc) props))) constraints).

(** The constraints an object violates, each by the full path of its
    field: the six fields of the schema in its order and, under
    [preferences], the platform flags that are not booleans and the three
    texts that are not strings. A value that is not an object where one is
    expected counts once, under its own path. *)
Definition text_violation (p : list jsstring) (v : option json) : list (list jsstring) :=
  if string_or_absent v then [] else [p].

Definition platforms_violations (v : option json) : list (list jsstring) :=
  match v with
  | None => []
  | Some (JObj flags) =>
      List.map (fun kv => [lit "preferences"; lit "platforms"; fst kv])
        (List.filter (fun kv => match snd kv with JBool _ => false | _ => true end) flags)
  | Some _ => [[lit "preferences"; lit "platforms"]]
  end.

Definition preferences_violations (v : option json) : list (list jsstring) :=
  match v with
  | None => []
  | Some (JObj props) =>
      platforms_violations (lookup_prop (lit "platforms") props)
      ++ text_violation [lit "preferences"; lit "tonePreference"]
           (lookup_prop (lit "tonePreference") props)
      ++ text_violation [lit "preferences"; lit "contentLength"]
           (lookup_prop (lit "contentLength") props)
      ++ text_violation [lit "preferences"; lit "hashtagPreference"]
           (lookup_prop (lit "hashtagPreference") props)
  | Some _ => [[lit "preferences"]]
  end.

Definition violated_paths (props : list (jsstring * json)) : list (list jsstring) :=
  (if kind_ok (lookup_prop (lit "postType") props) then [] else [[lit "postType"]])
  ++ (if topic_ok (lookup_prop (lit "topic") props) then [] else [[lit "topic"]])
  ++ text_violation [lit "audience"] (lookup_prop (lit "audience") props)
  ++ text_violation [lit "style"] (lookup_prop (lit "style") props)
  ++ text_violation [lit "guidelines"] (lookup_prop (lit "guidelines") props)
  ++ preferences_violations (lookup_prop (lit "preferences") props).

(** An issue whose code is the code of the check that raised it. *)
Definition raised_by_check (i : ZodIssue) : bool :=
  match params i, code i with
  | type_params _ _, invalid_type
  | enum_type_params _ _, invalid_type
  | enum_value_params _ _, invalid_enum_value
  | size_params _ _ _ _, too_small => true
  | _, _ => false
  end.

(** A request that violates a constraint of each kind: an unknown kind, an
    empty topic, a number for the audience and, nested, a text for a
    platform flag. *)
Definition invalid_body : json :=
  JObj [(lit "postType", JStr (lit "blog"));
        (lit "topic", JStr []);
        (lit "audience", JNum (lit "7"));
        (lit "preferences",
         JObj [(lit "platforms", JObj [(lit "twitter", JStr (lit "yes"))])])].

(** The issues of each field's check, under the field's name. *)
Definition field_issues (props : list (jsstring * json)) : list (jsstring * list ZodIssue) :=
  [(lit "postType", issues (z_enum postTypes [lit "postType"] (lookup_prop (lit "postType") props)));
   (lit "topic", issues (z_string_min1 [lit "topic"] (lookup_prop (lit "topic") props)));
   (lit "audience",
    issues (z_string_default (lit "general audience") [lit "audience"] (lookup_prop (lit "audience") props)));
   (lit "style",
    issues (z_string_default (lit "neutral and engaging") [lit "style"] (lookup_prop (lit "style") props)));
   (lit "guidelines",
    issues (z_string_default (lit "none") [lit "guidelines"] (lookup_prop (lit "guidelines") props)));
   (lit "preferences", issues (z_preferences [lit "preferences"] (lookup_prop (lit "preferences") props)))].

(** A check conforms to a constraint on a field: it gives a value when the
    constraint holds, and otherwise at least one issue, each under the
    field's name. *)
Definition conforms {A} (f : jsstring) (holds : bool) (r : Parsed A) : Prop :=
  if holds then exists a, r = inr a
  else exists iss, r = inl iss /\ iss <> [] /\ Forall (fun i => head (path i) = Some f) iss.

(** The [success] field of a response body. *)
Definition success (r : Response) : option json :=
  match body r with
  | JObj props => lookup_prop (lit "success") props
  | _ => None
  end.

(** The [error] field of a response body. *)
Definition error_message (r : Response) : option json :=
  match body r with
  | JObj props => lookup_prop (lit "error") props
  | _ => None
  end.

(** *** Worlds for the examples *)

Definition blank_topic_body : json :=
  JObj [(lit "postType", JStr (lit "post")); (lit "topic", JStr (lit " "))].



(** An upstream that answers every chat call with one choice of the given
    text and every image call with one URL. *)
Definition answering (content : jsstring) (url : jsstring) (key : option jsstring) (t : Z) : Env :=
  {| OPENAI_API_KEY := key;
     OPENAI_TEMPERATURE := None;
     OPENAI_MAX_TOKENS := None;
     now := t;
     chat_completions_create := fun _ _ => inr {| choices := [Some content]; usage := None |};
     images_generate := fun _ _ => inr {| data := Some [Some url] |} |}.

(** An upstream whose every call times out. *)
Definition timing_out (key : option jsstring) (t : Z) : Env :=
  {| OPENAI_API_KEY := key;
     OPENAI_TEMPERATURE := None;
     OPENAI_MAX_TOKENS := None;
     now := t;
     chat_completions_create := fun _ _ => inl (Error None (lit "Request timed out."));
     images_generate := fun _ _ => inl (Error None (lit "Request timed out.")) |}.

Definition working_redis (m : gmap jsstring (json * Z)) : Redis :=
  {| entries := m; get_error := None; setex_error := None |}.

Definition failing_reads (m : gmap jsstring (json * Z)) : Redis :=
  {| entries := m;
     get_error := Some (Error None (lit "Connection is closed."));
     setex_error := None |}.

Definition failing_writes : Redis :=
  {| entries := ∅;
     get_error := None;
     setex_error := Some (Error None (lit "Connection is closed.")) |}.

Definition fresh (r : option Redis) : State := {| redis := r; trace := [] |}.

Definition post_body : json :=
  JObj [(lit "postType", JStr (lit "post")); (lit "topic", JStr (lit "remote work"))].

Definition poll_body : json := JObj [(lit "topic", JStr (lit "remote work"))].

Definition image_body : json := JObj [(lit "prompt", JStr (lit "a poll graphic"))].

Definition api_key : option jsstring := Some (lit "sk-test").

(** A stored document, as an earlier deployment may have left it. *)
Definition stored_result : json :=
  JObj [(lit "success", JBool true); (lit "content", JStr (lit "Remote work is here to stay."))].

Definition post_request (prompt : jsstring) : ChatRequest :=
  {| chat_model := lit "gpt-4o-mini";
     chat_system := system_post;
     chat_user := prompt;
     chat_sampling := Some (lit "0.7", lit "500") |}.

Definition poll_text : jsstring :=
  lit "1. Is remote work here to stay?
2. Yes
3. No
4. Depends
5. Sparks workplace debate".

(** ** The layout of a poll response

    The upstream is asked for numbered lines; what it sends may carry
    carriage returns, blank lines and indentation. *)

(** A line of a response as the upstream may lay it out: a numbered line
    with white space before and after it, or a line of white space only. *)
Inductive RawLine :=
| Numbered (indent : jsstring) (l : PollLine) (trail : jsstring)
| Blank (ws : jsstring).

Definition render_raw (r : RawLine) : jsstring :=
  match r with
  | Numbered indent l trail => indent ++ render_line l ++ trail
  | Blank ws => ws
  end.

(** White space within a line. *)
Definition padding (ws : jsstring) : bool := forallb isWhiteSpace ws && no_break ws.

Definition well_formed_raw (r : RawLine) : bool :=
  match r with
  | Numbered indent l trail => padding indent && well_formed_line l && padding trail
  | Blank ws => padding ws
  end.

(** What the parser makes of a raw line: nothing of a blank line, the text
    of a numbered line that starts the line, and the whole numbered line,
    marker included, when white space comes before the marker. *)
Definition parsed (r : RawLine) : option jsstring :=
  match r with
  | Numbered [] l _ => Some (text l)
  | Numbered (_ :: _) l _ => Some (render_line l)
  | Blank _ => None
  end.

Definition layout (lead : jsstring) (rs : list RawLine) (tail : jsstring) : jsstring :=
  lead ++ join [10] (List.map render_raw rs) ++ tail.

(** A string nothing is trimmed from, on one line. *)
Definition trimmed_line (s : jsstring) : bool :=
  bool_decide (trim s = s) && no_break s.

Definition line_of (r : RawLine) : option PollLine :=
  match r with
  | Numbered _ l _ => Some l
  | Blank _ => None
  end.

(** The numbered lines of a response, in order. *)
Definition numbered_lines (rs : list RawLine) : list PollLine := omap line_of rs.

Definition unindented (r : RawLine) : bool :=
  match r with
  | Numbered (_ :: _) _ _ => false
  | _ => true
  end.

Definition indented (r : RawLine) : bool :=
  match r with
  | Numbered [] _ _ => false
  | _ => true
  end.

(** The events of a run that touch the cache. *)
Definition cache_events (t : list Event) : list Event :=
  List.filter (fun ev => is_cache_get ev || is_cache_set ev) t.

(** *** Reading back what [JSON.stringify] wrote *)

(** The characters of a finite number as JavaScript prints it. *)
Definition isNumberChar (c : N) : bool :=
  isDigit c || (c =? 45) || (c =? 43) || (c =? 46) || (c =? 101).

(** A document as the body parser delivers it: every number is finite and
    kept as the text JavaScript prints for it. *)
Fixpoint document (v : json) : bool :=
  match v with
  | JNum t => match t with [] => false | _ :: _ => forallb isNumberChar t end
  | JArr items => forallb document items
  | JObj props => forallb (fun kv => document (snd kv)) props
  | _ => true
  end.

(** The value of a hexadecimal digit, and the code unit of a two-character
    escape. *)
Definition unhex (d : N) : N := if d <? 58 then d - 48 else d - 87.

Definition unescape (x : N) : option N :=
  if x =? 98 then Some 8
  else if x =? 116 then Some 9
  else if x =? 110 then Some 10
  else if x =? 102 then Some 12
  else if x =? 114 then Some 13
  else if x =? 34 then Some 34
  else if x =? 92 then Some 92
  else None.

Definition push (c : N) (r : option (jsstring * jsstring)) : option (jsstring * jsstring) :=
  match r with
  | Some (u, rest) => Some (c :: u, rest)
  | None => None
  end.

(** The code units of a quoted string up to its closing quote, and what
    follows the quote: the inverse of [quote_units]. *)
Fixpoint unquote_units (s : jsstring) : option (jsstring * jsstring) :=
  match s with
  | [] => None
  | c :: s1 =>
      if c =? 34 then Some ([], s1)
      else if c =? 92 then
        match s1 with
        | [] => None
        | x :: s2 =>
            if x =? 117 then
              match s2 with
              | h1 :: h2 :: h3 :: h4 :: s3 =>
                  push (4096 * unhex h1 + 256 * unhex h2 + 16 * unhex h3 + unhex h4)
                    (unquote_units s3)
              | _ => None
              end
            else match unescape x with
                 | Some c' => push c' (unquote_units s2)
                 | None => None
                 end
        end
      else push c (unquote_units s1)
  end.

(** The first code unit of the text of a value tells its kind. *)
Definition starts (v : json) (c : N) : bool :=
  match v with
  | JNull => c =? 110
  | JBool true => c =? 116
  | JBool false => c =? 102
  | JNum _ => isNumberChar c
  | JStr _ => c =? 34
  | JArr _ => c =? 91
  | JObj _ => c =? 123
  end.

(** What may follow a value inside a document: nothing, a comma, or the
    end of the enclosing array or object. *)
Definition closes (r : jsstring) : bool :=
  match r with
  | [] => true
  | c :: _ => (c =? 44) || (c =? 93) || (c =? 125)
  end.

(** A property of an object as [JSON.stringify] writes it. *)
Definition property_text (kv : jsstring * json) : jsstring :=
  quote (fst kv) ++ [58] ++ JSON_stringify (snd kv).

(** ** Sequences of requests *)

(** The requests a server handles one after the other, each with the
    environment at its time (the clock, the configuration and what the
    upstream answers). *)
Fixpoint serve (reqs : list (Operation * json * Env)) (s : State) : list Response * State :=
  match reqs with
  | [] => ([], s)
  | (op, input, e) :: rest =>
      let (r, s1) := generate op input e s in
      let (rs, s2) := serve rest s1 in
      (r :: rs, s2)
  end.

(** A document with [success: true]. *)
Definition successful (v : json) : bool :=
  match prop v (lit "success") with
  | Some (JBool true) => true
  | _ => false
  end.

(** Every entry of the store is a document with [success: true]. *)
Definition holds_successes (s : State) : Prop :=
  match redis s with
  | Some r => map_Forall (fun _ entry => successful (fst entry) = true) (entries r)
  | None => True
  end.

(** A response is a success with status 200 or a failure. *)
Definition success_or_failure (r : Response) : Prop :=
  (success r = Some (JBool true) /\ statusCode r = 200%Z)
  \/ success r = Some (JBool false).

(** ** The poll form of the client: the [Polls] component

    The component keeps the form's fields and the poll it shows; a click
    on its button runs [generatePoll], which asks the server for a poll
    and then for an image of it. What [window.alert] showed and what was
    written to the clipboard are kept with the component's state.
    [console.error] is not modelled. *)

Record GeneratedPoll := {
  question : option json;
  options : option json;
  explanation : option json;
  imageUrl : option json
}.

Record Polls := {
  (* useState: topic, audience, style, guidelines *)
  polls_topic : jsstring;
  polls_audience : jsstring;
  polls_style : jsstring;
  polls_guidelines : jsstring;
  (* the prop preferences.platforms, when it is defined *)
  polls_platforms : option json;
  isLoading : bool;
  generatedPoll : option GeneratedPoll;
  copiedToClipboard : bool;
  (* window.alert and navigator.clipboard *)
  alerts : list jsstring;
  clipboard : option jsstring
}.

Definition setIsLoading (b : bool) (c : Polls) : Polls :=
  {| polls_topic := polls_topic c; polls_audience := polls_audience c;
     polls_style := polls_style c; polls_guidelines := polls_guidelines c;
     polls_platforms := polls_platforms c; isLoading := b;
     generatedPoll := generatedPoll c; copiedToClipboard := copiedToClipboard c;
     alerts := alerts c; clipboard := clipboard c |}.

Definition setGeneratedPoll (p : option GeneratedPoll) (c : Polls) : Polls :=
  {| polls_topic := polls_topic c; polls_audience := polls_audience c;
     polls_style := polls_style c; polls_guidelines := polls_guidelines c;
     polls_platforms := polls_platforms c; isLoading := isLoading c;
     generatedPoll := p; copiedToClipboard := copiedToClipboard c;
     alerts := alerts c; clipboard := clipboard c |}.

Definition alert (msg : jsstring) (c : Polls) : Polls :=
  {| polls_topic := polls_topic c; polls_audience := polls_audience c;
     polls_style := polls_style c; polls_guidelines := polls_guidelines c;
     polls_platforms := polls_platforms c; isLoading := isLoading c;
     generatedPoll := generatedPoll c; copiedToClipboard := copiedToClipboard c;
     alerts := alerts c ++ [msg]; clipboard := clipboard c |}.

Definition writeText (t : jsstring) (c : Polls) : Polls :=
  {| polls_topic := polls_topic c; polls_audience := polls_audience c;
     polls_style := polls_style c; polls_guidelines := polls_guidelines c;
     polls_platforms := polls_platforms c; isLoading := isLoading c;
     generatedPoll := generatedPoll c; copiedToClipboard := true;
     alerts := alerts c; clipboard := Some t |}.

(** What [fetch] resolves with: the status and the body, [None] for a
    body that is not JSON. A rejected [fetch] is an exception. *)
Record FetchResponse := {
  status : Z;
  payload : option json
}.

(** [response.ok] *)
Definition response_ok (r : FetchResponse) : bool :=
  (200 <=? status r)%Z && (status r <=? 299)%Z.

(** The body the component sends to [/api/generate-poll]; a property
    whose value is [undefined] is left out by [JSON.stringify]. *)
Definition poll_request (c : Polls) : json :=
  JObj [(lit "topic", JStr (polls_topic c));
        (lit "audience", JStr (polls_audience c));
        (lit "style", JStr (polls_style c));
        (lit "guidelines", JStr (polls_guidelines c));
        (lit "preferences",
         JObj match polls_platforms c with
              | Some p => [(lit "platforms", p)]
              | None => []
              end)].

Definition image_request (question : option json) : json :=
  JObj [(lit "prompt",
         JStr (lit "Create a visually engaging social media poll graphic with the following poll question: "
               ++ [34] ++ interpolate question ++ [34]
               ++ lit ". Include poll options and use a clean, modern design that stands out on social media."))].

Section Client.

(** The network and the server behind it, with their state. *)
Context {W : Type} (fetch : jsstring -> json -> W -> (Exception + FetchResponse) * W).

(** The inner [try] of [generatePoll]: the image of the poll. Whatever
    fails, [imageUrl] stays [undefined]. *)
Definition fetch_image (data : json) (w : W) : option json * W :=
  match fetch (lit "/api/generateImage") (image_request (prop data (lit "question"))) w with
  | (inr imageResponse, w') =>
      match payload imageResponse with
      | None => (None, w')
      | Some JNull => (None, w')
      | Some imageData =>
          if truthy (prop imageData (lit "success")) && truthy (prop imageData (lit "imageUrl"))
          then (prop imageData (lit "imageUrl"), w')
          else (None, w')
      end
  | (inl imageError, w') => (None, w')
  end.

(** The outer [try] of [generatePoll]. *)
Definition fetch_poll (c : Polls) (w : W) : (Exception + GeneratedPoll) * W :=
  match fetch (lit "/api/generate-poll") (poll_request c) w with
  | (inl error, w') => (inl error, w')
  | (inr response, w') =>
      if negb (response_ok response)
      then (inl (Error None (lit "Failed to generate poll")), w')
      else
        match payload response with
        | None => (inl (Error None (lit "Unexpected token")), w')
        | Some JNull => (inl TypeError, w')
        | Some data =>
            if negb (truthy (prop data (lit "success")))
            then (inl (Error None
                         (if truthy (prop data (lit "error"))
                          then interpolate (prop data (lit "error"))
                          else lit "Failed to generate poll")), w')
            else
              let (imageUrl, w'') := fetch_image data w' in
              (inr {| question := prop data (lit "question");
                      options := prop data (lit "options");
                      explanation := prop data (lit "explanation");
                      imageUrl := imageUrl |}, w'')
        end
  end.

Definition generatePoll (c : Polls) (w : W) : Polls * W :=
  if negb (truthy_string (trim (polls_topic c)))
  then (alert (lit "Please provide a topic for the poll") c, w)
  else
    let c := setGeneratedPoll None (setIsLoading true c) in
    match fetch_poll c w with
    | (inr poll, w') => (setIsLoading false (setGeneratedPoll (Some poll) c), w')
    | (inl error, w') =>
        (setIsLoading false (alert (lit "Failed to generate poll. Please try again.") c), w')
    end.

End Client.

(** [String.fromCharCode(n)] *)
Definition fromCharCode (n : N) : jsstring := [n mod 65536].

(** The text [copyPollToClipboard] and [sharePoll] build. *)
Definition pollText (p : GeneratedPoll) : Exception + jsstring :=
  match options p with
  | Some (JArr items) =>
      inr ([55357; 56522; 32] ++ interpolate (question p) ++ [10; 10]
           ++ join [10] (imap (fun index opt =>
                                 fromCharCode (65 + N.of_nat index) ++ lit ". " ++ ToString opt)
                           items))
  | _ => inl TypeError
  end.

(** [copyPollToClipboard()], up to the timer that resets
    [copiedToClipboard] two seconds later. *)
Definition copyPollToClipboard (c : Polls) : Exception + Polls :=
  match generatedPoll c with
  | None => inr c
  | Some p =>
      match pollText p with
      | inr text => inr (writeText text c)
      | inl err => inl err
      end
  end.

(** The server as the component reaches it: the three routes of [app],
    any other path being answered 404 with a body that is not JSON. A
    request is taken to reach its route: the network and the rate
    limiter are outside the model. *)
Definition deliver (r : Response * State) : (Exception + FetchResponse) * State :=
  (inr {| status := statusCode (fst r); payload := Some (body (fst r)) |}, snd r).

Definition server (e : Env) (url : jsstring) (req_body : json) (s : State)
  : (Exception + FetchResponse) * State :=
  if eqb_string url (lit "/api/generatePost") then deliver (generatePost req_body e s)
  else if eqb_string url (lit "/api/generateImage") then deliver (generateImage req_body e s)
  else if eqb_string url (lit "/api/generate-poll") then deliver (generate_poll req_body e s)
  else (inr {| status := 404; payload := None |}, s).

(** The document of a parsed poll and that of a generated image. *)
Definition poll_data (l : PollLine) (ls : list PollLine) : json :=
  JObj [(lit "success", JBool true);
        (lit "content", JStr (render (l :: ls)));
        (lit "question", JStr (text l));
        (lit "options", JArr (List.map (fun x => JStr (text x)) (take 3 ls)))].

Definition image_data (url : jsstring) : json :=
  JObj [(lit "success", JBool true); (lit "imageUrl", JStr url)].

(** ** Further notions *)

(** A line the regular expression [/^[0-9]+\./] matches at its start: one
    or more digits and a dot. *)
Definition numbered_prefix (line : jsstring) : Prop :=
  exists m rest, m <> [] /\ forallb isDigit m = true /\ line = m ++ 46 :: rest.

(** What a route checks of its input before it calls the upstream. *)
Definition input_ok (op : Operation) (input : json) : bool :=
  match op with
  | Post => match contentSchema input with inr _ => true | inl _ => false end
  | Image => truthy (prop input (lit "prompt"))
  | Poll => truthy (prop input (lit "topic"))
  end.

(** A validated request with another topic and audience. *)
Definition with_topic_audience (c : ContentRequest) (t a : jsstring) : ContentRequest :=
  {| postType := postType c; topic := t; audience := a; style := style c;
     guidelines := guidelines c; preferences := preferences c |}.

(** *** More worlds for the examples *)

(** An upstream that rejects every call with an error status. *)
Definition rejecting (st : Z) (msg : jsstring) (key : option jsstring) (t : Z) : Env :=
  {| OPENAI_API_KEY := key;
     OPENAI_TEMPERATURE := None;
     OPENAI_MAX_TOKENS := None;
     now := t;
     chat_completions_create := fun _ _ => inl (Error (Some st) msg);
     images_generate := fun _ _ => inl (Error (Some st) msg) |}.

Definition tabs_or_spaces : PollLine :=
  {| marker := lit "1"; gap := lit " "; text := lit "Tabs or spaces?" |}.

Definition option_tabs : PollLine :=
  {| marker := lit "2"; gap := lit " "; text := lit "Tabs" |}.

Definition option_spaces : PollLine :=
  {| marker := lit "3"; gap := lit " "; text := lit "Spaces" |}.

(** The form of the component with a topic typed in. *)
Definition polls_form : Polls :=
  {| polls_topic := lit "indentation";
     polls_audience := [];
     polls_style := [];
     polls_guidelines := [];
     polls_platforms := Some (JObj [(lit "twitter", JBool true)]);
     isLoading := false;
     generatedPoll := None;
     copiedToClipboard := false;
     alerts := [];
     clipboard := None |}.

(** A content request with a property the schema does not declare. *)
Definition post_body_draft : json :=
  JObj [(lit "postType", JStr (lit "post")); (lit "topic", JStr (lit "remote work"));
        (lit "draft", JBool true)].

(** ** Strings: trimming, splitting and the marker *)

Lemma dropWhile_app_stop p l c r :
  p c = false -> dropWhile p (l ++ c :: r) = dropWhile p l ++ c :: r.
Proof.
  intros Hc. induction l as [|a l IH]; simpl.
  - by rewrite Hc.
  - destruct (p a); [exact IH | reflexivity].
Qed.

Lemma dropWhile_all p l r :
  forallb p l = true -> dropWhile p (l ++ r) = dropWhile p r.
Proof.
  induction l as [|a l IH]; simpl; [done|].
  intros [Ha Hl]%andb_prop. rewrite Ha. auto.
Qed.

Lemma dropWhile_stop p c r : p c = false -> dropWhile p (c :: r) = c :: r.
Proof. intros Hc. simpl. by rewrite Hc. Qed.

Lemma dropWhile_head p s c t : dropWhile p s = c :: t -> p c = false.
Proof.
  induction s as [|a s IH]; simpl; [done|].
  destruct (p a) eqn:Ha; [exact IH|]. intros [= <- _]. exact Ha.
Qed.

Lemma dropWhile_suffix p s : exists pre, s = pre ++ dropWhile p s.
Proof.
  induction s as [|a s [pre IH]]; simpl.
  - by exists [].
  - destruct (p a).
    + exists (a :: pre). simpl. by f_equal.
    + by exists [].
Qed.

Lemma trimEnd_cons c s : isWhiteSpace c = false -> trimEnd (c :: s) = c :: trimEnd s.
Proof.
  intros Hc. unfold trimEnd. simpl rev.
  rewrite dropWhile_app_stop by exact Hc.
  by rewrite rev_app_distr.
Qed.

Lemma trim_cons c s : isWhiteSpace c = false -> trim (c :: s) = c :: trimEnd s.
Proof.
  intros Hc. unfold trim, trimStart. rewrite dropWhile_stop by exact Hc.
  by apply trimEnd_cons.
Qed.

Lemma trimEnd_prefix s : exists post, s = trimEnd s ++ post.
Proof.
  unfold trimEnd. destruct (dropWhile_suffix isWhiteSpace (rev s)) as [pre Hpre].
  exists (rev pre).
  rewrite <- rev_app_distr, <- Hpre. by rewrite rev_involutive.
Qed.

Lemma trim_head s c t : trim s = c :: t -> isWhiteSpace c = false.
Proof.
  unfold trim. intros Ht.
  destruct (trimEnd_prefix (trimStart s)) as [post Hpost].
  rewrite Ht in Hpost. simpl in Hpost.
  by apply (dropWhile_head isWhiteSpace s c (t ++ post)).
Qed.

Lemma trimEnd_last s c : isWhiteSpace c = false -> trimEnd (s ++ [c]) = s ++ [c].
Proof.
  intros Hc. unfold trimEnd. rewrite rev_app_distr. simpl.
  rewrite Hc. simpl. by rewrite rev_involutive.
Qed.

Lemma last_snoc_inv (s : jsstring) c : last s = Some c -> exists s', s = s' ++ [c].
Proof.
  intros H. destruct s as [|a s] using rev_ind; [done|].
  rewrite last_snoc in H. injection H as ->. by exists s.
Qed.

(** A string with no white space at either end is its own trim. *)
Lemma trim_fixed c s d :
  isWhiteSpace c = false -> last (c :: s) = Some d -> isWhiteSpace d = false ->
  trim (c :: s) = c :: s.
Proof.
  intros Hc Hl Hd. unfold trim, trimStart. rewrite dropWhile_stop by exact Hc.
  destruct (last_snoc_inv _ _ Hl) as [s' ->]. by apply trimEnd_last.
Qed.

Lemma split_not_nil sep s : split sep s <> [].
Proof.
  destruct s as [|c s]; simpl; [done|].
  destruct (c =? sep); [done|]. by destruct (split sep s).
Qed.

Lemma split_cons sep c s :
  (c =? sep) = false -> exists l ls, split sep (c :: s) = (c :: l) :: ls.
Proof.
  intros Hc. simpl. rewrite Hc.
  destruct (split sep s) as [|l ls] eqn:E; [by apply split_not_nil in E|].
  by exists l, ls.
Qed.

Lemma split_no_sep sep s :
  forallb (fun c => negb (c =? sep)) s = true -> split sep s = [s].
Proof.
  induction s as [|c s IH]; simpl; [done|].
  intros [Hc Hs]%andb_prop. apply negb_true_iff in Hc. rewrite Hc, (IH Hs). done.
Qed.

Lemma split_app_sep sep l rest :
  forallb (fun c => negb (c =? sep)) l = true ->
  split sep (l ++ sep :: rest) = l :: split sep rest.
Proof.
  induction l as [|c l IH]; simpl.
  - by rewrite N.eqb_refl.
  - intros [Hc Hl]%andb_prop. apply negb_true_iff in Hc. rewrite Hc, (IH Hl). done.
Qed.

(** Splitting what was joined gives the lines back. *)
Lemma split_join sep l ls :
  forallb (fun s => forallb (fun c => negb (c =? sep)) s) (l :: ls) = true ->
  split sep (join [sep] (l :: ls)) = l :: ls.
Proof.
  revert l. induction ls as [|l' ls IH]; intros l; simpl.
  - rewrite andb_true_r. apply split_no_sep.
  - intros [Hl Hls]%andb_prop. rewrite split_app_sep by exact Hl.
    f_equal. by apply IH.
Qed.

Lemma whitespace_break : isWhiteSpace 10 = true.
Proof. reflexivity. Qed.

Lemma not_whitespace_not_break c : isWhiteSpace c = false -> (c =? 10) = false.
Proof.
  intros Hc. destruct (c =? 10) eqn:E; [|done].
  apply N.eqb_eq in E. subst c. by rewrite whitespace_break in Hc.
Qed.

Lemma digit_not_whitespace c : isDigit c = true -> isWhiteSpace c = false.
Proof.
  unfold isDigit, isWhiteSpace. intros [H1 H2]%andb_prop.
  apply N.leb_le in H1, H2.
  repeat match goal with
         | |- context [?a <=? ?b] => destruct (N.leb_spec a b); simpl
         | |- context [?a =? ?b] => destruct (N.eqb_spec a b); simpl
         end; try lia; done.
Qed.

Lemma dot_not_digit : isDigit 46 = false.
Proof. reflexivity. Qed.

(** ** The poll parser *)

Lemma poll_lines_head c t :
  isWhiteSpace c = false -> exists l ls, poll_lines (c :: t) = (c :: l) :: ls.
Proof.
  intros Hc. unfold poll_lines.
  destruct (split_cons 10 c t (not_whitespace_not_break c Hc)) as (l & ls & ->).
  simpl. rewrite trim_cons by exact Hc. simpl. eauto.
Qed.

Lemma poll_result_blank raw : trim raw = [] -> poll_result raw = inl TypeError.
Proof. intros H. unfold poll_result. rewrite H. reflexivity. Qed.

Lemma poll_result_not_blank raw :
  trim raw <> [] -> exists v, poll_result raw = inr v.
Proof.
  intros H. unfold poll_result.
  destruct (trim raw) as [|c t] eqn:E; [done|].
  destruct (poll_lines_head c t (trim_head raw c t E)) as (l & ls & ->).
  simpl. eauto.
Qed.

Section WellFormedLines.

Variable l : PollLine.
Hypothesis Hwf : well_formed_line l = true.

Lemma wf_parts :
  (exists c m, marker l = c :: m) /\ forallb isDigit (marker l) = true
  /\ forallb isWhiteSpace (gap l) = true /\ no_break (gap l) = true
  /\ (exists c t d, text l = c :: t /\ isWhiteSpace c = false
                    /\ last (text l) = Some d /\ isWhiteSpace d = false)
  /\ no_break (text l) = true.
Proof.
  unfold well_formed_line in Hwf.
  repeat (apply andb_prop in Hwf; destruct Hwf as [Hwf ?]).
  destruct (marker l) as [|c m] eqn:Em; [done|].
  destruct (text l) as [|c' t] eqn:Et; [done|].
  destruct (last (c' :: t)) as [d|] eqn:El; [|done].
  repeat split; try done; eauto.
  exists c', t, d. repeat split; try done; by apply negb_true_iff.
Qed.

Lemma render_line_head :
  exists c rest, render_line l = c :: rest /\ isDigit c = true.
Proof.
  destruct wf_parts as ((c & m & Em) & Hd & _).
  unfold render_line. rewrite Em in *. simpl in *.
  apply andb_prop in Hd as [Hc _]. eauto.
Qed.

Lemma render_line_last :
  exists d, last (render_line l) = Some d /\ isWhiteSpace d = false.
Proof.
  destruct wf_parts as (_ & _ & _ & _ & (c & t & d & Et & _ & Hl & Hd) & _).
  exists d. split; [|exact Hd].
  destruct (last_snoc_inv _ _ Hl) as [t' Ht'].
  unfold render_line. rewrite Ht'.
  rewrite !app_assoc. apply last_snoc.
Qed.

Lemma digits_no_break m : forallb isDigit m = true -> no_break m = true.
Proof.
  unfold no_break. induction m as [|c m IH]; simpl; [done|].
  intros [Hc Hm]%andb_prop. rewrite (IH Hm), andb_true_r.
  apply negb_true_iff, not_whitespace_not_break, digit_not_whitespace, Hc.
Qed.

Lemma render_line_no_break : no_break (render_line l) = true.
Proof.
  destruct wf_parts as (_ & Hd & _ & Hg & _ & Ht).
  apply digits_no_break in Hd.
  unfold render_line, no_break in *.
  rewrite !forallb_app. simpl.
  by rewrite Hd, Hg, Ht.
Qed.

Lemma strip_marker_render_line : strip_marker (render_line l) = text l.
Proof.
  destruct render_line_head as (c & rest & Er & Hc).
  destruct wf_parts as (_ & Hd & Hg & _ & (c' & t & d & Et & Hc' & _) & _).
  unfold strip_marker. rewrite Er, Hc, <- Er.
  unfold render_line.
  rewrite (dropWhile_all isDigit (marker l)) by exact Hd.
  cbn [app]. rewrite dropWhile_stop by exact dot_not_digit.
  rewrite N.eqb_refl.
  rewrite dropWhile_all by exact Hg.
  rewrite Et. by apply dropWhile_stop.
Qed.

Lemma strip_render_line : strip (render_line l) = text l.
Proof.
  unfold strip. rewrite strip_marker_render_line.
  destruct wf_parts as (_ & _ & _ & _ & (c & t & d & Et & Hc & Hl & Hd) & _).
  rewrite Et in *. by apply (trim_fixed c t d).
Qed.

Lemma render_line_truthy : truthy_string (trim (render_line l)) = true.
Proof.
  destruct render_line_head as (c & rest & -> & Hc).
  by rewrite trim_cons by (by apply digit_not_whitespace).
Qed.

End WellFormedLines.

Lemma join_head sep c rest ls : exists t, join sep ((c :: rest) :: ls) = c :: t.
Proof. destruct ls; simpl; eauto. Qed.

Lemma join_last sep (l : jsstring) ls z d :
  last (l :: ls) = Some z -> last z = Some d -> last (join sep (l :: ls)) = Some d.
Proof.
  revert l. induction ls as [|l' ls IH]; intros l.
  - intros [= ->] H. exact H.
  - rewrite last_cons_cons. intros Hz Hd.
    change (join sep (l :: l' :: ls)) with (l ++ sep ++ join sep (l' :: ls)).
    rewrite !last_app. by rewrite (IH l' Hz Hd).
Qed.

Lemma forallb_last {A} (p : A -> bool) (ls : list A) z :
  forallb p ls = true -> last ls = Some z -> p z = true.
Proof.
  intros Hp Hz. apply last_Some_elem_of, list_elem_of_In in Hz.
  rewrite forallb_forall in Hp. by apply Hp.
Qed.

Lemma last_map {A B} (f : A -> B) (ls : list A) :
  last (List.map f ls) = f <$> last ls.
Proof.
  induction ls as [|a ls IH]; [done|].
  destruct ls as [|b ls]; [done|].
  change (List.map f (a :: b :: ls)) with (f a :: f b :: List.map f ls).
  rewrite !last_cons_cons. exact IH.
Qed.

Lemma render_trim l ls :
  forallb well_formed_line (l :: ls) = true -> trim (render (l :: ls)) = render (l :: ls).
Proof.
  intros Hwf. unfold render.
  destruct (render_line_head l) as (c & rest & Er & Hc).
  { simpl in Hwf. by apply andb_prop in Hwf as [? _]. }
  destruct (last (l :: ls)) as [z|] eqn:Ez; [|by apply last_None in Ez].
  destruct (render_line_last z) as (d & Hl & Hd).
  { by apply (forallb_last _ (l :: ls)). }
  cbn [List.map]. rewrite Er.
  destruct (join_head [10] c rest (List.map render_line ls)) as [t Et].
  rewrite Et. apply (trim_fixed c t d); [by apply digit_not_whitespace| |exact Hd].
  rewrite <- Et, <- Er.
  apply (join_last _ _ _ (render_line z)); [|exact Hl].
  change (render_line l :: List.map render_line ls) with (List.map render_line (l :: ls)).
  by rewrite last_map, Ez.
Qed.

Lemma poll_lines_render l ls :
  forallb well_formed_line (l :: ls) = true ->
  poll_lines (render (l :: ls)) = List.map render_line (l :: ls).
Proof.
  intros Hwf. unfold poll_lines, render.
  change (List.map render_line (l :: ls)) with (render_line l :: List.map render_line ls).
  rewrite split_join.
  - change (render_line l :: List.map render_line ls) with (List.map render_line (l :: ls)).
    induction (l :: ls) as [|a rest IH]; [done|].
    simpl in Hwf. apply andb_prop in Hwf as [Ha Hrest].
    simpl. rewrite (render_line_truthy a Ha). f_equal. by apply IH.
  - change (render_line l :: List.map render_line ls) with (List.map render_line (l :: ls)).
    induction (l :: ls) as [|a rest IH]; [done|].
    simpl in Hwf. apply andb_prop in Hwf as [Ha Hrest].
    simpl. rewrite (IH Hrest), andb_true_r. by apply render_line_no_break.
Qed.

(** A well-formed numbered response parses to the text of its first line
    as the question and the texts of up to three following lines as the
    options. *)
Lemma poll_result_render l ls :
  forallb well_formed_line (l :: ls) = true ->
  poll_result (render (l :: ls))
  = inr (JObj [(lit "success", JBool true);
               (lit "content", JStr (render (l :: ls)));
               (lit "question", JStr (text l));
               (lit "options", JArr (List.map (fun x => JStr (text x)) (take 3 ls)))]).
Proof.
  intros Hwf. unfold poll_result.
  rewrite (render_trim _ _ Hwf), (poll_lines_render _ _ Hwf).
  cbn [List.map lookup list_lookup].
  cbn [forallb] in Hwf. apply andb_prop in Hwf as [Hl Hls].
  rewrite (strip_render_line l Hl).
  assert (forall n, List.map (fun line => JStr (strip line)) (take n (List.map render_line ls))
                    = List.map (fun x => JStr (text x)) (take n ls)) as Hmap.
  { clear Hl. induction ls as [|a ls IH]; intros [|n]; try reflexivity.
    cbn [forallb] in Hls. apply andb_prop in Hls as [Ha Hls].
    cbn [List.map take]. rewrite (strip_render_line a Ha). f_equal. by apply IH. }
  unfold slice. cbn [drop Nat.sub]. by rewrite ?drop_0, Hmap.
Qed.

(** C5. On a well-formed six-line response the parser returns the first
    line's text, marker stripped, as the question and the texts of lines 2
    to 4, in order, as the options; and the five-line text of the
    specification's scenario parses to its question and three options. *)
Theorem poll_result_well_formed :
  (forall l1 l2 l3 l4 l5 l6,
     forallb well_formed_line [l1; l2; l3; l4; l5; l6] = true ->
     poll_result (render [l1; l2; l3; l4; l5; l6])
     = inr (JObj [(lit "success", JBool true);
                  (lit "content", JStr (render [l1; l2; l3; l4; l5; l6]));
                  (lit "question", JStr (text l1));
                  (lit "options", JArr [JStr (text l2); JStr (text l3); JStr (text l4)])]))
  /\ poll_result poll_text
     = inr (JObj [(lit "success", JBool true);
                  (lit "content", JStr poll_text);
                  (lit "question", JStr (lit "Is remote work here to stay?"));
                  (lit "options", JArr [JStr (lit "Yes"); JStr (lit "No"); JStr (lit "Depends")])]).
Proof.
  split.
  - intros l1 l2 l3 l4 l5 l6 Hwf. by rewrite (poll_result_render _ _ Hwf).
  - vm_compute. reflexivity.
Qed.

(** The six lines the poll prompt asks for. *)
Lemma poll_result_well_formed_witness :
  forallb well_formed_line
    [ {| marker := lit "1"; gap := lit " "; text := lit "Tabs or spaces?" |};
      {| marker := lit "2"; gap := lit " "; text := lit "Tabs" |};
      {| marker := lit "3"; gap := lit " "; text := lit "Spaces" |};
      {| marker := lit "4"; gap := lit " "; text := lit "Both" |};
      {| marker := lit "5"; gap := lit " "; text := lit "Neither" |};
      {| marker := lit "6"; gap := lit " "; text := lit "Everyone has an opinion" |} ] = true
  /\ poll_result (lit "1. Tabs or spaces?
2. Tabs
3. Spaces
4. Both
5. Neither
6. Everyone has an opinion")
     = inr (JObj [(lit "success", JBool true);
                  (lit "content", JStr (lit "1. Tabs or spaces?
2. Tabs
3. Spaces
4. Both
5. Neither
6. Everyone has an opinion"));
                  (lit "question", JStr (lit "Tabs or spaces?"));
                  (lit "options", JArr [JStr (lit "Tabs"); JStr (lit "Spaces"); JStr (lit "Both")])]).
Proof.
  split; [reflexivity|].
  exact (proj1 poll_result_well_formed
           {| marker := lit "1"; gap := lit " "; text := lit "Tabs or spaces?" |}
           {| marker := lit "2"; gap := lit " "; text := lit "Tabs" |}
           {| marker := lit "3"; gap := lit " "; text := lit "Spaces" |}
           {| marker := lit "4"; gap := lit " "; text := lit "Both" |}
           {| marker := lit "5"; gap := lit " "; text := lit "Neither" |}
           {| marker := lit "6"; gap := lit " "; text := lit "Everyone has an opinion" |}
           eq_refl).
Defined.

(** C3. The parser raises exactly on the texts that are empty after
    trimming: there [lines[0]] is [undefined] and [.replace] throws a
    [TypeError]; on every other text it returns a result. The poll route
    turns the exception into a 500 response. *)
Theorem poll_result_raises_iff_blank :
  poll_result [] = inl TypeError
  /\ poll_result (lit "
   ") = inl TypeError
  /\ (forall raw, (poll_result raw = inl TypeError <-> trim raw = [])
                  /\ ((exists v, poll_result raw = inr v) <-> trim raw <> []))
  /\ fst (generate_poll poll_body (answering [] [] api_key 0) (fresh None))
     = {| statusCode := 500; body := failure (lit "Internal server error") |}.
Proof.
  split; [reflexivity|]. split; [reflexivity|]. split; [|vm_compute; reflexivity].
  intros raw. split; split.
  - intros H. destruct (trim raw) as [|c t] eqn:E; [done|].
    destruct (poll_result_not_blank raw) as [v Hv]; [by rewrite E|].
    congruence.
  - apply poll_result_blank.
  - intros [v Hv] E. rewrite (poll_result_blank raw E) in Hv. done.
  - apply poll_result_not_blank.
Qed.

(** ** Running the routes *)

Arguments lit : simpl never.
Arguments JSON_stringify : simpl never.
Arguments contentSchema : simpl never.
Arguments generatePrompt : simpl never.
Arguments poll_result : simpl never.
Arguments errorHandler : simpl never.
Arguments interpolate : simpl never.
Arguments poll_prompt : simpl never.
Arguments system_post : simpl never.
Arguments system_poll : simpl never.
Arguments upstream_calls : simpl never.
Arguments plan : simpl never.

Ltac unfold_run :=
  unfold generatePost, generateImage, generate_poll, route, checkCache,
    generatePost_handler, generateImage_handler, generate_poll_handler,
    cache_result, require_api_key, first_content, destructure,
    redis_get, redis_setex, chat_create, image_create,
    contentSchema_parse, bind, ret, throw, try_catch, lift, ask, client, log in *.

(** Symbolic execution: unfold the monad and case on every test. *)
Ltac run := unfold_run; cbn in *; repeat (case_match; simplify_eq; cbn in *).

(** Two sides that case on one term give two equations for it. *)
Ltac merge_cases :=
  repeat (cbn in *; simplify_eq;
          match goal with
          | H1 : ?x = _, H2 : ?x = _ |- _ => rewrite H1 in H2
          end);
  cbn in *; simplify_eq.

Lemma upstream_calls_app t1 t2 :
  upstream_calls (t1 ++ t2) = upstream_calls t1 ++ upstream_calls t2.
Proof. unfold upstream_calls. apply List.filter_app. Qed.

Lemma upstream_calls_check t input :
  upstream_calls (t ++ [SchemaCheck input]) = upstream_calls t.
Proof. rewrite upstream_calls_app. apply app_nil_r. Qed.

Lemma upstream_calls_lookup_events s input :
  upstream_calls (lookup_events s input) = [].
Proof. unfold lookup_events. by destruct (redis s). Qed.

Lemma upstream_calls_checks op input : upstream_calls (checks op input) = [].
Proof. by destruct op. Qed.

Lemma upstream_calls_looked_up s input :
  upstream_calls (trace (looked_up s input)) = upstream_calls (trace s).
Proof.
  unfold looked_up. cbn [add_events trace].
  by rewrite upstream_calls_app, upstream_calls_lookup_events, app_nil_r.
Qed.

Lemma add_events_nil s : add_events s [] = s.
Proof. destruct s as [rd t]. unfold add_events. cbn [redis trace]. by rewrite app_nil_r. Qed.

Lemma add_events_app s evs1 evs2 :
  add_events (add_events s evs1) evs2 = add_events s (evs1 ++ evs2).
Proof. unfold add_events. cbn [redis trace]. by rewrite app_assoc. Qed.

(** What [checkCache] does: a request the cache answers is answered, any
    other goes on to the handler. *)
Lemma checkCache_run input e s :
  checkCache input e s = (inr (ok <$> cache_answer e s input), looked_up s input).
Proof.
  unfold cache_answer, live_entry, looked_up, lookup_events.
  destruct (redis s) as [r|] eqn:Er.
  - unfold add_events. rewrite Er. run; reflexivity.
  - rewrite add_events_nil. run; reflexivity.
Qed.

(** Each handler runs the stages of [proceed]. *)
Lemma handler_run op input e s1 :
  answered (handler op input e s1) = proceed op input e s1.
Proof.
  unfold proceed, answered, store_and_respond, stored, add_events, plan, post_outcome,
    image_outcome, poll_outcome, checks, result_key, prop, key_error.
  destruct s1 as [rd t]. destruct op; unfold handler.
  - run; rewrite ?upstream_calls_check in *; merge_cases;
      rewrite <- ?app_assoc, ?app_nil_r; done.
  - destruct input; run; merge_cases; rewrite <- ?app_assoc, ?app_nil_r; done.
  - destruct input; run; merge_cases; rewrite <- ?app_assoc, ?app_nil_r; done.
Qed.

(** The three routes run the shared orchestration. *)
Lemma generate_orchestrate op input e s :
  generate op input e s = orchestrate op input e s.
Proof.
  assert (generate op input e s = route (handler op) input e s) as -> by by destruct op.
  unfold route, orchestrate. rewrite checkCache_run.
  destruct (cache_answer e s input) as [v|] eqn:Ec; [reflexivity|].
  cbn [fmap option_fmap option_map].
  exact (handler_run op input e (looked_up s input)).
Qed.

Lemma cache_answer_no_client e s input : redis s = None -> cache_answer e s input = None.
Proof. unfold cache_answer. by intros ->. Qed.

(** Every request takes one of the paths of [Run]. *)
Lemma generate_run op input e s : Run op input e s (generate op input e s).
Proof.
  rewrite generate_orchestrate. unfold orchestrate.
  destruct (cache_answer e s input) as [v|] eqn:Ec; [by apply run_hit|].
  unfold proceed. rewrite upstream_calls_looked_up. unfold looked_up.
  rewrite add_events_app.
  destruct (plan op input e) as [err|[call outcome]] eqn:Ep; [by apply run_rejected|].
  rewrite add_events_app, <- app_assoc.
  destruct (outcome _) as [err|result] eqn:Eo; [by eapply run_upstream_failed|].
  unfold store_and_respond. cbn [add_events redis trace].
  destruct (redis s) as [r|] eqn:Er; [|by eapply run_uncached].
  destruct (setex_error r) as [err|] eqn:Es.
  - rewrite add_events_app, <- !app_assoc. by eapply run_write_failed.
  - rewrite <- !app_assoc. by eapply run_stored.
Qed.

(** *** What a handler does before its call *)

Lemma plan_call op input e call outcome :
  plan op input e = inr (call, outcome) ->
  is_upstream call = true /\ is_schema_check call = false
  /\ is_cache_get call = false /\ is_cache_set call = false.
Proof.
  unfold plan. intros H.
  destruct op; repeat (case_match; simplify_eq); done.
Qed.

Lemma plan_failed op input e n call outcome :
  plan op input e = inr (call, outcome) ->
  upstream_failed e n call = true -> exists err, outcome n = inl err.
Proof.
  unfold plan, upstream_failed, post_outcome, image_outcome, poll_outcome. intros H Hf.
  destruct op; repeat (case_match; simplify_eq); merge_cases; eauto;
    match goal with
    | H1 : choices ?c = [], H2 : choices ?c !! _ = Some _ |- _ =>
        rewrite H1 in H2; discriminate H2
    end.
Qed.

Lemma plan_missing_key op input e :
  api_key_missing e = true ->
  exists err, plan op input e = inl err
    /\ match op, contentSchema input with
       | Post, inl iss => err = ZodError iss
       | _, _ =>
           errorHandler err
           = {| statusCode := 500; body := failure (lit "Internal server error") |}
       end.
Proof.
  unfold plan, key_error. intros Hk. rewrite Hk.
  destruct op; repeat (case_match; simplify_eq); eauto.
Qed.

Lemma plan_post input e call outcome :
  plan Post input e = inr (call, outcome) ->
  exists c req, contentSchema input = inr c /\ call = ChatCall req
                /\ generatePrompt (postType c) c = inr (chat_user req).
Proof.
  unfold plan. intros H. repeat (case_match; simplify_eq). eauto.
Qed.

Lemma plan_post_invalid input e iss :
  contentSchema input = inl iss -> plan Post input e = inl (ZodError iss).
Proof. unfold plan. by intros ->. Qed.

(** ** The request validator *)

Lemma conforms_issues {A} f holds (r : Parsed A) :
  conforms f holds r ->
  Forall (fun i => head (path i) = Some f) (issues r) /\ (issues r = [] <-> holds = true).
Proof.
  unfold conforms. destruct holds.
  - intros [a ->]. simpl. split; [constructor|done].
  - intros (iss & -> & Hne & Hall). simpl. split; [exact Hall|]. split; [done|discriminate].
Qed.

Lemma z_enum_conforms f v : conforms f (kind_ok v) (z_enum postTypes [f] v).
Proof.
  unfold conforms, kind_ok, z_enum.
  destruct v as [[| | |s| |]|]; try (eexists; split; [reflexivity|]; split; [done|]; by repeat constructor).
  destruct (existsb (eqb_string s) postTypes); [eauto|].
  eexists; split; [reflexivity|]; split; [done|]; by repeat constructor.
Qed.

Lemma z_string_min1_conforms f v : conforms f (topic_ok v) (z_string_min1 [f] v).
Proof.
  unfold conforms, topic_ok, z_string_min1, z_string.
  destruct v as [[| | |[|c s]| |]|]; simpl; eauto;
    eexists; (split; [reflexivity|]; split; [done|]; by repeat constructor).
Qed.

Lemma z_string_default_conforms d f v :
  conforms f (string_or_absent v) (z_string_default d [f] v).
Proof.
  unfold conforms, string_or_absent, z_string_default, z_string.
  destruct v as [[| | |s| |]|]; simpl; eauto;
    eexists; (split; [reflexivity|]; split; [done|]; by repeat constructor).
Qed.

Lemma z_string_optional_conforms f k v :
  conforms f (string_or_absent v) (z_string_optional [f; k] v).
Proof.
  unfold conforms, string_or_absent, z_string_optional, z_string.
  destruct v as [[| | |s| |]|]; simpl; eauto;
    eexists; (split; [reflexivity|]; split; [done|]; by repeat constructor).
Qed.

Lemma z_record_entries_conforms f k props :
  conforms f (forallb (fun kv => match snd kv with JBool _ => true | _ => false end) props)
    (z_record_entries [f; k] props).
Proof.
  induction props as [|[key v] props IH]; [by exists []|].
  cbn [forallb z_record_entries snd].
  destruct (z_boolean ([f; k] ++ [key]) (Some v)) as [ib|b] eqn:Eb.
  - assert (ib <> [] /\ Forall (fun i => head (path i) = Some f) ib
            /\ match v with JBool _ => false | _ => true end = true) as (Hne & Hall & Hv).
    { unfold z_boolean in Eb. destruct v; simplify_eq; repeat split; try done;
        by repeat constructor. }
    assert (match v with JBool _ => true | _ => false end = false) as -> by by destruct v.
    cbn [andb conforms].
    destruct (forallb _ props); cbn [conforms] in IH.
    + destruct IH as [a ->]. exists ib. cbn [issues]. by rewrite app_nil_r.
    + destruct IH as (iss & -> & _ & Hiss). exists (ib ++ iss). repeat split.
      * by destruct ib.
      * by apply Forall_app.
  - assert (match v with JBool _ => true | _ => false end = true) as ->.
    { unfold z_boolean in Eb. by destruct v. }
    cbn [andb]. destruct (forallb _ props); cbn [conforms] in *.
    + destruct IH as [a ->]. eauto.
    + destruct IH as (iss & -> & Hne & Hiss). exists iss. repeat split; try done.
Qed.

Lemma z_platforms_conforms f k v : conforms f (platforms_ok v) (z_platforms [f; k] v).
Proof.
  unfold platforms_ok, z_platforms.
  destruct v as [[| | | | |props]|]; try (by exists None);
    try (eexists; split; [reflexivity|]; split; [done|]; by repeat constructor).
  pose proof (z_record_entries_conforms f k props) as H.
  destruct (forallb _ props); cbn [conforms] in *.
  - destruct H as [a ->]. eauto.
  - destruct H as (iss & -> & ? & ?). eauto.
Qed.

Ltac use_conforms H :=
  match type of H with
  | conforms _ ?h _ =>
      let E := fresh "E" in
      destruct h eqn:E; cbn [conforms] in H;
      [destruct H as [? H] | destruct H as (? & H & ? & ?)];
      rewrite H
  end.

Ltac listed_issues :=
  cbn [issues app];
  eexists; split; [reflexivity|]; split;
  [ intros Happ; repeat (apply app_eq_nil in Happ as [? Happ]); congruence
  | repeat (apply Forall_app; split); solve [done | constructor] ].

Lemma z_preferences_conforms f v : conforms f (preferences_ok v) (z_preferences [f] v).
Proof.
  unfold preferences_ok, z_preferences.
  destruct v as [[| | | | |props]|]; try (by exists None);
    try (eexists; split; [reflexivity|]; split; [done|]; by repeat constructor).
  cbn [app].
  pose proof (z_platforms_conforms f (lit "platforms") (lookup_prop (lit "platforms") props)) as H1.
  pose proof (z_string_optional_conforms f (lit "tonePreference")
                (lookup_prop (lit "tonePreference") props)) as H2.
  pose proof (z_string_optional_conforms f (lit "contentLength")
                (lookup_prop (lit "contentLength") props)) as H3.
  pose proof (z_string_optional_conforms f (lit "hashtagPreference")
                (lookup_prop (lit "hashtagPreference") props)) as H4.
  use_conforms H1; use_conforms H2; use_conforms H3; use_conforms H4;
    cbn [andb conforms]; solve [eauto | listed_issues].
Qed.

Lemma field_issues_conform props :
  Forall2 (fun fi fc =>
             fst fi = fst fc
             /\ Forall (fun i => head (path i) = Some (fst fc)) (snd fi)
             /\ (snd fi = [] <-> snd fc (lookup_prop (fst fc) props) = true))
    (field_issues props) constraints.
Proof.
  unfold field_issues, constraints.
  repeat (apply List.Forall2_cons;
          [ cbn [fst snd]; split; [reflexivity|];
            first [ apply conforms_issues, z_enum_conforms
                  | apply conforms_issues, z_string_min1_conforms
                  | apply conforms_issues, z_string_default_conforms
                  | apply conforms_issues, z_preferences_conforms ]
          | ]).
  apply List.Forall2_nil.
Qed.

(** The issues of a rejected object are those of its six fields, in the
    order of the schema. *)
Lemma contentSchema_issues props iss :
  contentSchema (JObj props) = inl iss ->
  iss = concat (List.map snd (field_issues props)).
Proof.
  unfold contentSchema, field_issues. cbn [List.map snd concat].
  rewrite app_nil_r.
  destruct (z_enum _ _ _), (z_string_min1 _ _), (z_string_default (lit "general audience") _ _),
    (z_string_default (lit "neutral and engaging") _ _), (z_string_default (lit "none") _ _),
    (z_preferences _ _); intros H; by simplify_eq.
Qed.

Lemma contentSchema_accepts props c :
  contentSchema (JObj props) = inr c ->
  Forall (fun fi => snd fi = []) (field_issues props)
  /\ z_enum postTypes [lit "postType"] (lookup_prop (lit "postType") props) = inr (postType c)
  /\ z_string_min1 [lit "topic"] (lookup_prop (lit "topic") props) = inr (topic c).
Proof.
  unfold contentSchema, field_issues.
  destruct (z_enum _ _ _), (z_string_min1 _ _), (z_string_default (lit "general audience") _ _),
    (z_string_default (lit "neutral and engaging") _ _), (z_string_default (lit "none") _ _),
    (z_preferences _ _); intros H; simplify_eq.
  split; [by repeat constructor|done].
Qed.

Lemma contentSchema_object input c :
  contentSchema input = inr c -> exists props, input = JObj props.
Proof. destruct input; try discriminate. eauto. Qed.

(** The violated fields are exactly the fields with an issue. *)
Lemma violated_field_issues props f :
  In f (violated props)
  <-> exists iss, In (f, iss) (field_issues props) /\ iss <> [].
Proof.
  unfold violated.
  pose proof (field_issues_conform props) as H.
  induction H as [|[f1 i1] [f2 ok] fis fcs (Hf & _ & Hok) _ IH]; cbn [fst snd] in *.
  - simpl. split; [done|]. by intros (? & [] & _).
  - subst f2. cbn [List.filter fst snd].
    destruct (ok (lookup_prop f1 props)) eqn:E; cbn [negb List.map In fst].
    + rewrite IH. split.
      * intros (iss & Hin & Hne). eauto.
      * intros (iss & [[= <- <-]|Hin] & Hne); [|eauto].
        destruct Hne. by apply Hok.
    + rewrite IH. split.
      * intros [<-|(iss & Hin & Hne)]; [|eauto].
        exists i1. split; [by left|]. intros Hnil. apply Hok in Hnil. congruence.
      * intros (iss & [[= <- <-]|Hin] & Hne); [by left|right; eauto].
Qed.

Lemma field_issues_headed props f iss i :
  In (f, iss) (field_issues props) -> In i iss -> head (path i) = Some f.
Proof.
  intros Hin Hi.
  pose proof (field_issues_conform props) as H.
  induction H as [|[f1 i1] [f2 ok] fis fcs (Hf & Hall & _) _ IH]; [done|].
  cbn [fst snd] in *. subst f2.
  destruct Hin as [[= <- <-]|Hin]; [|by apply IH].
  rewrite Forall_forall in Hall. by apply Hall, list_elem_of_In.
Qed.

Lemma listed_iff_violated props iss f :
  contentSchema (JObj props) = inl iss ->
  In f (violated props) <-> exists i, In i iss /\ head (path i) = Some f.
Proof.
  intros ->%contentSchema_issues. rewrite violated_field_issues. split.
  - intros (iss & Hin & Hne). destruct iss as [|i iss]; [done|].
    exists i. split.
    + apply in_concat. exists (i :: iss). split; [|by left].
      apply in_map_iff. by exists (f, i :: iss).
    + apply (field_issues_headed props f (i :: iss)); [done|by left].
  - intros (i & (iss & Hiss & Hi)%in_concat & Hhead).
    apply in_map_iff in Hiss as ([f' iss'] & <- & Hin). cbn [snd] in Hi.
    pose proof (field_issues_headed props f' iss' i Hin Hi) as Hf.
    assert (f' = f) as -> by congruence.
    exists iss'. split; [done|]. by destruct iss'.
Qed.

Lemma eqb_string_true a b : eqb_string a b = true -> a = b.
Proof. unfold eqb_string. apply bool_decide_eq_true_1. Qed.

Lemma kind_ok_inv v : kind_ok v = true -> exists s, v = Some (JStr s) /\ In s postTypes.
Proof.
  unfold kind_ok. destruct v as [[| | |s| |]|]; try discriminate.
  intros (x & Hx & ->%eqb_string_true)%existsb_exists. eauto.
Qed.

Lemma topic_ok_inv v : topic_ok v = true -> exists c s, v = Some (JStr (c :: s)).
Proof. unfold topic_ok. destruct v as [[| | |[|c s]| |]|]; try discriminate. eauto. Qed.

(** Whatever fails the kind or the topic constraint is rejected. *)
Lemma contentSchema_rejects props :
  kind_ok (lookup_prop (lit "postType") props) && topic_ok (lookup_prop (lit "topic") props) = false ->
  exists iss, contentSchema (JObj props) = inl iss /\ iss <> [].
Proof.
  intros H.
  pose proof (z_enum_conforms (lit "postType") (lookup_prop (lit "postType") props)) as H1.
  pose proof (z_string_min1_conforms (lit "topic") (lookup_prop (lit "topic") props)) as H2.
  unfold contentSchema.
  use_conforms H1; use_conforms H2; try discriminate;
    destruct (z_string_default (lit "general audience") _ _),
      (z_string_default (lit "neutral and engaging") _ _),
      (z_string_default (lit "none") _ _), (z_preferences _ _);
    eexists; (split; [reflexivity|]); cbn [issues app];
    intros Happ; repeat (apply app_eq_nil in Happ as [? Happ]); congruence.
Qed.

(** C4, as amended. The validator accepts an input only if it is an object
    whose [postType] is one of the three kinds and whose [topic] is a string
    of at least one code unit (no trimming is applied); an input that
    violates either condition is rejected with at least one issue. *)
Theorem contentSchema_kind_and_topic input :
  (forall c, contentSchema input = inr c ->
     exists props, input = JObj props
       /\ lookup_prop (lit "postType") props = Some (JStr (postType c))
       /\ In (postType c) postTypes
       /\ lookup_prop (lit "topic") props = Some (JStr (topic c))
       /\ (1 <= length (topic c))%nat)
  /\ (match input with
      | JObj props =>
          kind_ok (lookup_prop (lit "postType") props)
          && topic_ok (lookup_prop (lit "topic") props)
      | _ => false
      end = false ->
      exists iss, contentSchema input = inl iss /\ iss <> []).
Proof.
  split.
  - intros c Hc. destruct (contentSchema_object input c Hc) as [props ->].
    exists props. split; [done|].
    destruct (contentSchema_accepts props c Hc) as (_ & Hk & Ht).
    pose proof (z_enum_conforms (lit "postType") (lookup_prop (lit "postType") props)) as H1.
    pose proof (z_string_min1_conforms (lit "topic") (lookup_prop (lit "topic") props)) as H2.
    rewrite Hk in H1. rewrite Ht in H2.
    destruct (kind_ok _) eqn:E1; cbn [conforms] in H1; [|by destruct H1 as (? & ? & _)].
    destruct (topic_ok _) eqn:E2; cbn [conforms] in H2; [|by destruct H2 as (? & ? & _)].
    apply kind_ok_inv in E1 as (k & Ek & Hin).
    apply topic_ok_inv in E2 as (ch & t & Et).
    rewrite Ek, Et in *. unfold z_enum in Hk. cbn [z_string_min1 z_string] in Ht.
    destruct (existsb (eqb_string k) postTypes); simplify_eq.
    cbn [length Nat.ltb Nat.leb] in Ht. simplify_eq.
    rewrite <- Ht. repeat split; try done. cbn [length]. lia.
  - destruct input; try (intros _; eexists; split; [reflexivity|done]).
    apply contentSchema_rejects.
Qed.

(** Both directions of C4 at concrete bodies: an accepted request and a
    rejected one (no topic). *)
Lemma contentSchema_kind_and_topic_witness :
  (exists props, post_body = JObj props
     /\ lookup_prop (lit "postType") props = Some (JStr (lit "post"))
     /\ In (lit "post") postTypes
     /\ lookup_prop (lit "topic") props = Some (JStr (lit "remote work"))
     /\ (1 <= length (lit "remote work"))%nat)
  /\ (exists iss, contentSchema poll_body = inl iss /\ iss <> []).
Proof.
  split.
  - exact (proj1 (contentSchema_kind_and_topic post_body) _ eq_refl).
  - exact (proj2 (contentSchema_kind_and_topic poll_body) eq_refl).
Defined.

(** C4 as the specification words it fails: a topic of one space is empty
    after trimming and is accepted. *)
Lemma contentSchema_accepts_blank_topic :
  topic_ok_trimmed (Some (JStr (lit " "))) = false
  /\ contentSchema blank_topic_body
     = inr {| postType := lit "post"; topic := lit " ";
              audience := lit "general audience"; style := lit "neutral and engaging";
              guidelines := lit "none"; preferences := None |}.
Proof. split; reflexivity. Qed.

(** ** The order of events in a run *)

Lemma precedes_from_sound a b t seen :
  precedes_from seen a b t = true ->
  forall pre ev post, t = pre ++ ev :: post -> b ev = true -> seen || existsb a pre = true.
Proof.
  revert seen. induction t as [|x t IH]; intros seen H pre ev post Ht Hb.
  - by destruct pre.
  - cbn [precedes_from] in H. apply andb_prop in H as [Hx Hrest].
    destruct pre as [|p pre]; simplify_eq/=.
    + rewrite Hb in Hx. simpl in Hx. by rewrite Hx.
    + specialize (IH _ Hrest pre ev post eq_refl Hb).
      by rewrite orb_assoc.
Qed.

Lemma precedes_check a b t : precedes_from false a b t = true -> precedes a b t.
Proof. intros H pre ev post Ht Hb. exact (precedes_from_sound a b t false H pre ev post Ht Hb). Qed.

Lemma emitted_app s r evs : emitted s {| redis := r; trace := trace s ++ evs |} = evs.
Proof. unfold emitted. cbn [trace]. by rewrite drop_app_length. Qed.

Lemma emitted_add s evs : emitted s (add_events s evs) = evs.
Proof. apply emitted_app. Qed.

Lemma upstream_failed_is_upstream e n ev :
  upstream_failed e n ev = true -> is_upstream ev = true.
Proof. by destruct ev. Qed.

Lemma in_upstream_calls ev t :
  In ev t -> is_upstream ev = true -> In ev (upstream_calls t).
Proof. intros Hin Hu. unfold upstream_calls. apply filter_In. by split. Qed.

(** Before the call a run makes no upstream call. *)
Lemma upstream_calls_before s op input rest :
  upstream_calls (lookup_events s input ++ checks op input ++ rest) = upstream_calls rest.
Proof.
  by rewrite !upstream_calls_app, upstream_calls_lookup_events, upstream_calls_checks.
Qed.

Lemma upstream_calls_before_only s op input :
  upstream_calls (lookup_events s input ++ checks op input) = [].
Proof.
  by rewrite upstream_calls_app, upstream_calls_lookup_events, upstream_calls_checks.
Qed.

Lemma upstream_calls_call op input e call outcome rest :
  plan op input e = inr (call, outcome) ->
  upstream_calls (call :: rest) = call :: upstream_calls rest.
Proof.
  intros (Hu & _)%plan_call. unfold upstream_calls. cbn [List.filter]. by rewrite Hu.
Qed.

(** The paths of [Run], with the cache's answer known on each. *)
Ltac paths op input e s :=
  destruct (generate_run op input e s)
    as [v0 Hc|err0 Hc Hp|call0 outcome0 err0 Hc Hp Ho|call0 outcome0 result0 Hr Hp Ho
       |call0 outcome0 result0 r0 err0 Hc Hp Ho Hr Hs|call0 outcome0 result0 r0 Hc Hp Ho Hr Hs];
  [ | | | pose proof (cache_answer_no_client e s input Hr) as Hc | | ];
  cbn [fst snd] in *;
  rewrite ?emitted_add, ?emitted_app in *.

(** Hypotheses and path that speak of one term must agree on it. *)
Ltac agree :=
  repeat match goal with
         | H1 : ?x = _, H2 : ?x = _ |- _ => rewrite H1 in H2; simplify_eq
         end.

(** The call of the content route is a chat call. *)
Ltac post_call :=
  try match goal with
      | H : plan Post _ _ = inr _ |- _ => apply plan_post in H as (? & ? & _ & -> & _)
      end;
  cbn [checks app].

(** C2, as amended. In every run of the content route the schema check
    comes before any upstream call; when a cache client is configured the
    cache lookup comes first, before the schema check, and a request the
    cache answers is returned without any schema check; without a client
    there is no lookup. *)
Theorem schema_check_order e s input :
  precedes is_schema_check is_upstream (emitted s (snd (generatePost input e s)))
  /\ match redis s with
     | Some _ => precedes is_cache_get is_schema_check (emitted s (snd (generatePost input e s)))
     | None => existsb is_cache_get (emitted s (snd (generatePost input e s))) = false
     end
  /\ match cache_answer e s input with
     | Some v =>
         emitted s (snd (generatePost input e s)) = [CacheGet (checkCache_key input)]
         /\ fst (generatePost input e s) = ok v
     | None => existsb is_schema_check (emitted s (snd (generatePost input e s))) = true
     end.
Proof.
  change (generatePost input e s) with (generate Post input e s).
  paths Post input e s; rewrite Hc; post_call;
    unfold lookup_events, cache_answer in *;
    destruct (redis s); simplify_eq;
    (split; [by apply precedes_check|]);
    (split; [first [by apply precedes_check | done]|done]).
Qed.

(** C2 as the specification words it fails: with a cache client the lookup
    is the first event of the run, before the schema check; and a body the
    schema rejects is answered from the cache when an entry is stored under
    its key. *)
Lemma cache_lookup_before_schema_check :
  (exists prompt result,
     emitted (fresh (Some (working_redis ∅)))
       (snd (generatePost post_body (answering poll_text [] api_key 0)
               (fresh (Some (working_redis ∅)))))
     = [CacheGet (checkCache_key post_body); SchemaCheck post_body;
        ChatCall (post_request prompt); CacheSet (post_key post_body) 3600 result])
  /\ ~ precedes is_schema_check is_cache_get
       (emitted (fresh (Some (working_redis ∅)))
          (snd (generatePost post_body (answering poll_text [] api_key 0)
                  (fresh (Some (working_redis ∅))))))
  /\ (exists iss, contentSchema (JObj []) = inl iss)
  /\ generatePost (JObj []) (answering poll_text [] api_key 0)
       (fresh (Some (working_redis {[ checkCache_key (JObj []) := (stored_result, 3600%Z) ]})))
     = (ok stored_result,
        {| redis := Some (working_redis {[ checkCache_key (JObj []) := (stored_result, 3600%Z) ]});
           trace := [CacheGet (checkCache_key (JObj []))] |}).
Proof.
  split; [|split; [|split]].
  - do 2 eexists. vm_compute. reflexivity.
  - intros H.
    specialize (H [] (CacheGet (checkCache_key post_body))
                  (tail (emitted (fresh (Some (working_redis ∅)))
                           (snd (generatePost post_body (answering poll_text [] api_key 0)
                                   (fresh (Some (working_redis ∅))))))) eq_refl eq_refl).
    discriminate H.
  - eexists. reflexivity.
  - vm_compute. reflexivity.
Qed.

(** ** Validation failures *)

Lemma missing_topic_listed props iss :
  contentSchema (JObj props) = inl iss ->
  lookup_prop (lit "topic") props = None ->
  In {| code := invalid_type; params := type_params (lit "string") (lit "undefined");
        path := [lit "topic"]; message := lit "Required" |} iss.
Proof.
  intros ->%contentSchema_issues Ht. unfold field_issues. rewrite Ht.
  cbn [List.map snd concat]. apply in_or_app. right. by left.
Qed.

(** *** One issue for each violated constraint, under its full path *)

Lemma z_enum_paths p v :
  List.map path (issues (z_enum postTypes p v)) = if kind_ok v then [] else [p].
Proof.
  unfold z_enum, kind_ok. destruct v as [[| | |s| |]|]; try reflexivity.
  by destruct (existsb (eqb_string s) postTypes).
Qed.

Lemma z_string_min1_paths p v :
  List.map path (issues (z_string_min1 p v)) = if topic_ok v then [] else [p].
Proof. unfold z_string_min1, z_string, topic_ok. by destruct v as [[| | |[|c s]| |]|]. Qed.

Lemma z_string_default_paths d p v :
  List.map path (issues (z_string_default d p v)) = text_violation p v.
Proof. unfold z_string_default, z_string, text_violation. by destruct v as [[]|]. Qed.

Lemma z_string_optional_paths p v :
  List.map path (issues (z_string_optional p v)) = text_violation p v.
Proof. unfold z_string_optional, z_string, text_violation. by destruct v as [[]|]. Qed.

Lemma z_record_entries_paths p flags :
  List.map path (issues (z_record_entries p flags))
  = List.map (fun kv => p ++ [fst kv])
      (List.filter (fun kv => match snd kv with JBool _ => false | _ => true end) flags).
Proof.
  induction flags as [|[k v] flags IH]; [reflexivity|].
  cbn [z_record_entries List.filter snd fst].
  destruct (z_record_entries p flags) as [rest|bs]; cbn [issues] in IH;
    destruct v; cbn [z_boolean issues List.map app path invalid_type_issue fst];
    by rewrite <- ?IH.
Qed.

Lemma z_platforms_paths v :
  List.map path (issues (z_platforms [lit "preferences"; lit "platforms"] v))
  = platforms_violations v.
Proof.
  unfold z_platforms, platforms_violations. destruct v as [[| | | | |flags]|]; try reflexivity.
  pose proof (z_record_entries_paths [lit "preferences"; lit "platforms"] flags) as H.
  by destruct (z_record_entries _ flags).
Qed.

Lemma z_preferences_paths v :
  List.map path (issues (z_preferences [lit "preferences"] v)) = preferences_violations v.
Proof.
  unfold z_preferences, preferences_violations.
  destruct v as [[| | | | |props]|]; try reflexivity.
  cbn [app].
  rewrite <- z_platforms_paths, <- !z_string_optional_paths, <- !List.map_app.
  destruct (z_platforms _ _), (z_string_optional [_; lit "tonePreference"] _),
    (z_string_optional [_; lit "contentLength"] _),
    (z_string_optional [_; lit "hashtagPreference"] _); reflexivity.
Qed.

Lemma contentSchema_paths props iss :
  contentSchema (JObj props) = inl iss -> List.map path iss = violated_paths props.
Proof.
  intros ->%contentSchema_issues. unfold field_issues, violated_paths.
  cbn [List.map snd concat]. rewrite app_nil_r, !List.map_app.
  by rewrite z_enum_paths, z_string_min1_paths, !z_string_default_paths, z_preferences_paths.
Qed.

(** *** Every issue carries the code of its check *)

Lemma z_record_entries_raised p flags :
  forallb raised_by_check (issues (z_record_entries p flags)) = true.
Proof.
  induction flags as [|[k v] flags IH]; [reflexivity|].
  cbn [z_record_entries].
  destruct (z_record_entries p flags) as [rest|bs]; cbn [issues] in IH;
    destruct v; cbn [z_boolean issues app forallb]; rewrite ?IH; reflexivity.
Qed.

Lemma z_string_raised p v : forallb raised_by_check (issues (z_string p v)) = true.
Proof. unfold z_string. by destruct v as [[]|]. Qed.

Lemma z_enum_raised p v : forallb raised_by_check (issues (z_enum postTypes p v)) = true.
Proof.
  unfold z_enum. destruct v as [[| | |k| |]|]; try reflexivity.
  by destruct (existsb (eqb_string k) postTypes).
Qed.

Lemma z_string_min1_raised p v : forallb raised_by_check (issues (z_string_min1 p v)) = true.
Proof. unfold z_string_min1, z_string. by destruct v as [[| | |[|c t]| |]|]. Qed.

Lemma z_string_default_raised d p v :
  forallb raised_by_check (issues (z_string_default d p v)) = true.
Proof. unfold z_string_default, z_string. by destruct v as [[]|]. Qed.

Lemma z_string_optional_raised p v :
  forallb raised_by_check (issues (z_string_optional p v)) = true.
Proof. unfold z_string_optional, z_string. by destruct v as [[]|]. Qed.

Lemma z_platforms_raised p v : forallb raised_by_check (issues (z_platforms p v)) = true.
Proof.
  unfold z_platforms. destruct v as [[| | | | |flags]|]; try reflexivity.
  pose proof (z_record_entries_raised p flags) as H.
  by destruct (z_record_entries p flags).
Qed.

Lemma z_preferences_raised p v :
  forallb raised_by_check (issues (z_preferences p v)) = true.
Proof.
  unfold z_preferences. destruct v as [[| | | | |props]|]; try reflexivity.
  pose proof (z_platforms_raised (p ++ [lit "platforms"]) (lookup_prop (lit "platforms") props)).
  pose proof (z_string_optional_raised (p ++ [lit "tonePreference"])
                (lookup_prop (lit "tonePreference") props)).
  pose proof (z_string_optional_raised (p ++ [lit "contentLength"])
                (lookup_prop (lit "contentLength") props)).
  pose proof (z_string_optional_raised (p ++ [lit "hashtagPreference"])
                (lookup_prop (lit "hashtagPreference") props)).
  destruct (z_platforms _ _), (z_string_optional (p ++ [lit "tonePreference"]) _),
    (z_string_optional (p ++ [lit "contentLength"]) _),
    (z_string_optional (p ++ [lit "hashtagPreference"]) _);
    cbn [issues] in *; rewrite ?forallb_app, ?app_nil_r; by repeat (apply andb_true_intro; split).
Qed.

Lemma contentSchema_raised input iss :
  contentSchema input = inl iss -> forallb raised_by_check iss = true.
Proof.
  destruct input as [|b|t|x|items|props]; try (by intros [= <-]).
  intros ->%contentSchema_issues. unfold field_issues.
  cbn [List.map snd concat]. rewrite app_nil_r, !forallb_app.
  by rewrite z_enum_raised, z_string_min1_raised, !z_string_default_raised,
    z_preferences_raised.
Qed.

Lemma contentSchema_not_object input iss :
  contentSchema input = inl iss -> (forall props, input <> JObj props) ->
  iss = [ {| code := invalid_type;
             params := type_params (lit "object") (parsedType (Some input));
             path := [];
             message := lit "Expected object, received " ++ parsedType (Some input) |} ].
Proof.
  intros H Hno. destruct input as [|b|t|x|items|props];
    try (unfold contentSchema in H; by injection H as <-).
  by destruct (Hno props).
Qed.

(** C7, as amended. An input the schema rejects is answered by the handler
    of the content route with status 400, [success: false], the error
    [Invalid input] and, as details, all the issues of the schema, each
    sent whole as Zod built it: its code, its path, its message and the
    parameters of its kind, in the order spelled out here. This is the
    response of the route on every request the cache does not answer. For
    an object there is exactly one issue for each violated constraint,
    under the full path of its field, nested fields of [preferences]
    included, and none for any other field; a missing topic is among them
    whatever the other fields hold. An input that is not an object (an
    array, say) is rejected with a single issue under the empty path,
    which names no field. *)
Theorem invalid_input_response e s input iss :
  contentSchema input = inl iss ->
  fst (answered (generatePost_handler input e s))
  = {| statusCode := 400;
       body := JObj [(lit "success", JBool false);
                     (lit "error", JStr (lit "Invalid input"));
                     (lit "details", JArr (List.map issue_json iss))] |}
  /\ (cache_answer e s input = None ->
      fst (generatePost input e s) = fst (answered (generatePost_handler input e s)))
  /\ (forall i, In i iss ->
        issue_json i
        = JObj match params i with
               | type_params expected received =>
                   [(lit "code", JStr (lit "invalid_type"));
                    (lit "expected", JStr expected); (lit "received", JStr received);
                    (lit "path", JArr (List.map JStr (path i)));
                    (lit "message", JStr (message i))]
               | enum_type_params expected received =>
                   [(lit "expected", JStr expected); (lit "received", JStr received);
                    (lit "code", JStr (lit "invalid_type"));
                    (lit "path", JArr (List.map JStr (path i)));
                    (lit "message", JStr (message i))]
               | enum_value_params received options =>
                   [(lit "received", JStr received);
                    (lit "code", JStr (lit "invalid_enum_value"));
                    (lit "options", JArr (List.map JStr options));
                    (lit "path", JArr (List.map JStr (path i)));
                    (lit "message", JStr (message i))]
               | size_params minimum type inclusive exact =>
                   [(lit "code", JStr (lit "too_small"));
                    (lit "minimum", JNum minimum); (lit "type", JStr type);
                    (lit "inclusive", JBool inclusive); (lit "exact", JBool exact);
                    (lit "message", JStr (message i));
                    (lit "path", JArr (List.map JStr (path i)))]
               end)
  /\ (forall props, input = JObj props ->
        List.map path iss = violated_paths props
        /\ (forall f, In f (violated props) <-> exists i, In i iss /\ head (path i) = Some f)
        /\ (lookup_prop (lit "topic") props = None ->
            In {| code := invalid_type;
                  params := type_params (lit "string") (lit "undefined");
                  path := [lit "topic"];
                  message := lit "Required" |} iss))
  /\ ((forall props, input <> JObj props) ->
      iss = [ {| code := invalid_type;
                 params := type_params (lit "object") (parsedType (Some input));
                 path := [];
                 message := lit "Expected object, received " ++ parsedType (Some input) |} ]).
Proof.
  intros Hv.
  pose proof (plan_post_invalid input e iss Hv) as Hplan.
  assert (forall s1, fst (answered (generatePost_handler input e s1))
                     = errorHandler (ZodError iss)) as Hhandler.
  { intros s1. change generatePost_handler with (handler Post).
    rewrite handler_run. unfold proceed. by rewrite Hplan. }
  split; [apply Hhandler|]. split; [|split; [|split]].
  - intros Hmiss. rewrite Hhandler.
    change (generatePost input e s) with (generate Post input e s).
    paths Post input e s; congruence.
  - intros i Hi.
    pose proof (contentSchema_raised input iss Hv) as Hraised.
    rewrite forallb_forall in Hraised. specialize (Hraised i Hi).
    unfold raised_by_check in Hraised. unfold issue_json.
    by destruct (params i), (code i).
  - intros props ->. split; [by apply contentSchema_paths|]. split.
    + intros f. by apply listed_iff_violated.
    + by apply missing_topic_listed.
  - by apply contentSchema_not_object.
Qed.

(** A request that violates a constraint of each kind: the four issues,
    the nested one under its full path, as they are sent. *)
Lemma invalid_input_response_witness :
  fst (generatePost invalid_body (answering poll_text [] api_key 0)
         (fresh (Some (working_redis ∅))))
  = {| statusCode := 400;
       body :=
         JObj [(lit "success", JBool false);
               (lit "error", JStr (lit "Invalid input"));
               (lit "details",
                JArr [JObj [(lit "received", JStr (lit "blog"));
                            (lit "code", JStr (lit "invalid_enum_value"));
                            (lit "options",
                             JArr [JStr (lit "post"); JStr (lit "thread"); JStr (lit "poll")]);
                            (lit "path", JArr [JStr (lit "postType")]);
                            (lit "message",
                             JStr (lit "Invalid enum value. Expected 'post' | 'thread' | 'poll', received 'blog'"))];
                      JObj [(lit "code", JStr (lit "too_small"));
                            (lit "minimum", JNum (lit "1"));
                            (lit "type", JStr (lit "string"));
                            (lit "inclusive", JBool true);
                            (lit "exact", JBool false);
                            (lit "message", JStr (lit "Topic is required"));
                            (lit "path", JArr [JStr (lit "topic")])];
                      JObj [(lit "code", JStr (lit "invalid_type"));
                            (lit "expected", JStr (lit "string"));
                            (lit "received", JStr (lit "number"));
                            (lit "path", JArr [JStr (lit "audience")]);
                            (lit "message", JStr (lit "Expected string, received number"))];
                      JObj [(lit "code", JStr (lit "invalid_type"));
                            (lit "expected", JStr (lit "boolean"));
                            (lit "received", JStr (lit "string"));
                            (lit "path",
                             JArr [JStr (lit "preferences"); JStr (lit "platforms");
                                   JStr (lit "twitter")]);
                            (lit "message", JStr (lit "Expected boolean, received string"))]])] |}
  /\ violated_paths
       [(lit "postType", JStr (lit "blog")); (lit "topic", JStr []);
        (lit "audience", JNum (lit "7"));
        (lit "preferences",
         JObj [(lit "platforms", JObj [(lit "twitter", JStr (lit "yes"))])])]
     = [[lit "postType"]; [lit "topic"]; [lit "audience"];
        [lit "preferences"; lit "platforms"; lit "twitter"]].
Proof.
  split; [|reflexivity].
  destruct (invalid_input_response (answering poll_text [] api_key 0)
              (fresh (Some (working_redis ∅))) invalid_body _ eq_refl) as (Hh & Hr & _).
  rewrite (Hr eq_refl). exact Hh.
Defined.

(** The claim as it was stated fails twice. A request whose body is an
    empty array has no topic, and the response does not list it: the one
    issue it carries has an empty path. And a request the schema rejects
    is answered with a success when the cache holds a document under its
    key, since the lookup comes first. *)
Lemma invalid_input_as_stated_fails :
  (prop (JArr []) (lit "topic") = None
   /\ fst (generatePost (JArr []) (answering poll_text [] api_key 0) (fresh None))
      = {| statusCode := 400;
           body :=
             JObj [(lit "success", JBool false);
                   (lit "error", JStr (lit "Invalid input"));
                   (lit "details",
                    JArr [JObj [(lit "code", JStr (lit "invalid_type"));
                                (lit "expected", JStr (lit "object"));
                                (lit "received", JStr (lit "array"));
                                (lit "path", JArr []);
                                (lit "message",
                                 JStr (lit "Expected object, received array"))]])] |})
  /\ ((exists iss, contentSchema (JObj []) = inl iss)
      /\ fst (generatePost (JObj []) (answering poll_text [] api_key 0)
                (fresh (Some (working_redis
                                {[ checkCache_key (JObj []) := (stored_result, 3600%Z) ]}))))
         = ok stored_result).
Proof.
  split; split; try (vm_compute; reflexivity).
  eexists. reflexivity.
Qed.

(** ** A missing credential *)

(** C8, as amended. While the API key is absent no route calls the
    upstream or writes the cache, and every request is still answered: from
    the cache when it holds the request, with the validation error when the
    content schema rejects the input, and otherwise with status 500 and the
    generic error [Internal server error]; the message of the configuration
    error itself is not sent. *)
Theorem missing_api_key op e s input :
  api_key_missing e = true ->
  upstream_calls (trace (snd (generate op input e s))) = upstream_calls (trace s)
  /\ redis (snd (generate op input e s)) = redis s
  /\ match cache_answer e s input with
     | Some v => fst (generate op input e s) = ok v
     | None =>
         match op, contentSchema input with
         | Post, inl iss => fst (generate op input e s) = errorHandler (ZodError iss)
         | _, _ =>
             fst (generate op input e s)
             = {| statusCode := 500; body := failure (lit "Internal server error") |}
         end
     end.
Proof.
  intros Hk. destruct (plan_missing_key op input e Hk) as (err & Hplan & Herr).
  paths op input e s; try congruence; rewrite Hc; cbn [add_events redis trace].
  - by rewrite upstream_calls_app, upstream_calls_lookup_events, app_nil_r.
  - rewrite upstream_calls_app, upstream_calls_before_only, app_nil_r.
    assert (err0 = err) as -> by congruence.
    repeat split. destruct op; try done. destruct (contentSchema input); [by subst|done].
Qed.

Lemma missing_api_key_witness :
  api_key_missing (answering poll_text [] None 0) = true
  /\ fst (generatePost post_body (answering poll_text [] None 0) (fresh None))
     = {| statusCode := 500; body := failure (lit "Internal server error") |}.
Proof.
  split; [reflexivity|].
  exact (proj2 (proj2 (missing_api_key Post (answering poll_text [] None 0) (fresh None)
                         post_body eq_refl))).
Defined.

(** C8 as the specification words it fails: the caller does not get the
    configuration error's message but the generic one, and a request the
    cache holds succeeds although the key is absent. *)
Lemma missing_api_key_not_verbatim :
  api_key_missing (answering poll_text [] None 0) = true
  /\ body (fst (generatePost post_body (answering poll_text [] None 0) (fresh None)))
     = failure (lit "Internal server error")
  /\ lit "Internal server error" <> lit "OpenAI API key is not configured"
  /\ fst (generatePost post_body (answering poll_text [] None 0)
            (fresh (Some (working_redis {[ checkCache_key post_body := (stored_result, 3600%Z) ]}))))
     = ok stored_result
  /\ success (ok stored_result) = Some (JBool true).
Proof. repeat split; try (vm_compute; reflexivity). discriminate. Qed.

(** ** The prompt builder *)

Lemma generatePrompt_total type c :
  In type postTypes -> exists p, generatePrompt type c = inr p.
Proof.
  unfold postTypes. cbn [In].
  intros [<-|[<-|[<-|[]]]]; eexists; reflexivity.
Qed.

Example template_post_remote_work :
  generatePrompt (lit "post")
    {| postType := lit "post"; topic := lit "remote work";
       audience := lit "general audience"; style := lit "neutral and engaging";
       guidelines := lit "none"; preferences := None |}
  = inr (lit "
    Generate a social media post.
    Topic: remote work
    Target Audience: general audience
    Style: neutral and engaging
    Guidelines: none
    
  ").
Proof. reflexivity. Qed.

Example template_thread_preferences :
  generatePrompt (lit "thread")
    {| postType := lit "thread"; topic := lit "remote work";
       audience := lit "founders"; style := lit "dry";
       guidelines := lit "none";
       preferences := Some {| platforms := None; tonePreference := Some (lit "formal");
                              contentLength := None; hashtagPreference := None |} |}
  = inr (lit "
    Generate a multi-post thread for a Twitter-like platform.
    Topic: remote work
    Target Audience: founders
    Style: dry
    Guidelines: none
    Tone Preference: formal
    Content Length: undefined
    Hashtag Preference: undefined
  ").
Proof. reflexivity. Qed.

Example generatePrompt_unknown_type :
  generatePrompt (lit "newsletter")
    {| postType := lit "newsletter"; topic := lit "remote work";
       audience := lit "general audience"; style := lit "neutral and engaging";
       guidelines := lit "none"; preferences := None |}
  = inl (Error None (lit "Invalid content type: newsletter")).
Proof. reflexivity. Qed.

(** The only upstream event of a run is its call. *)
Lemma upstream_event_is_call ev s op input e call outcome rest :
  plan op input e = inr (call, outcome) ->
  upstream_calls rest = [] ->
  In ev (lookup_events s input ++ checks op input ++ call :: rest) ->
  is_upstream ev = true -> ev = call.
Proof.
  intros Hp Hrest Hin Hu. apply in_upstream_calls in Hin; [|exact Hu].
  rewrite upstream_calls_before, (upstream_calls_call _ _ _ _ _ _ Hp), Hrest in Hin.
  by destruct Hin.
Qed.

Lemma no_upstream_event_before ev s op input :
  In ev (lookup_events s input ++ checks op input) -> is_upstream ev = true -> False.
Proof.
  intros Hin Hu. apply in_upstream_calls in Hin; [|exact Hu].
  by rewrite upstream_calls_before_only in Hin.
Qed.

(** The upstream event of a run, if there is one, is the call of [plan]. *)
Lemma upstream_event_planned ev op input e s :
  In ev (emitted s (snd (generate op input e s))) -> is_upstream ev = true ->
  exists outcome, plan op input e = inr (ev, outcome).
Proof.
  intros Hin Hu. paths op input e s.
  - rewrite <- (app_nil_r (lookup_events s input)) in Hin.
    destruct (no_upstream_event_before ev s Image input Hin Hu).
  - destruct (no_upstream_event_before ev s op input Hin Hu).
  - rewrite (upstream_event_is_call ev s op input e _ _ [] Hp eq_refl Hin Hu). eauto.
  - rewrite (upstream_event_is_call ev s op input e _ _ [] Hp eq_refl Hin Hu). eauto.
  - rewrite (upstream_event_is_call ev s op input e _ _ [CacheSet _ _ _] Hp eq_refl Hin Hu).
    eauto.
  - rewrite (upstream_event_is_call ev s op input e _ _ [CacheSet _ _ _] Hp eq_refl Hin Hu).
    eauto.
Qed.

(** The prompt a run of the content route sends upstream is the one the
    templates give for the validated input. *)
Lemma generatePost_prompt e s input req :
  In (ChatCall req) (emitted s (snd (generatePost input e s))) ->
  exists c, contentSchema input = inr c /\ generatePrompt (postType c) c = inr (chat_user req).
Proof.
  intros Hin.
  destruct (upstream_event_planned (ChatCall req) Post input e s Hin eq_refl) as [outcome Hp].
  apply plan_post in Hp as (c & req' & Hc & [= ->] & Hprompt). eauto.
Qed.

(** C9. The prompt builder is a function of the kind and the normalized
    fields alone: on each of the three kinds it returns a prompt, the same
    for equal fields; and the prompt the content route sends upstream is
    that prompt in every environment and state (clock, configuration,
    cache, upstream answers), so two runs on one input send equal prompts. *)
Theorem generatePrompt_pure :
  (forall type c1 c2,
     In type postTypes -> c1 = c2 ->
     exists p, generatePrompt type c1 = inr p /\ generatePrompt type c2 = inr p)
  /\ (forall input e1 s1 e2 s2 req1 req2,
        In (ChatCall req1) (emitted s1 (snd (generatePost input e1 s1))) ->
        In (ChatCall req2) (emitted s2 (snd (generatePost input e2 s2))) ->
        chat_user req1 = chat_user req2
        /\ exists c, contentSchema input = inr c
                     /\ generatePrompt (postType c) c = inr (chat_user req1)).
Proof.
  split.
  - intros type c1 c2 Hin <-. destruct (generatePrompt_total type c1 Hin) as [p Hp]. eauto.
  - intros input e1 s1 e2 s2 req1 req2 H1 H2.
    destruct (generatePost_prompt e1 s1 input req1 H1) as (c1 & Hc1 & Hp1).
    destruct (generatePost_prompt e2 s2 input req2 H2) as (c2 & Hc2 & Hp2).
    assert (c2 = c1) as -> by congruence.
    split; [congruence|eauto].
Qed.

(** The same request at two times, with two configurations, with and
    without a cache, against two upstreams: one prompt. *)
Lemma generatePrompt_pure_witness :
  (exists p, generatePrompt (lit "thread")
               {| postType := lit "thread"; topic := lit "remote work";
                  audience := lit "general audience"; style := lit "neutral and engaging";
                  guidelines := lit "none"; preferences := None |} = inr p
             /\ generatePrompt (lit "thread")
                  {| postType := lit "thread"; topic := lit "remote work";
                     audience := lit "general audience"; style := lit "neutral and engaging";
                     guidelines := lit "none"; preferences := None |} = inr p)
  /\ chat_user (post_request (template_post
                  {| postType := lit "post"; topic := lit "remote work";
                     audience := lit "general audience"; style := lit "neutral and engaging";
                     guidelines := lit "none"; preferences := None |}))
     = chat_user {| chat_model := lit "gpt-4o-mini";
                    chat_system := system_post;
                    chat_user := template_post
                      {| postType := lit "post"; topic := lit "remote work";
                         audience := lit "general audience"; style := lit "neutral and engaging";
                         guidelines := lit "none"; preferences := None |};
                    chat_sampling := Some (lit "0.2", lit "500") |}.
Proof.
  split.
  - exact (proj1 generatePrompt_pure (lit "thread") _ _ (or_intror (or_introl eq_refl)) eq_refl).
  - exact (proj1 (proj2 generatePrompt_pure post_body
                    (answering poll_text [] api_key 0) (fresh (Some (working_redis ∅)))
                    {| OPENAI_API_KEY := api_key;
                       OPENAI_TEMPERATURE := Some (lit "0.2");
                       OPENAI_MAX_TOKENS := None;
                       now := 86400;
                       chat_completions_create := fun _ _ => inl (Error (Some 429%Z) (lit "Rate limit"));
                       images_generate := fun _ _ => inl (Error None (lit "Request timed out.")) |}
                    (fresh None) _ _
                    (or_intror (or_intror (or_introl eq_refl)))
                    (or_intror (or_introl eq_refl)))).
Defined.

(** ** Cache reads that fail *)

(** C10. A cache lookup that raises is handled as a miss: the response and
    the events of the run (the schema check, the upstream call, the cache
    write) are those of the same request against a cache whose lookup
    works and finds nothing. *)
Theorem cache_read_failure_is_a_miss op e input s1 s2 r1 r2 err :
  redis s1 = Some r1 -> get_error r1 = Some err ->
  redis s2 = Some r2 -> get_error r2 = None ->
  live_entry (now e) r2 (checkCache_key input) = None ->
  setex_error r1 = setex_error r2 -> trace s1 = trace s2 ->
  fst (generate op input e s1) = fst (generate op input e s2)
  /\ trace (snd (generate op input e s1)) = trace (snd (generate op input e s2)).
Proof.
  destruct s1 as [rd1 t1], s2 as [rd2 t2]. cbn [redis trace].
  intros -> Hg1 -> Hg2 Hlive Hs ->.
  rewrite !generate_orchestrate. unfold orchestrate, cache_answer. cbn [redis].
  rewrite Hg1, Hg2, Hlive.
  unfold proceed, looked_up, lookup_events, add_events. cbn [redis trace].
  destruct (plan op input e) as [?|[call outcome]]; [done|].
  destruct (outcome _); [done|].
  unfold store_and_respond, add_events. cbn [redis trace]. rewrite Hs.
  by destruct (setex_error r2).
Qed.

(** Reads fail, the upstream answers, writes work: the request succeeds as
    on a miss. *)
Lemma cache_read_failure_is_a_miss_witness :
  fst (generatePost post_body (answering poll_text [] api_key 0)
         (fresh (Some (failing_reads ∅))))
  = fst (generatePost post_body (answering poll_text [] api_key 0)
           (fresh (Some (working_redis ∅))))
  /\ success (fst (generatePost post_body (answering poll_text [] api_key 0)
                     (fresh (Some (failing_reads ∅))))) = Some (JBool true).
Proof.
  split; [|vm_compute; reflexivity].
  exact (proj1 (cache_read_failure_is_a_miss Post (answering poll_text [] api_key 0) post_body
                  (fresh (Some (failing_reads ∅))) (fresh (Some (working_redis ∅)))
                  (failing_reads ∅) (working_redis ∅) _
                  eq_refl eq_refl eq_refl eq_refl eq_refl eq_refl eq_refl)).
Defined.

(** ** Upstream failures and the cache *)

Lemma errorHandler_success err : success (errorHandler err) = Some (JBool false).
Proof. by destruct err. Qed.

Lemma errorHandler_error err :
  exists msg, error_message (errorHandler err) = Some (JStr msg).
Proof. destruct err; eexists; reflexivity. Qed.

Lemma no_cache_set_before s op input :
  existsb is_cache_set (lookup_events s input ++ checks op input) = false.
Proof. unfold lookup_events. by destruct (redis s), op. Qed.

(** C6. When the upstream call of a request fails (it throws, or its
    payload has no first choice or no URL) the response is a failure with
    an error message and the cache is as it was: the run made no write, and
    the cache still does not answer the request. *)
Theorem failed_upstream_leaves_cache op e s input ev :
  In ev (emitted s (snd (generate op input e s))) ->
  upstream_failed e (length (upstream_calls (trace s))) ev = true ->
  success (fst (generate op input e s)) = Some (JBool false)
  /\ (exists msg, error_message (fst (generate op input e s)) = Some (JStr msg))
  /\ redis (snd (generate op input e s)) = redis s
  /\ existsb is_cache_set (emitted s (snd (generate op input e s))) = false
  /\ cache_answer e (snd (generate op input e s)) input = None.
Proof.
  intros Hin Hf.
  destruct (upstream_event_planned ev op input e s Hin
              (upstream_failed_is_upstream _ _ _ Hf)) as [outcome Hplan].
  destruct (plan_failed op input e _ ev outcome Hplan Hf) as [err Herr].
  pose proof (upstream_failed_is_upstream _ _ _ Hf) as Hu.
  paths op input e s; try congruence.
  { rewrite <- (app_nil_r (lookup_events s input)) in Hin.
    destruct (no_upstream_event_before ev s Image input Hin Hu). }
  assert (call0 = ev) as -> by congruence.
  split; [apply errorHandler_success|]. split; [apply errorHandler_error|].
  split; [done|]. split; [|exact Hc].
  rewrite app_assoc, existsb_app, no_cache_set_before. cbn [existsb orb].
  apply plan_call in Hplan as (_ & _ & _ & ->). done.
Qed.

(** The upstream times out on a valid request: a failure is returned and
    the empty cache stays empty. *)
Lemma failed_upstream_leaves_cache_witness :
  success (fst (generatePost post_body (timing_out api_key 0) (fresh (Some (working_redis ∅)))))
  = Some (JBool false)
  /\ redis (snd (generatePost post_body (timing_out api_key 0) (fresh (Some (working_redis ∅)))))
     = Some (working_redis ∅).
Proof.
  assert (In (ChatCall (post_request (template_post
                 {| postType := lit "post"; topic := lit "remote work";
                    audience := lit "general audience"; style := lit "neutral and engaging";
                    guidelines := lit "none"; preferences := None |})))
            (emitted (fresh (Some (working_redis ∅)))
               (snd (generate Post post_body (timing_out api_key 0)
                       (fresh (Some (working_redis ∅))))))) as Hin.
  { right; right; left; reflexivity. }
  destruct (failed_upstream_leaves_cache Post (timing_out api_key 0)
              (fresh (Some (working_redis ∅))) post_body _ Hin eq_refl)
    as (Hs & _ & Hr & _).
  split; [exact Hs|exact Hr].
Defined.

(** What a route stores is a success. *)
Lemma planned_result_success op input e call outcome n result :
  plan op input e = inr (call, outcome) -> outcome n = inr result ->
  success (ok result) = Some (JBool true).
Proof.
  unfold plan, post_outcome, image_outcome, poll_outcome, poll_result. intros Hp Ho.
  destruct op; repeat (case_match; simplify_eq); reflexivity.
Qed.

(** The cache changes only in a run that answers with [success: true]. *)
Theorem cache_written_only_on_success op e s input :
  redis (snd (generate op input e s)) <> redis s ->
  success (fst (generate op input e s)) = Some (JBool true)
  /\ existsb is_cache_set (emitted s (snd (generate op input e s))) = true.
Proof.
  intros H. paths op input e s; try done. split.
  - exact (planned_result_success _ _ _ _ _ _ _ Hp Ho).
  - rewrite !existsb_app. cbn [existsb is_cache_set]. by rewrite !orb_true_r.
Qed.

Lemma cache_written_only_on_success_witness :
  success (fst (generate Post post_body (answering poll_text [] api_key 0)
                  (fresh (Some (working_redis ∅))))) = Some (JBool true)
  /\ existsb is_cache_set
       (emitted (fresh (Some (working_redis ∅)))
          (snd (generate Post post_body (answering poll_text [] api_key 0)
                  (fresh (Some (working_redis ∅)))))) = true.
Proof.
  apply cache_written_only_on_success.
  intros H. apply (f_equal (fun o => (fun r => entries r !! checkCache_key post_body) <$> o)) in H.
  vm_compute in H. discriminate H.
Defined.

(** Redis fails the write after the upstream has answered: the request
    fails although its result was computed. *)
Theorem failed_write_fails_request op e s input r err call outcome result :
  redis s = Some r -> setex_error r = Some err ->
  cache_answer e s input = None ->
  plan op input e = inr (call, outcome) ->
  outcome (length (upstream_calls (trace s))) = inr result ->
  fst (generate op input e s) = errorHandler err
  /\ success (fst (generate op input e s)) = Some (JBool false).
Proof.
  intros Hr0 Hs0 Hc0 Hp0 Ho0. paths op input e s; agree.
  split; [done|apply errorHandler_success].
Qed.

Lemma failed_write_fails_request_witness :
  success (fst (generate Post post_body (answering poll_text [] api_key 0)
                  (fresh (Some failing_writes)))) = Some (JBool false).
Proof.
  exact (proj2 (failed_write_fails_request Post (answering poll_text [] api_key 0)
                  (fresh (Some failing_writes)) post_body failing_writes _ _ _ _
                  eq_refl eq_refl eq_refl eq_refl eq_refl)).
Defined.

(** ** The key a result is stored under and the key the lookup reads *)

Example checkCache_key_post_body :
  checkCache_key post_body
  = lit "content:{" ++ [34] ++ lit "postType" ++ [34] ++ lit ":" ++ [34] ++ lit "post" ++ [34]
    ++ lit "," ++ [34] ++ lit "topic" ++ [34] ++ lit ":" ++ [34] ++ lit "remote work" ++ [34]
    ++ lit "}".
Proof. reflexivity. Qed.

Lemma poll_key_ne input : poll_key input <> checkCache_key input.
Proof. intros H. apply (f_equal head) in H. discriminate H. Qed.

Lemma image_key_ne prompt input : image_key prompt <> checkCache_key input.
Proof. intros H. apply (f_equal head) in H. discriminate H. Qed.

Lemma result_key_ne op input : op <> Post -> result_key op input <> checkCache_key input.
Proof. destruct op; [done|intros _; apply image_key_ne|intros _; apply poll_key_ne]. Qed.

(** The poll and image routes never make the cache answer their request. *)
Lemma poll_image_never_cached op e s input :
  op <> Post -> cache_answer e s input = None ->
  cache_answer e (snd (generate op input e s)) input = None.
Proof.
  intros Hop Hmiss. paths op input e s; try done.
  unfold cache_answer, live_entry, stored in *. cbn [redis entries get_error].
  rewrite Hr in Hc. destruct (get_error r0); [done|].
  by rewrite lookup_insert_ne by by apply result_key_ne.
Qed.

(** C1. The content route stores a result under the key the lookup reads;
    the poll and image routes store theirs under keys ([poll:...],
    [image:...]) the lookup, which reads [content:...] on every route,
    never asks for. So after a poll or image request the cache still does
    not answer the same request, and a second identical poll request calls
    the upstream again. *)
Theorem poll_and_image_results_never_hit :
  (forall input, post_key input = checkCache_key input)
  /\ (forall input, poll_key input <> checkCache_key input)
  /\ (forall input prompt, image_key prompt <> checkCache_key input)
  /\ (forall op e s input,
        op <> Post -> cache_answer e s input = None ->
        cache_answer e (snd (generate op input e s)) input = None)
  /\ success (fst (generate_poll poll_body (answering poll_text [] api_key 0)
                     (fresh (Some (working_redis ∅))))) = Some (JBool true)
  /\ length (upstream_calls (trace (snd
       (generate_poll poll_body (answering poll_text [] api_key 0)
          (fresh (Some (working_redis ∅))))))) = 1%nat
  /\ length (upstream_calls (trace (snd
       (generate_poll poll_body (answering poll_text [] api_key 0)
          (snd (generate_poll poll_body (answering poll_text [] api_key 0)
                  (fresh (Some (working_redis ∅))))))))) = 2%nat
  /\ length (upstream_calls (trace (snd
       (generateImage image_body (answering poll_text (lit "https://img/1.png") api_key 0)
          (snd (generateImage image_body (answering poll_text (lit "https://img/1.png") api_key 0)
                  (fresh (Some (working_redis ∅))))))))) = 2%nat.
Proof.
  split; [done|]. split; [apply poll_key_ne|].
  split; [intros; apply image_key_ne|].
  split; [apply poll_image_never_cached|].
  repeat split; vm_compute; reflexivity.
Qed.

(** ** Repeated requests on the content route *)

Lemma post_entry_live e e' r input result t :
  get_error r = None -> (now e' < now e + 3600)%Z ->
  cache_answer e' {| redis := Some (stored r (post_key input) result e); trace := t |} input
  = Some result.
Proof.
  intros Hg Ht. unfold cache_answer, live_entry, stored. cbn [redis get_error entries].
  rewrite Hg. change (post_key input) with (checkCache_key input).
  rewrite lookup_insert_eq.
  by destruct (Z.ltb_spec (now e') (now e + 3600)); [|lia].
Qed.

(** A content request that missed the cache and succeeded, repeated within
    the hour against a working cache, gets the response of the first call
    from the cache: the run is the lookup alone, with no upstream call. *)
Theorem repeated_post_request_hits e e' s input r :
  redis s = Some r -> get_error r = None -> setex_error r = None ->
  cache_answer e s input = None ->
  success (fst (generatePost input e s)) = Some (JBool true) ->
  (now e' < now e + 3600)%Z ->
  generatePost input e' (snd (generatePost input e s))
  = (fst (generatePost input e s),
     add_events (snd (generatePost input e s)) [CacheGet (checkCache_key input)]).
Proof.
  intros Hr0 Hg0 Hs0 Hc0 Hok Ht.
  change (generatePost input e s) with (generate Post input e s) in *.
  paths Post input e s; agree; rewrite ?errorHandler_success in Hok; try done.
  change (generatePost input e') with (generate Post input e').
  rewrite generate_orchestrate. unfold orchestrate.
  change (result_key Post input) with (post_key input).
  by rewrite post_entry_live.
Qed.

(** The same request half an hour later. *)
Lemma repeated_post_request_hits_witness :
  generatePost post_body (answering poll_text [] api_key 1800)
    (snd (generatePost post_body (answering poll_text [] api_key 0)
            (fresh (Some (working_redis ∅)))))
  = (fst (generatePost post_body (answering poll_text [] api_key 0)
            (fresh (Some (working_redis ∅)))),
     add_events (snd (generatePost post_body (answering poll_text [] api_key 0)
                        (fresh (Some (working_redis ∅)))))
       [CacheGet (checkCache_key post_body)]).
Proof.
  exact (repeated_post_request_hits (answering poll_text [] api_key 0)
           (answering poll_text [] api_key 1800) (fresh (Some (working_redis ∅)))
           post_body (working_redis ∅) eq_refl eq_refl eq_refl eq_refl eq_refl eq_refl).
Defined.

(** An hour after the request the cache no longer answers it. *)
Theorem post_entry_expires e e' s input :
  cache_answer e s input = None ->
  (now e + 3600 <= now e')%Z ->
  cache_answer e' (snd (generatePost input e s)) input = None.
Proof.
  intros Hc0 Ht.
  assert (cache_answer e' s input = None) as Hlater.
  { unfold cache_answer, live_entry in *.
    destruct (redis s) as [r|]; [|done]. destruct (get_error r); [done|].
    destruct (entries r !! checkCache_key input) as [[v exp]|]; [|done].
    destruct (Z.ltb_spec (now e) exp); [done|].
    by destruct (Z.ltb_spec (now e') exp); [lia|]. }
  change (generatePost input e s) with (generate Post input e s).
  paths Post input e s; try exact Hlater.
  unfold cache_answer, live_entry, stored. cbn [redis get_error entries].
  destruct (get_error r0); [done|].
  change (result_key Post input) with (checkCache_key input).
  rewrite lookup_insert_eq.
  by destruct (Z.ltb_spec (now e') (now e + 3600)); [lia|].
Qed.

(** The same request an hour later. *)
Lemma post_entry_expires_witness :
  cache_answer (answering poll_text [] api_key 3600)
    (snd (generatePost post_body (answering poll_text [] api_key 0)
            (fresh (Some (working_redis ∅))))) post_body = None.
Proof.
  apply (post_entry_expires (answering poll_text [] api_key 0)
           (answering poll_text [] api_key 3600)); [reflexivity|].
  cbn [now answering]. lia.
Defined.

(** ** Defaults *)

(** An accepted request carries the documented defaults for the optional
    texts it does not give. *)
Theorem contentSchema_defaults input c :
  contentSchema input = inr c ->
  audience c = match prop input (lit "audience") with
               | Some (JStr a) => a
               | _ => lit "general audience"
               end
  /\ style c = match prop input (lit "style") with
               | Some (JStr a) => a
               | _ => lit "neutral and engaging"
               end
  /\ guidelines c = match prop input (lit "guidelines") with
                    | Some (JStr a) => a
                    | _ => lit "none"
                    end.
Proof.
  unfold contentSchema, prop. destruct input as [| | | | |props]; try discriminate.
  destruct (z_enum _ _ _), (z_string_min1 _ _),
    (z_string_default (lit "general audience") _ _) as [|a] eqn:Ea,
    (z_string_default (lit "neutral and engaging") _ _) as [|b] eqn:Eb,
    (z_string_default (lit "none") _ _) as [|d] eqn:Ed,
    (z_preferences _ _); intros H; simplify_eq.
  cbn [audience style guidelines].
  unfold z_string_default, z_string in *.
  repeat split; repeat (case_match; simplify_eq); done.
Qed.

Lemma contentSchema_defaults_witness :
  audience {| postType := lit "post"; topic := lit "remote work";
              audience := lit "general audience"; style := lit "neutral and engaging";
              guidelines := lit "none"; preferences := None |}
  = lit "general audience".
Proof.
  exact (proj1 (contentSchema_defaults post_body _ eq_refl)).
Defined.

(** ** Short poll responses *)

(** A well-formed response of fewer than four lines still parses: the
    options are the lines after the first, fewer than three. *)
Theorem poll_result_fewer_lines l ls :
  forallb well_formed_line (l :: ls) = true ->
  (length ls < 3)%nat ->
  poll_result (render (l :: ls))
  = inr (JObj [(lit "success", JBool true);
               (lit "content", JStr (render (l :: ls)));
               (lit "question", JStr (text l));
               (lit "options", JArr (List.map (fun x => JStr (text x)) ls))]).
Proof.
  intros Hwf Hlen. rewrite (poll_result_render l ls Hwf).
  by rewrite take_ge by lia.
Qed.

(** Two lines: a question and one option. *)
Lemma poll_result_fewer_lines_witness :
  poll_result (lit "1. Yes or no?
2. Yes")
  = inr (JObj [(lit "success", JBool true);
               (lit "content", JStr (lit "1. Yes or no?
2. Yes"));
               (lit "question", JStr (lit "Yes or no?"));
               (lit "options", JArr [JStr (lit "Yes")])]).
Proof.
  apply (poll_result_fewer_lines
           {| marker := lit "1"; gap := lit " "; text := lit "Yes or no?" |}
           [ {| marker := lit "2"; gap := lit " "; text := lit "Yes" |} ]);
    [reflexivity|cbn [length]; lia].
Defined.

(** ** White space in a poll response *)

Lemma forallb_rev {A} (p : A -> bool) l : forallb p (rev l) = forallb p l.
Proof.
  induction l as [|a l IH]; [done|].
  simpl. rewrite forallb_app, IH. simpl. rewrite andb_true_r. apply andb_comm.
Qed.

Lemma trimEnd_all_app s ws : forallb isWhiteSpace ws = true -> trimEnd (s ++ ws) = trimEnd s.
Proof.
  intros H. unfold trimEnd. rewrite rev_app_distr.
  by rewrite dropWhile_all by by rewrite forallb_rev.
Qed.

(** White space around a string with none at either end is trimmed away. *)
Lemma trim_padded lead c t d tail :
  forallb isWhiteSpace lead = true -> forallb isWhiteSpace tail = true ->
  isWhiteSpace c = false -> last (c :: t) = Some d -> isWhiteSpace d = false ->
  trim (lead ++ (c :: t) ++ tail) = c :: t.
Proof.
  intros Hlead Htail Hc Hl Hd. unfold trim, trimStart.
  rewrite dropWhile_all by exact Hlead.
  cbn [app]. rewrite dropWhile_stop by exact Hc.
  change (c :: t ++ tail) with ((c :: t) ++ tail).
  rewrite trimEnd_all_app by exact Htail.
  destruct (last_snoc_inv _ _ Hl) as [s' ->]. by apply trimEnd_last.
Qed.

Lemma trim_all ws : forallb isWhiteSpace ws = true -> trim ws = [].
Proof.
  intros H. unfold trim, trimStart.
  rewrite <- (app_nil_r ws), dropWhile_all by exact H. reflexivity.
Qed.

Lemma trimEnd_ends s d : last (trimEnd s) = Some d -> isWhiteSpace d = false.
Proof.
  unfold trimEnd. intros H.
  destruct (dropWhile isWhiteSpace (rev s)) as [|c t] eqn:E; [done|].
  apply dropWhile_head in E. simpl in H. rewrite last_snoc in H. by simplify_eq.
Qed.

Lemma trim_ends s d : last (trim s) = Some d -> isWhiteSpace d = false.
Proof. apply trimEnd_ends. Qed.

(** Trimming a trimmed string changes nothing. *)
Lemma trim_idem s : trim (trim s) = trim s.
Proof.
  destruct (trim s) as [|c t] eqn:E; [reflexivity|].
  destruct (last (c :: t)) as [d|] eqn:El; [|by apply last_None in El].
  apply (trim_fixed c t d); [by apply (trim_head s c t)|exact El|].
  apply (trim_ends s). by rewrite E.
Qed.

Lemma no_break_app a b : no_break (a ++ b) = no_break a && no_break b.
Proof. apply forallb_app. Qed.

Lemma no_break_dropWhile p s : no_break s = true -> no_break (dropWhile p s) = true.
Proof.
  intros H. destruct (dropWhile_suffix p s) as [pre Hpre].
  rewrite Hpre, no_break_app in H. by apply andb_prop in H as [_ ?].
Qed.

Lemma no_break_rev s : no_break (rev s) = no_break s.
Proof. apply forallb_rev. Qed.

Lemma no_break_trim s : no_break s = true -> no_break (trim s) = true.
Proof.
  intros H. unfold trim, trimEnd, trimStart.
  rewrite no_break_rev. apply no_break_dropWhile. rewrite no_break_rev.
  by apply no_break_dropWhile.
Qed.

Lemma no_break_strip_marker s : no_break s = true -> no_break (strip_marker s) = true.
Proof.
  intros H. unfold strip_marker.
  destruct s as [|c s']; [done|].
  destruct (isDigit c); [|done].
  destruct (dropWhile isDigit (c :: s')) as [|d rest] eqn:E; [done|].
  destruct (d =? 46); [|done].
  apply no_break_dropWhile.
  pose proof (no_break_dropWhile isDigit _ H) as H'. rewrite E in H'.
  simpl in H'. by apply andb_prop in H' as [_ ?].
Qed.

Lemma no_break_strip s : no_break s = true -> no_break (strip s) = true.
Proof. intros H. by apply no_break_trim, no_break_strip_marker. Qed.

(** The pieces of a split hold no separator. *)
Lemma split_no_break s : Forall (fun l => no_break l = true) (split 10 s).
Proof.
  induction s as [|c s IH]; simpl.
  - by repeat constructor.
  - destruct (c =? 10) eqn:Ec.
    + by constructor.
    + destruct (split 10 s) as [|l ls]; [by repeat constructor; simpl; rewrite Ec|].
      inversion IH as [|? ? Hl Hls]; subst. constructor; [|done].
      simpl. by rewrite Ec.
Qed.

Lemma poll_lines_no_break s : Forall (fun l => no_break l = true) (poll_lines s).
Proof.
  unfold poll_lines. apply List.Forall_forall. intros l [Hin _]%filter_In.
  pose proof (split_no_break s) as H. rewrite List.Forall_forall in H. by apply H.
Qed.

Lemma strip_trimmed_line l : no_break l = true -> trimmed_line (strip l) = true.
Proof.
  intros H. unfold trimmed_line. apply andb_true_intro. split.
  - apply bool_decide_eq_true. apply trim_idem.
  - by apply no_break_strip.
Qed.

Lemma slice_length {A} (b e : nat) (l : list A) :
  length (slice b e l) = Nat.min (e - b) (length l - b).
Proof. unfold slice. by rewrite length_take, length_drop. Qed.

Lemma Forall_slice {A} (P : A -> Prop) b e (l : list A) : Forall P l -> Forall P (slice b e l).
Proof. intros H. unfold slice. by apply Forall_take, Forall_drop. Qed.

Lemma poll_result_contract raw result :
  poll_result raw = inr result ->
  exists content question options,
    result = JObj [(lit "success", JBool true); (lit "content", JStr content);
                   (lit "question", JStr question);
                   (lit "options", JArr (List.map JStr options))]
    /\ content <> [] /\ trim content = content
    /\ (length options <= 3)%nat
    /\ forallb trimmed_line (question :: options) = true.
Proof.
  unfold poll_result. intros H.
  destruct (poll_lines (trim raw) !! 0%nat) as [first|] eqn:E; simplify_eq.
  exists (trim raw), (strip first), (List.map strip (slice 1 4 (poll_lines (trim raw)))).
  rewrite List.map_map, length_map, slice_length.
  split; [reflexivity|]. split; [|split; [apply trim_idem|split; [cbn [Nat.sub]; lia|]]].
  { intros Hnil. by rewrite Hnil in E. }
  pose proof (poll_lines_no_break (trim raw)) as Hnb.
  apply forallb_forall. intros s [<-|Hin].
  - apply strip_trimmed_line.
    rewrite List.Forall_forall in Hnb. apply Hnb. apply list_elem_of_In.
    by apply (list_elem_of_lookup_2 _ 0%nat).
  - apply in_map_iff in Hin as (l & <- & Hin). apply strip_trimmed_line.
    apply (Forall_slice _ 1 4) in Hnb. rewrite List.Forall_forall in Hnb. by apply Hnb.
Qed.

Lemma plan_poll input e call outcome n result :
  plan Poll input e = inr (call, outcome) -> outcome n = inr result ->
  exists raw, poll_result raw = inr result.
Proof.
  unfold plan, poll_outcome. intros H Ho.
  repeat (case_match; simplify_eq); eauto.
Qed.

Lemma success_false_not_true r :
  success r = Some (JBool false) -> success r <> Some (JBool true).
Proof. by intros ->. Qed.

(** What a caller of the poll route can rely on. Whatever the upstream
    sends, a success the route computes (not one the cache answers) has
    status 200 and carries exactly [success], [content], [question] and
    [options]: the content is not empty and is trimmed, there are three
    options at most (the prompt asks for four and an explanation), and
    the question and every option are single lines with no white space at
    either end. *)
Theorem poll_response_contract e s input :
  cache_answer e s input = None ->
  success (fst (generate_poll input e s)) = Some (JBool true) ->
  exists content question options,
    fst (generate_poll input e s)
    = ok (JObj [(lit "success", JBool true); (lit "content", JStr content);
                (lit "question", JStr question);
                (lit "options", JArr (List.map JStr options))])
    /\ content <> [] /\ trim content = content
    /\ (length options <= 3)%nat
    /\ forallb trimmed_line (question :: options) = true.
Proof.
  change (generate_poll input e s) with (generate Poll input e s).
  intros Hc' Hs'.
  paths Poll input e s; agree;
    try (by rewrite errorHandler_success in Hs');
    destruct (plan_poll _ _ _ _ _ _ Hp Ho) as (raw & Hraw);
    destruct (poll_result_contract _ _ Hraw) as (c & q & o & -> & ?);
    by exists c, q, o.
Qed.

(** The poll the route makes of the scenario's five lines. *)
Lemma poll_response_contract_witness :
  exists content question options,
    fst (generate_poll poll_body (answering poll_text [] api_key 0) (fresh None))
    = ok (JObj [(lit "success", JBool true); (lit "content", JStr content);
                (lit "question", JStr question);
                (lit "options", JArr (List.map JStr options))])
    /\ content <> [] /\ trim content = content
    /\ (length options <= 3)%nat
    /\ forallb trimmed_line (question :: options) = true.
Proof.
  apply (poll_response_contract (answering poll_text [] api_key 0) (fresh None) poll_body);
    reflexivity.
Defined.

Lemma padding_parts ws :
  padding ws = true -> forallb isWhiteSpace ws = true /\ no_break ws = true.
Proof. unfold padding. by intros ?%andb_prop. Qed.

Lemma wf_numbered i l t :
  well_formed_raw (Numbered i l t) = true ->
  padding i = true /\ well_formed_line l = true /\ padding t = true.
Proof. cbn [well_formed_raw]. intros [[? ?]%andb_prop ?]%andb_prop. done. Qed.

Lemma render_raw_no_break r : well_formed_raw r = true -> no_break (render_raw r) = true.
Proof.
  destruct r as [i l t|ws].
  - intros (Hi & Hl & Ht)%wf_numbered.
    apply padding_parts in Hi as [_ Hi]. apply padding_parts in Ht as [_ Ht].
    cbn [render_raw]. by rewrite !no_break_app, Hi, Ht, (render_line_no_break l Hl).
  - by intros [_ ?]%padding_parts.
Qed.

(** White space around a numbered line is trimmed away. *)
Lemma trim_numbered i l t :
  well_formed_raw (Numbered i l t) = true -> trim (render_raw (Numbered i l t)) = render_line l.
Proof.
  intros (Hi & Hl & Ht)%wf_numbered.
  apply padding_parts in Hi as [Hi _]. apply padding_parts in Ht as [Ht _].
  destruct (render_line_head l Hl) as (c & rest & Er & Hc).
  destruct (render_line_last l Hl) as (d & Hlast & Hd).
  cbn [render_raw]. rewrite Er in *.
  by apply (trim_padded i c rest d t); [..|apply digit_not_whitespace| |].
Qed.

Lemma render_raw_kept r :
  well_formed_raw r = true -> truthy_string (trim (render_raw r)) = bool_decide (is_Some (parsed r)).
Proof.
  destruct r as [i l t|ws]; intros Hwf.
  - rewrite (trim_numbered _ _ _ Hwf).
    apply wf_numbered in Hwf as (_ & Hl & _).
    destruct (render_line_head l Hl) as (c & rest & -> & _).
    by destruct i.
  - apply padding_parts in Hwf as [Hws _]. cbn [render_raw]. by rewrite (trim_all _ Hws).
Qed.

(** The marker of a numbered line at the start of a line is removed, with
    the white space after the text. *)
Lemma strip_unindented l t :
  well_formed_raw (Numbered [] l t) = true -> strip (render_raw (Numbered [] l t)) = text l.
Proof.
  intros (_ & Hl & Ht)%wf_numbered. apply padding_parts in Ht as [Ht _].
  destruct (render_line_head l Hl) as (c & rest & Er & Hc).
  destruct (wf_parts l Hl) as (_ & Hd & Hg & _ & (c' & x & d & Et & Hc' & Hlast & Hd') & _).
  unfold strip, strip_marker. cbn [render_raw app].
  rewrite Er. cbn [app]. rewrite Hc. change (c :: rest ++ t) with ((c :: rest) ++ t).
  rewrite <- Er. unfold render_line. rewrite <- !app_assoc.
  rewrite (dropWhile_all isDigit (marker l)) by exact Hd.
  cbn [app]. rewrite dropWhile_stop by exact dot_not_digit.
  rewrite N.eqb_refl.
  rewrite dropWhile_all by exact Hg.
  rewrite Et in *. cbn [app]. rewrite dropWhile_stop by exact Hc'.
  by apply (trim_padded [] c' x d t).
Qed.

Lemma whitespace_not_digit c : isWhiteSpace c = true -> isDigit c = false.
Proof.
  intros H. destruct (isDigit c) eqn:E; [|done].
  apply digit_not_whitespace in E. congruence.
Qed.

(** White space before the marker keeps the marker in place. *)
Lemma strip_indented c i l t :
  well_formed_raw (Numbered (c :: i) l t) = true ->
  strip (render_raw (Numbered (c :: i) l t)) = render_line l.
Proof.
  intros Hwf. unfold strip.
  assert (strip_marker (render_raw (Numbered (c :: i) l t)) = render_raw (Numbered (c :: i) l t)) as ->.
  { apply wf_numbered in Hwf as (Hi & _). apply padding_parts in Hi as [Hi _].
    cbn [forallb] in Hi. apply andb_prop in Hi as [Hc _].
    unfold strip_marker. cbn [render_raw app]. by rewrite (whitespace_not_digit c Hc). }
  by apply trim_numbered.
Qed.

Lemma strip_render_raw r x :
  well_formed_raw r = true -> parsed r = Some x -> strip (render_raw r) = x.
Proof.
  destruct r as [[|c i] l t|ws]; intros Hwf [= <-].
  - by apply strip_unindented.
  - by apply strip_indented.
Qed.

(** The lines the parser keeps, with what it makes of each. *)
Lemma poll_lines_raw rs :
  forallb well_formed_raw rs = true ->
  List.map strip (List.filter (fun line => truthy_string (trim line)) (List.map render_raw rs))
  = omap parsed rs.
Proof.
  induction rs as [|r rs IH]; [done|].
  cbn [forallb]. intros [Hr Hrs]%andb_prop.
  cbn [List.map List.filter omap list_omap]. rewrite (render_raw_kept r Hr).
  destruct (parsed r) as [x|] eqn:Ep.
  - rewrite bool_decide_eq_true_2 by eauto.
    cbn [List.map]. rewrite (strip_render_raw r x Hr Ep). f_equal. by apply IH.
  - rewrite bool_decide_eq_false_2 by (by intros [? ?]). by apply IH.
Qed.

Lemma join_render_raw_ends l t0 rs i z :
  forallb well_formed_raw (Numbered [] l t0 :: rs) = true ->
  last (Numbered [] l t0 :: rs) = Some (Numbered i z []) ->
  exists c t d, join [10] (List.map render_raw (Numbered [] l t0 :: rs)) = c :: t
    /\ isWhiteSpace c = false /\ last (c :: t) = Some d /\ isWhiteSpace d = false.
Proof.
  intros Hwf Hlast.
  assert (well_formed_raw (Numbered i z []) = true) as Hz by by apply (forallb_last _ _ _ Hwf).
  apply wf_numbered in Hz as (_ & Hz & _).
  cbn [forallb] in Hwf. apply andb_prop in Hwf as [(_ & Hl & _)%wf_numbered _].
  destruct (render_line_head l Hl) as (c & rest & Er & Hc).
  destruct (render_line_last z Hz) as (d & Hd & Hws).
  cbn [List.map render_raw app]. rewrite Er. cbn [app].
  destruct (join_head [10] c (rest ++ t0) (List.map render_raw rs)) as [t Et].
  exists c, t, d. split; [exact Et|]. split; [by apply digit_not_whitespace|]. split; [|exact Hws].
  rewrite <- Et. change (c :: rest ++ t0) with ((c :: rest) ++ t0). rewrite <- Er.
  apply (join_last _ _ _ (render_raw (Numbered i z []))).
  - change (last (List.map render_raw (Numbered [] l t0 :: rs)) = Some (render_raw (Numbered i z []))).
    by rewrite last_map, Hlast.
  - cbn [render_raw]. rewrite app_nil_r, last_app. by rewrite Hd.
Qed.

(** What the parser makes of a response laid out in raw lines. *)
Lemma poll_result_layout lead l t0 rs tail i z :
  forallb isWhiteSpace lead = true -> forallb isWhiteSpace tail = true ->
  forallb well_formed_raw (Numbered [] l t0 :: rs) = true ->
  last (Numbered [] l t0 :: rs) = Some (Numbered i z []) ->
  poll_result (layout lead (Numbered [] l t0 :: rs) tail)
  = inr (JObj [(lit "success", JBool true);
               (lit "content", JStr (join [10] (List.map render_raw (Numbered [] l t0 :: rs))));
               (lit "question", JStr (text l));
               (lit "options", JArr (List.map JStr (take 3 (omap parsed rs))))]).
Proof.
  intros Hlead Htail Hwf Hlast.
  destruct (join_render_raw_ends _ _ _ _ _ Hwf Hlast) as (c & t & d & EJ & Hc & Hd & Hws).
  unfold poll_result, layout. rewrite EJ.
  rewrite (trim_padded lead c t d tail Hlead Htail Hc Hd Hws). rewrite <- EJ.
  unfold poll_lines.
  change (List.map render_raw (Numbered [] l t0 :: rs))
    with (render_raw (Numbered [] l t0) :: List.map render_raw rs) at 1 3.
  rewrite split_join.
  2:{ change (render_raw (Numbered [] l t0) :: List.map render_raw rs)
        with (List.map render_raw (Numbered [] l t0 :: rs)).
      clear -Hwf. induction (Numbered [] l t0 :: rs) as [|a rest IH]; [done|].
      cbn [forallb] in Hwf. apply andb_prop in Hwf as [Ha Hrest].
      cbn [List.map forallb]. rewrite (IH Hrest), andb_true_r.
      exact (render_raw_no_break a Ha). }
  cbn [forallb] in Hwf. apply andb_prop in Hwf as [Hl Hrs].
  cbn [List.filter]. rewrite (render_raw_kept _ Hl). cbn [parsed].
  rewrite bool_decide_eq_true_2 by eauto.
  cbn [lookup list_lookup]. rewrite (strip_unindented l t0 Hl).
  unfold slice. cbn [drop Nat.sub]. rewrite drop_0.
  rewrite <- (poll_lines_raw rs Hrs).
  rewrite <- !firstn_map, List.map_map. reflexivity.
Qed.

(** White space around the lines does not matter: for numbered lines
    that start at the beginning of their line, each possibly followed by
    white space (a carriage return, say), with lines of white space
    between them and white space before the first and after the last
    line, the parser returns the text of the first line as the question
    and the texts of the next three numbered lines as the options. *)
Theorem poll_result_ignores_padding lead l t0 rs tail i z :
  forallb isWhiteSpace lead = true -> forallb isWhiteSpace tail = true ->
  forallb well_formed_raw (Numbered [] l t0 :: rs) = true ->
  last (Numbered [] l t0 :: rs) = Some (Numbered i z []) ->
  forallb unindented rs = true ->
  poll_result (layout lead (Numbered [] l t0 :: rs) tail)
  = inr (JObj [(lit "success", JBool true);
               (lit "content", JStr (join [10] (List.map render_raw (Numbered [] l t0 :: rs))));
               (lit "question", JStr (text l));
               (lit "options", JArr (List.map (fun x => JStr (text x)) (take 3 (numbered_lines rs))))]).
Proof.
  intros Hlead Htail Hwf Hlast Hun.
  rewrite (poll_result_layout _ _ _ _ _ _ _ Hlead Htail Hwf Hlast).
  assert (omap parsed rs = List.map text (numbered_lines rs)) as ->.
  { clear -Hun. induction rs as [|[[|c j] x t|ws] rs IH]; try done.
    - cbn [forallb unindented andb] in Hun. cbn. f_equal. by apply IH.
    - cbn [forallb unindented andb] in Hun. cbn. by apply IH. }
  by rewrite firstn_map, List.map_map.
Qed.

(** A response with carriage returns before the line breaks, an empty
    line after the question and a line break at the end. *)
Lemma poll_result_ignores_padding_witness :
  poll_result
    (layout []
       [Numbered [] tabs_or_spaces [13]; Blank [13]; Numbered [] option_tabs [13];
        Numbered [] option_spaces []]
       [13; 10])
  = inr (JObj [(lit "success", JBool true);
               (lit "content",
                JStr (join [10]
                        (List.map render_raw
                           [Numbered [] tabs_or_spaces [13]; Blank [13];
                            Numbered [] option_tabs [13]; Numbered [] option_spaces []])));
               (lit "question", JStr (lit "Tabs or spaces?"));
               (lit "options", JArr [JStr (lit "Tabs"); JStr (lit "Spaces")])]).
Proof.
  apply (poll_result_ignores_padding [] tabs_or_spaces [13]
           [Blank [13]; Numbered [] option_tabs [13]; Numbered [] option_spaces []]
           [13; 10] [] option_spaces);
    reflexivity.
Defined.

(** White space before a marker does matter: the marker is removed at
    the start of a line only, so an option whose numbered line is
    indented keeps its marker ([2. Tabs], not [Tabs]). The first line is
    safe, since the response is trimmed before it is split. *)
Theorem poll_result_indented_keeps_markers lead l t0 rs tail i z :
  forallb isWhiteSpace lead = true -> forallb isWhiteSpace tail = true ->
  forallb well_formed_raw (Numbered [] l t0 :: rs) = true ->
  last (Numbered [] l t0 :: rs) = Some (Numbered i z []) ->
  forallb indented rs = true ->
  poll_result (layout lead (Numbered [] l t0 :: rs) tail)
  = inr (JObj [(lit "success", JBool true);
               (lit "content", JStr (join [10] (List.map render_raw (Numbered [] l t0 :: rs))));
               (lit "question", JStr (text l));
               (lit "options", JArr (List.map (fun x => JStr (render_line x)) (take 3 (numbered_lines rs))))]).
Proof.
  intros Hlead Htail Hwf Hlast Hin.
  rewrite (poll_result_layout _ _ _ _ _ _ _ Hlead Htail Hwf Hlast).
  assert (omap parsed rs = List.map render_line (numbered_lines rs)) as ->.
  { clear -Hin. induction rs as [|[[|c j] x t|ws] rs IH]; try done.
    - cbn [forallb indented andb] in Hin. cbn. f_equal. by apply IH.
    - cbn [forallb indented andb] in Hin. cbn. by apply IH. }
  by rewrite firstn_map, List.map_map.
Qed.

(** The options indented by four spaces, as the prompt itself shows them. *)
Lemma poll_result_indented_keeps_markers_witness :
  poll_result
    (layout []
       [Numbered [] tabs_or_spaces []; Numbered (lit "    ") option_tabs [];
        Numbered (lit "    ") option_spaces []]
       [])
  = inr (JObj [(lit "success", JBool true);
               (lit "content",
                JStr (join [10]
                        (List.map render_raw
                           [Numbered [] tabs_or_spaces []; Numbered (lit "    ") option_tabs [];
                            Numbered (lit "    ") option_spaces []])));
               (lit "question", JStr (lit "Tabs or spaces?"));
               (lit "options", JArr [JStr (lit "2. Tabs"); JStr (lit "3. Spaces")])]).
Proof.
  apply (poll_result_indented_keeps_markers [] tabs_or_spaces []
           [Numbered (lit "    ") option_tabs []; Numbered (lit "    ") option_spaces []]
           [] (lit "    ") option_spaces);
    reflexivity.
Defined.

(** ** Failures a route answers *)

Lemma plan_outcome_thrown op input e call outcome err n :
  plan op input e = inr (call, outcome) ->
  (forall k req, chat_completions_create e k req = inl err) ->
  (forall k req, images_generate e k req = inl err) ->
  outcome n = inl err.
Proof.
  unfold plan. intros H Hchat Himage.
  destruct op; repeat (case_match; simplify_eq); cbn;
    by rewrite ?Hchat, ?Himage.
Qed.

Lemma plan_required_field op input e :
  op <> Post ->
  truthy (prop input (match op with Image => lit "prompt" | _ => lit "topic" end)) = false ->
  exists err, plan op input e = inl err
    /\ errorHandler err = {| statusCode := 500; body := failure (lit "Internal server error") |}.
Proof.
  unfold plan. intros Hop Hf.
  destruct op; [done| |]; rewrite Hf; destruct input; eauto.
Qed.

Lemma missing_field op e s input :
  op <> Post ->
  cache_answer e s input = None ->
  truthy (prop input (match op with Image => lit "prompt" | _ => lit "topic" end)) = false ->
  generate op input e s
  = ({| statusCode := 500; body := failure (lit "Internal server error") |},
     looked_up s input).
Proof.
  intros Hop Hc' Hf.
  destruct (plan_required_field op input e Hop Hf) as (err & Hplan & Herr).
  assert (checks op input = []) as Hchecks by by destruct op.
  paths op input e s; agree.
  by rewrite Herr, Hchecks, app_nil_r.
Qed.

(** The image and poll routes check their one required field by hand and
    throw a plain [Error]: a request without a prompt (without a topic),
    or with an empty or otherwise falsy one, is answered with status 500
    and [Internal server error], not with a 400 and the route's message,
    after the cache lookup alone: no upstream call, no cache write. *)
Theorem missing_field_answers_500 e s input :
  cache_answer e s input = None ->
  (truthy (prop input (lit "prompt")) = false ->
   generateImage input e s
   = ({| statusCode := 500; body := failure (lit "Internal server error") |},
      looked_up s input))
  /\ (truthy (prop input (lit "topic")) = false ->
      generate_poll input e s
      = ({| statusCode := 500; body := failure (lit "Internal server error") |},
         looked_up s input)).
Proof.
  intros Hmiss. split; intros Hf.
  - by apply (missing_field Image).
  - by apply (missing_field Poll).
Qed.

(** A poll request with an empty topic. *)
Lemma missing_field_answers_500_witness :
  generate_poll (JObj [(lit "topic", JStr [])]) (answering poll_text [] api_key 0)
    (fresh (Some (working_redis ∅)))
  = ({| statusCode := 500; body := failure (lit "Internal server error") |},
     looked_up (fresh (Some (working_redis ∅))) (JObj [(lit "topic", JStr [])])).
Proof.
  apply (missing_field_answers_500 (answering poll_text [] api_key 0)
           (fresh (Some (working_redis ∅))) (JObj [(lit "topic", JStr [])]));
    reflexivity.
Defined.

(** An error of the upstream that carries an HTTP error status (400 to
    599) other than 500 (a rejected credential, a rate limit) is passed on
    as it is: on every route, a request that reached the upstream is
    answered with the upstream's status and the upstream's own message,
    and the cache is left alone. *)
Theorem upstream_error_relayed op e s input st msg :
  (forall n req, chat_completions_create e n req = inl (Error (Some st) msg)) ->
  (forall n req, images_generate e n req = inl (Error (Some st) msg)) ->
  (400 <= st <= 599)%Z -> st <> 500%Z ->
  upstream_calls (emitted s (snd (generate op input e s))) <> [] ->
  fst (generate op input e s) = {| statusCode := st; body := failure msg |}
  /\ redis (snd (generate op input e s)) = redis s.
Proof.
  intros Hchat Himage Hrange H500.
  assert (errorHandler (Error (Some st) msg) = {| statusCode := st; body := failure msg |}) as Herr.
  { unfold errorHandler. destruct (Z.eqb_spec st 0); [lia|].
    by destruct (Z.eqb_spec st 500). }
  paths op input e s; intros Hcalls;
    try (by rewrite ?upstream_calls_lookup_events, ?upstream_calls_before_only in Hcalls);
    rewrite (plan_outcome_thrown _ _ _ _ _ _ _ Hp Hchat Himage) in Ho; simplify_eq.
  by rewrite Herr.
Qed.

(** A poll request while the upstream answers 429. *)
Lemma upstream_error_relayed_witness :
  fst (generate Poll poll_body (rejecting 429 (lit "Rate limit reached") api_key 0) (fresh None))
  = {| statusCode := 429; body := failure (lit "Rate limit reached") |}
  /\ redis (snd (generate Poll poll_body (rejecting 429 (lit "Rate limit reached") api_key 0)
                   (fresh None))) = None.
Proof.
  apply (upstream_error_relayed Poll (rejecting 429 (lit "Rate limit reached") api_key 0)
           (fresh None) poll_body 429 (lit "Rate limit reached"));
    [reflexivity|reflexivity|lia|lia|].
  vm_compute. discriminate.
Defined.

(** A request costs one upstream call at most: every run on every route
    makes at most one upstream call, one cache read, one cache write and
    one schema check, and without a cache client it touches no cache at
    all. *)
Theorem request_events_bounded op e s input :
  let t := emitted s (snd (generate op input e s)) in
  (length (upstream_calls t) <= 1)%nat
  /\ (length (List.filter is_cache_get t) <= 1)%nat
  /\ (length (List.filter is_cache_set t) <= 1)%nat
  /\ (length (List.filter is_schema_check t) <= 1)%nat
  /\ (redis s = None -> cache_events t = [] /\ redis (snd (generate op input e s)) = None).
Proof.
  cbv zeta.
  paths op input e s;
    try (pose proof (plan_call _ _ _ _ _ Hp) as (Hu & Hsc & Hg & Hset));
    unfold cache_events, upstream_calls, lookup_events, checks;
    (split; [|split; [|split; [|split; [|intros Hnone; split]]]]);
    destruct (redis s) eqn:Er; destruct op; simplify_eq;
    cbn [List.filter app length is_upstream is_cache_get is_cache_set is_schema_check orb];
    rewrite ?Hu, ?Hsc, ?Hg, ?Hset;
    cbn [List.filter app length is_upstream is_cache_get is_cache_set is_schema_check orb];
    try lia; try done.
Qed.

(** ** Cache keys *)

Lemma json_nested_ind (P : json -> Prop) :
  P JNull -> (forall b, P (JBool b)) -> (forall t, P (JNum t)) -> (forall s, P (JStr s)) ->
  (forall items, Forall P items -> P (JArr items)) ->
  (forall props, Forall (fun kv => P (snd kv)) props -> P (JObj props)) ->
  forall v, P v.
Proof.
  intros Hnull Hbool Hnum Hstr Harr Hobj.
  fix IH 1. intros [| b | t | s | items | props].
  - exact Hnull.
  - apply Hbool.
  - apply Hnum.
  - apply Hstr.
  - apply Harr. induction items as [|x items IHitems]; constructor; [apply IH|exact IHitems].
  - apply Hobj. induction props as [|[k x] props IHprops]; constructor; [apply IH|exact IHprops].
Qed.

Lemma unhex_hex_digit n : n < 16 -> unhex (hex_digit n) = n.
Proof.
  intros Hn. unfold unhex, hex_digit.
  destruct (N.ltb_spec n 10).
  - destruct (N.ltb_spec (48 + n) 58); lia.
  - destruct (N.ltb_spec (87 + n) 58); lia.
Qed.

Lemma hex_digits_value c :
  c < 65536 ->
  4096 * ((c / 4096) mod 16) + 256 * ((c / 256) mod 16) + 16 * ((c / 16) mod 16) + c mod 16 = c.
Proof. intros Hc. zify. Z.to_euclidean_division_equations. lia. Qed.

Lemma unquote_unicode c rest :
  c < 65536 -> unquote_units (unicode_escape c ++ rest) = push c (unquote_units rest).
Proof.
  intros Hc. unfold unicode_escape. cbn [app unquote_units N.eqb Pos.eqb].
  rewrite !unhex_hex_digit by (apply N.mod_lt; lia).
  by rewrite hex_digits_value.
Qed.

Lemma unquote_literal c rest :
  32 <= c -> c <> 34 -> c <> 92 -> unquote_units (c :: rest) = push c (unquote_units rest).
Proof.
  intros _ H34 H92. cbn [unquote_units].
  destruct (N.eqb_spec c 34); [done|]. by destruct (N.eqb_spec c 92).
Qed.

Lemma unquote_escape_unit c rest :
  unquote_units (escape_unit c ++ rest) = push c (unquote_units rest).
Proof.
  unfold escape_unit.
  repeat match goal with
         | |- context [?a =? ?b] =>
             lazymatch b with
             | 8 => idtac | 9 => idtac | 10 => idtac | 12 => idtac | 13 => idtac
             | 34 => idtac | 92 => idtac
             end;
             destruct (N.eqb_spec a b); [subst; reflexivity|]
         end.
  destruct (N.ltb_spec c 32).
  - apply unquote_unicode. lia.
  - by apply unquote_literal.
Qed.

Lemma surrogate_bounds c :
  isHighSurrogate c || isLowSurrogate c = true -> 55296 <= c <= 57343.
Proof.
  unfold isHighSurrogate, isLowSurrogate.
  intros [[?%N.leb_le ?%N.leb_le]%andb_prop|[?%N.leb_le ?%N.leb_le]%andb_prop]%orb_prop; lia.
Qed.

(** Reading a quoted string gives the string back. *)
Lemma unquote_quote_units s r : unquote_units (quote_units s ++ 34 :: r) = Some (s, r).
Proof.
  enough ((unquote_units (quote_units s ++ 34 :: r) = Some (s, r))
          /\ forall c, unquote_units (quote_units (c :: s) ++ 34 :: r) = Some (c :: s, r))
    as [H _] by exact H.
  induction s as [|a s [IH1 IH2]].
  - split; [reflexivity|]. intros c. cbn [quote_units].
    destruct (isHighSurrogate c) eqn:Eh.
    { rewrite unquote_unicode; [reflexivity|].
      pose proof (surrogate_bounds c). rewrite Eh in *. cbn in *. lia. }
    destruct (isLowSurrogate c) eqn:El.
    { rewrite app_nil_r, unquote_unicode; [reflexivity|].
      pose proof (surrogate_bounds c). rewrite Eh, El in *. cbn in *. lia. }
    by rewrite app_nil_r, unquote_escape_unit.
  - split; [apply IH2|]. intros c.
    change (quote_units (c :: a :: s))
      with (if isHighSurrogate c
            then if isLowSurrogate a then c :: a :: quote_units s
                 else unicode_escape c ++ quote_units (a :: s)
            else if isLowSurrogate c then unicode_escape c ++ quote_units (a :: s)
                 else escape_unit c ++ quote_units (a :: s)).
    destruct (isHighSurrogate c) eqn:Eh.
    + pose proof (surrogate_bounds c) as Hc. rewrite Eh in Hc. specialize (Hc eq_refl).
      destruct (isLowSurrogate a) eqn:El.
      * pose proof (surrogate_bounds a) as Ha. rewrite El, orb_true_r in Ha.
        specialize (Ha eq_refl).
        cbn [app]. rewrite unquote_literal by lia. rewrite unquote_literal by lia.
        by rewrite IH1.
      * rewrite <- app_assoc, unquote_unicode by lia. by rewrite IH2.
    + destruct (isLowSurrogate c) eqn:El.
      * pose proof (surrogate_bounds c) as Hc. rewrite El, orb_true_r in Hc.
        specialize (Hc eq_refl).
        rewrite <- app_assoc, unquote_unicode by lia. by rewrite IH2.
      * rewrite <- app_assoc, unquote_escape_unit. by rewrite IH2.
Qed.

Lemma quote_unique s s' r r' : quote s ++ r = quote s' ++ r' -> s = s' /\ r = r'.
Proof.
  unfold quote. rewrite <- !app_assoc. cbn [app]. intros [= H].
  apply (f_equal unquote_units) in H. rewrite !unquote_quote_units in H.
  by simplify_eq.
Qed.

(** A run of characters of one class ends where the class ends. *)
Lemma span_unique (p : N -> bool) t t' r r' :
  forallb p t = true -> forallb p t' = true ->
  match r with [] => true | c :: _ => negb (p c) end = true ->
  match r' with [] => true | c :: _ => negb (p c) end = true ->
  t ++ r = t' ++ r' -> t = t' /\ r = r'.
Proof.
  revert t'. induction t as [|c t IH]; intros [|c' t'] Ht Ht' Hr Hr' H; cbn in *.
  - done.
  - subst r. apply andb_prop in Ht' as [Hc _]. by rewrite Hc in Hr.
  - subst r'. apply andb_prop in Ht as [Hc _]. by rewrite Hc in Hr'.
  - apply andb_prop in Ht as [_ Ht]. apply andb_prop in Ht' as [_ Ht'].
    injection H as -> H. destruct (IH t' Ht Ht' Hr Hr' H) as [-> ->]. done.
Qed.

Lemma closes_not_number r :
  closes r = true -> match r with [] => true | c :: _ => negb (isNumberChar c) end = true.
Proof.
  destruct r as [|c r]; [done|]. cbn [closes].
  intros [[->%N.eqb_eq | ->%N.eqb_eq]%orb_prop | ->%N.eqb_eq]%orb_prop; reflexivity.
Qed.

Lemma stringify_starts v :
  document v = true -> exists c t, JSON_stringify v = c :: t /\ starts v c = true.
Proof.
  destruct v as [|[|]|[|c t]|s|items|props]; intros H; try done;
    try (by eexists _, _; split; [reflexivity|reflexivity]).
  exists c, t. split; [reflexivity|]. cbn in H. by apply andb_prop in H as [? _].
Qed.

Lemma starts_closes v c :
  starts v c = true -> (c =? 44) || (c =? 93) || (c =? 125) = false.
Proof.
  destruct v as [|[|]| | | |]; cbn [starts]; try (by intros ->%N.eqb_eq).
  unfold isNumberChar, isDigit. intros H.
  destruct (N.eqb_spec c 44) as [->|]; [done|].
  destruct (N.eqb_spec c 93) as [->|]; [done|].
  by destruct (N.eqb_spec c 125) as [->|].
Qed.

(** What follows the first of the elements of an array or object. *)
Lemma join_cons_app (p : jsstring) rest R :
  join [44] (p :: rest) ++ R
  = p ++ match rest with [] => R | _ :: _ => 44 :: join [44] rest ++ R end.
Proof. destruct rest; cbn [join]; [reflexivity|]. by rewrite <- !app_assoc. Qed.

Lemma closes_after (rest : list jsstring) close r :
  close = 93 \/ close = 125 ->
  closes match rest with [] => close :: r | _ :: _ => 44 :: join [44] rest ++ close :: r end = true.
Proof. intros [-> | ->]; by destruct rest. Qed.

(** The elements of an array or object are read back one by one. *)
Lemma join_unique {A} (f : A -> jsstring) (good : A -> Prop) (close : N) xs :
  close = 93 \/ close = 125 ->
  (forall y, good y -> exists c t, f y = c :: t /\ c <> close) ->
  Forall (fun x => forall y R R', good y -> closes R = true -> closes R' = true ->
                                  f x ++ R = f y ++ R' -> x = y /\ R = R') xs ->
  Forall good xs ->
  forall ys r r', Forall good ys ->
    join [44] (List.map f xs) ++ close :: r = join [44] (List.map f ys) ++ close :: r' ->
    xs = ys /\ r = r'.
Proof.
  intros Hclose Hhead Hxs Hgood.
  induction Hxs as [|x xs Hx Hxs IH]; intros ys r r' Hys H.
  - destruct ys as [|y ys]; [by simplify_eq/=|].
    inversion Hys as [|? ? Hy _]; subst.
    destruct (Hhead y Hy) as (c & t & Ey & Hc).
    cbn [List.map] in H. rewrite join_cons_app, Ey in H. cbn in H. by simplify_eq.
  - inversion Hgood as [|? ? Hgx Hgxs]; subst.
    destruct ys as [|y ys].
    { destruct (Hhead x Hgx) as (c & t & Ex & Hc).
      cbn [List.map] in H. rewrite join_cons_app, Ex in H. cbn in H. by simplify_eq. }
    inversion Hys as [|? ? Hy Hys']; subst.
    cbn [List.map] in H. rewrite !join_cons_app in H.
    apply Hx in H as [-> H]; [|exact Hy|by apply closes_after..].
    destruct xs as [|x' xs], ys as [|y' ys]; cbn [List.map] in H.
    + by simplify_eq.
    + injection H as -> _. by destruct Hclose.
    + injection H as <- _. by destruct Hclose.
    + injection H as H. destruct (IH Hgxs (y' :: ys) r r' Hys' H) as [-> ->]. done.
Qed.

Lemma starts_agree v v' c :
  starts v c = true -> starts v' c = true ->
  match v, v' with
  | JNull, JNull | JNum _, JNum _ | JStr _, JStr _ | JArr _, JArr _ | JObj _, JObj _ => True
  | JBool b, JBool b' => b = b'
  | _, _ => False
  end.
Proof.
  destruct v as [|[|]| | | |], v' as [|[|]| | | |]; cbn [starts]; try done;
    try (by intros ->%N.eqb_eq); by intros H ->%N.eqb_eq.
Qed.

Lemma stringify_array items r :
  JSON_stringify (JArr items) ++ r
  = 91 :: join [44] (List.map JSON_stringify items) ++ 93 :: r.
Proof.
  change (JSON_stringify (JArr items))
    with ([91] ++ join [44] (List.map JSON_stringify items) ++ [93]).
  by rewrite <- !app_assoc.
Qed.

Lemma stringify_object props r :
  JSON_stringify (JObj props) ++ r
  = 123 :: join [44] (List.map property_text props) ++ 125 :: r.
Proof.
  change (JSON_stringify (JObj props))
    with ([123] ++ join [44] (List.map property_text props) ++ [125]).
  by rewrite <- !app_assoc.
Qed.

Lemma forallb_true_Forall {A} (f : A -> bool) l :
  forallb f l = true -> Forall (fun x => f x = true) l.
Proof. intros H. apply List.Forall_forall. by apply forallb_forall. Qed.

(** A value is read back from the front of a text in one way only. *)
Lemma stringify_unique v :
  document v = true ->
  forall v' r r', document v' = true -> closes r = true -> closes r' = true ->
    JSON_stringify v ++ r = JSON_stringify v' ++ r' -> v = v' /\ r = r'.
Proof.
  induction v as [|b|t|s|items IH|props IH] using json_nested_ind;
    intros Hv v' r r' Hv' Hr Hr' H;
    destruct (stringify_starts _ Hv) as (c & x & Ec & Hc);
    destruct (stringify_starts _ Hv') as (c' & x' & Ec' & Hc');
    pose proof H as Hhead; rewrite Ec, Ec' in Hhead; injection Hhead as <- _;
    pose proof (starts_agree _ _ _ Hc Hc') as Hsame;
    destruct v' as [|b'|t'|s'|items'|props']; try done; clear Hc Hc' Ec Ec' x x' c.
  - by apply app_inv_head in H.
  - subst b'. by apply app_inv_head in H.
  - destruct (span_unique isNumberChar t t' r r') as [-> ->]; try done.
    + cbn [document] in Hv. by destruct t.
    + cbn [document] in Hv'. by destruct t'.
    + by apply closes_not_number.
    + by apply closes_not_number.
  - change (quote s ++ r = quote s' ++ r') in H. by apply quote_unique in H as [-> ->].
  - rewrite !stringify_array in H. injection H as H.
    change (forallb document items = true) in Hv.
    change (forallb document items' = true) in Hv'.
    apply forallb_true_Forall in Hv, Hv'.
    destruct (join_unique JSON_stringify (fun x => document x = true) 93 items)
      with (ys := items') (r := r) (r' := r') as [-> ->]; try done.
    + by left.
    + intros y Hy. destruct (stringify_starts y Hy) as (c & t & Ey & Hc).
      exists c, t. split; [exact Ey|]. intros ->.
      by pose proof (starts_closes y 93 Hc).
    + apply List.Forall_forall. intros x Hx y R R' Hy.
      rewrite List.Forall_forall in IH, Hv. by apply IH; [|apply Hv|].
  - rewrite !stringify_object in H. injection H as H.
    change (forallb (fun kv => document (snd kv)) props = true) in Hv.
    change (forallb (fun kv => document (snd kv)) props' = true) in Hv'.
    apply forallb_true_Forall in Hv, Hv'.
    destruct (join_unique property_text (fun kv => document (snd kv) = true) 125 props)
      with (ys := props') (r := r) (r' := r') as [-> ->]; try done.
    + by right.
    + intros [k y] _. by eexists _, _.
    + apply List.Forall_forall. intros [k x] Hx [k' y] R R' Hy HR HR'.
      unfold property_text. cbn [fst snd]. rewrite <- !app_assoc.
      intros [-> Hrest]%quote_unique. cbn [app] in Hrest. injection Hrest as Hrest.
      rewrite List.Forall_forall in IH, Hv.
      destruct (IH (k', x) Hx (Hv _ Hx) y R R' Hy HR HR' Hrest) as [Heq ->].
      cbn [snd] in Heq. by subst.
Qed.

(** Two documents with one text are one document. *)
Lemma JSON_stringify_inj v v' :
  document v = true -> document v' = true ->
  JSON_stringify v = JSON_stringify v' -> v = v'.
Proof.
  intros Hv Hv' H.
  destruct (stringify_unique v Hv v' [] [] Hv' eq_refl eq_refl) as [-> _]; [|done].
  by rewrite !app_nil_r.
Qed.

Lemma poll_key_other input input' : poll_key input <> checkCache_key input'.
Proof. intros H. apply (f_equal head) in H. discriminate H. Qed.

Lemma image_key_other prompt input' : image_key prompt <> checkCache_key input'.
Proof. intros H. apply (f_equal head) in H. discriminate H. Qed.

Lemma checkCache_key_inj input input' :
  document input = true -> document input' = true ->
  checkCache_key input = checkCache_key input' -> input = input'.
Proof.
  intros Hd Hd' H. unfold checkCache_key in H.
  apply app_inv_head in H. by apply JSON_stringify_inj.
Qed.

(** Two requests share a cache key only when their bodies are the same
    document: [JSON.stringify] loses nothing of a document, so neither do
    the key the lookup reads and the keys the content and poll routes
    write. *)
Theorem cache_keys_injective :
  (forall v v', document v = true -> document v' = true ->
                JSON_stringify v = JSON_stringify v' -> v = v')
  /\ (forall input input', document input = true -> document input' = true ->
                           checkCache_key input = checkCache_key input' -> input = input')
  /\ (forall input input', document input = true -> document input' = true ->
                           post_key input = post_key input' -> input = input')
  /\ (forall input input', document input = true -> document input' = true ->
                           poll_key input = poll_key input' -> input = input').
Proof.
  split; [apply JSON_stringify_inj|].
  repeat split; intros input input' Hd Hd' H; apply app_inv_head in H;
    by apply JSON_stringify_inj.
Qed.

Lemma result_key_other op input input' :
  document input = true -> document input' = true -> input' <> input ->
  result_key op input <> checkCache_key input'.
Proof.
  intros Hd Hd' Hne. destruct op.
  - intros H. apply Hne. symmetry. by apply checkCache_key_inj.
  - apply image_key_other.
  - apply poll_key_other.
Qed.

Lemma cache_answer_add_events e s evs input :
  cache_answer e (add_events s evs) input = cache_answer e s input.
Proof. reflexivity. Qed.

(** A request changes what the cache answers to no other request: after
    any request on any route, the cache answers a request with another
    body as it did before. *)
Theorem other_requests_unaffected op e e' s input input' :
  document input = true -> document input' = true -> input' <> input ->
  cache_answer e' (snd (generate op input e s)) input' = cache_answer e' s input'.
Proof.
  intros Hd Hd' Hne.
  paths op input e s; try reflexivity.
  unfold cache_answer, live_entry, stored. cbn [redis get_error entries]. rewrite Hr.
  destruct (get_error r0); [done|].
  by rewrite lookup_insert_ne by by apply result_key_other.
Qed.

(** A content request leaves what the cache answers to a poll request. *)
Lemma other_requests_unaffected_witness :
  cache_answer (answering poll_text [] api_key 60)
    (snd (generate Post post_body (answering poll_text [] api_key 0)
            (fresh (Some (working_redis ∅)))))
    post_body_draft
  = cache_answer (answering poll_text [] api_key 60) (fresh (Some (working_redis ∅)))
      post_body_draft.
Proof.
  apply (other_requests_unaffected Post (answering poll_text [] api_key 0)
           (answering poll_text [] api_key 60) (fresh (Some (working_redis ∅)))
           post_body post_body_draft);
    [reflexivity|reflexivity|discriminate].
Defined.

Lemma contentSchema_declared props props' :
  (forall k, In k (List.map fst constraints) -> lookup_prop k props = lookup_prop k props') ->
  contentSchema (JObj props) = contentSchema (JObj props').
Proof.
  intros H. unfold contentSchema.
  rewrite !(H (lit "postType")), !(H (lit "topic")), !(H (lit "audience")), !(H (lit "style")),
    !(H (lit "guidelines")), !(H (lit "preferences"));
    first [reflexivity | cbn; tauto].
Qed.

Lemma response_of_plan op input e s :
  cache_answer e s input = None ->
  fst (generate op input e s)
  = match plan op input e with
    | inl err => errorHandler err
    | inr (call, outcome) =>
        match outcome (length (upstream_calls (trace s))) with
        | inl err => errorHandler err
        | inr result =>
            match redis s with
            | Some {| setex_error := Some err |} => errorHandler err
            | _ => ok result
            end
        end
    end.
Proof.
  intros Hmiss. paths op input e s; agree; rewrite ?Hp, ?Ho, ?Hr; try done.
  - destruct r0 as [m g w]. cbn in Hs. by subst.
  - destruct r0 as [m g w]. cbn in Hs. by subst.
Qed.

(** The content route reads the six properties its schema declares and
    nothing else: two bodies that agree on them validate to the same
    request and, when the cache answers neither, get the same response. *)
Theorem undeclared_properties_ignored props props' e s :
  (forall k, In k (List.map fst constraints) -> lookup_prop k props = lookup_prop k props') ->
  cache_answer e s (JObj props) = None -> cache_answer e s (JObj props') = None ->
  contentSchema (JObj props) = contentSchema (JObj props')
  /\ fst (generatePost (JObj props) e s) = fst (generatePost (JObj props') e s).
Proof.
  intros Hsame Hmiss Hmiss'.
  pose proof (contentSchema_declared _ _ Hsame) as Hschema.
  split; [exact Hschema|].
  change generatePost with (generate Post).
  rewrite !response_of_plan by done.
  unfold plan. by rewrite Hschema.
Qed.

(** The same request with and without a [draft] property. *)
Lemma undeclared_properties_ignored_witness :
  contentSchema post_body = contentSchema post_body_draft
  /\ fst (generatePost post_body (answering poll_text [] api_key 0) (fresh None))
     = fst (generatePost post_body_draft (answering poll_text [] api_key 0) (fresh None)).
Proof.
  apply (undeclared_properties_ignored
           [(lit "postType", JStr (lit "post")); (lit "topic", JStr (lit "remote work"))]
           [(lit "postType", JStr (lit "post")); (lit "topic", JStr (lit "remote work"));
            (lit "draft", JBool true)]
           (answering poll_text [] api_key 0) (fresh None));
    [|reflexivity|reflexivity].
  intros k Hk. cbn in Hk.
  repeat (destruct Hk as [<-|Hk]; [reflexivity|]). destruct Hk.
Defined.

(** ** What the store holds *)

Lemma success_ok v : success (ok v) = prop v (lit "success").
Proof. by destruct v. Qed.

Lemma successful_success v : successful v = true -> success (ok v) = Some (JBool true).
Proof.
  rewrite success_ok. unfold successful.
  by destruct (prop v (lit "success")) as [[|[|]| | | |]|].
Qed.

Lemma success_successful v : success (ok v) = Some (JBool true) -> successful v = true.
Proof. rewrite success_ok. unfold successful. by intros ->. Qed.

Lemma cache_answer_entry e s input v :
  cache_answer e s input = Some v ->
  exists r t, redis s = Some r /\ entries r !! checkCache_key input = Some (v, t).
Proof.
  unfold cache_answer, live_entry. intros H.
  destruct (redis s) as [r|]; [|done]. destruct (get_error r); [done|].
  destruct (entries r !! checkCache_key input) as [[v' t]|] eqn:E; [|done].
  destruct (now e <? t)%Z; [|done]. simplify_eq. eauto.
Qed.

Lemma holds_successes_add s evs : holds_successes s -> holds_successes (add_events s evs).
Proof. done. Qed.

(** One request keeps the store a store of successes, and is answered
    with a success or a failure. *)
Lemma generate_holds_successes op input e s :
  holds_successes s ->
  holds_successes (snd (generate op input e s))
  /\ success_or_failure (fst (generate op input e s)).
Proof.
  intros Hinv. unfold success_or_failure.
  paths op input e s; (split; [try exact Hinv|]);
    try (right; apply errorHandler_success).
  - left. split; [|done].
    destruct (cache_answer_entry _ _ _ _ Hc) as (r & t & Hr & Hentry).
    unfold holds_successes in Hinv. rewrite Hr in Hinv.
    apply successful_success. exact (Hinv _ _ Hentry).
  - left. split; [|done]. by apply (planned_result_success _ _ _ _ _ _ _ Hp Ho).
  - unfold holds_successes, stored in *. cbn [redis entries]. rewrite Hr in Hinv.
    apply map_Forall_insert_2; [|exact Hinv].
    cbn [fst]. apply success_successful.
    by apply (planned_result_success _ _ _ _ _ _ _ Hp Ho).
  - left. split; [|done]. by apply (planned_result_success _ _ _ _ _ _ _ Hp Ho).
Qed.

(** Whatever the requests, the upstream and the clock: a store that
    holds documents with [success: true] only (an empty one, say) still
    does so after any sequence of requests, and every request of the
    sequence, answered from the store or not, gets a success with status
    200 or a failure. *)
Theorem store_holds_successes reqs s :
  holds_successes s ->
  holds_successes (snd (serve reqs s))
  /\ Forall success_or_failure (fst (serve reqs s)).
Proof.
  revert s. induction reqs as [|[[op input] e] reqs IH]; intros s Hinv.
  - by split.
  - cbn [serve].
    destruct (generate_holds_successes op input e s Hinv) as [Hinv1 Hresp].
    destruct (generate op input e s) as [r s1]. cbn [fst snd] in *.
    destruct (IH s1 Hinv1) as [Hinv2 Hrs].
    destruct (serve reqs s1) as [rs s2]. cbn [fst snd] in *.
    split; [exact Hinv2|]. by constructor.
Qed.

Lemma store_holds_successes_witness :
  holds_successes
    (snd (serve [(Post, post_body, answering poll_text [] api_key 0);
                 (Post, post_body, answering poll_text [] api_key 60);
                 (Poll, JObj [], timing_out api_key 120)]
            (fresh (Some (working_redis ∅)))))
  /\ Forall success_or_failure
       (fst (serve [(Post, post_body, answering poll_text [] api_key 0);
                    (Post, post_body, answering poll_text [] api_key 60);
                    (Poll, JObj [], timing_out api_key 120)]
               (fresh (Some (working_redis ∅))))).
Proof.
  apply store_holds_successes. apply map_Forall_empty.
Defined.

(** ** The poll form and the server *)

Lemma server_poll e b s :
  server e (lit "/api/generate-poll") b s = deliver (generate_poll b e s).
Proof. reflexivity. Qed.

Lemma server_image e b s :
  server e (lit "/api/generateImage") b s = deliver (generateImage b e s).
Proof. reflexivity. Qed.

(** A request the cache does not answer, whose call succeeds and whose
    write does not fail, is answered with the result; what the cache
    answers changes under the key of the result alone. *)
Lemma generate_success op input e s call outcome result :
  plan op input e = inr (call, outcome) ->
  outcome (length (upstream_calls (trace s))) = inr result ->
  cache_answer e s input = None ->
  (forall r, redis s = Some r -> setex_error r = None) ->
  fst (generate op input e s) = ok result
  /\ upstream_calls (trace (snd (generate op input e s))) = upstream_calls (trace s) ++ [call]
  /\ (forall e' input', result_key op input <> checkCache_key input' ->
        cache_answer e' (snd (generate op input e s)) input' = cache_answer e' s input')
  /\ (forall r, redis (snd (generate op input e s)) = Some r -> setex_error r = None).
Proof.
  intros Hplan Hout Hmiss Hset.
  paths op input e s; agree.
  - split; [done|]. split; [|done].
    cbn [add_events trace]. rewrite upstream_calls_app, upstream_calls_before.
    by rewrite (upstream_calls_call _ _ _ _ _ _ Hplan).
  - by rewrite (Hset _ Hr) in Hs.
  - split; [done|]. split; [|split].
    + cbn [trace]. rewrite upstream_calls_app, upstream_calls_before.
      by rewrite (upstream_calls_call _ _ _ _ _ _ Hplan).
    + intros e' input' Hne. unfold cache_answer, live_entry, stored.
      cbn [redis get_error entries]. rewrite Hr.
      destruct (get_error r0); [done|]. by rewrite lookup_insert_ne.
    + cbn [redis]. intros r [= <-]. exact Hs.
Qed.

Section EndToEnd.

Variables (c : Polls) (e : Env) (s : State) (l : PollLine) (ls : list PollLine) (url : jsstring).

Hypothesis Htopic : truthy_string (trim (polls_topic c)) = true.
Hypothesis Hkey : api_key_missing e = false.
Hypothesis Hpoll_miss : cache_answer e s (poll_request c) = None.
Hypothesis Himage_miss : cache_answer e s (image_request (Some (JStr (text l)))) = None.
Hypothesis Hset : forall r, redis s = Some r -> setex_error r = None.
Hypothesis Hwf : forallb well_formed_line (l :: ls) = true.
Hypothesis Hchat :
  forall n req, exists u,
    chat_completions_create e n req = inr {| choices := [Some (render (l :: ls))]; usage := u |}.
Hypothesis Himage :
  forall n req, images_generate e n req = inr {| data := Some [Some url] |}.
Hypothesis Hurl : url <> [].

Lemma polls_topic_truthy : truthy (prop (poll_request c) (lit "topic")) = true.
Proof.
  change (truthy_string (polls_topic c) = true).
  destruct (polls_topic c); [done|reflexivity].
Qed.

Lemma polls_plan :
  exists call outcome,
    plan Poll (poll_request c) e = inr (call, outcome)
    /\ forall n, outcome n = inr (poll_data l ls).
Proof.
  unfold plan. rewrite polls_topic_truthy, Hkey.
  eexists _, _. split; [reflexivity|]. intros n. cbn beta.
  unfold poll_outcome.
  match goal with
  | |- context [chat_completions_create e n ?req] => destruct (Hchat n req) as [u ->]
  end.
  cbn [choices lookup list_lookup]. by apply poll_result_render.
Qed.

Lemma polls_image_plan :
  exists call outcome,
    plan Image (image_request (Some (JStr (text l)))) e = inr (call, outcome)
    /\ forall n, outcome n = inr (JObj [(lit "success", JBool true); (lit "imageUrl", JStr url)]).
Proof.
  unfold plan.
  assert (truthy (prop (image_request (Some (JStr (text l)))) (lit "prompt")) = true) as ->
    by reflexivity.
  rewrite Hkey. cbn [image_request].
  eexists _, _. split; [reflexivity|]. intros n. cbn beta.
  rewrite Himage. unfold image_outcome. cbn [data].
  by destruct url.
Qed.

Lemma server_answers_poll :
  exists s1,
    server e (lit "/api/generate-poll") (poll_request c) s
    = (inr {| status := 200; payload := Some (poll_data l ls) |}, s1)
    /\ cache_answer e s1 (image_request (Some (JStr (text l)))) = None
    /\ (forall r, redis s1 = Some r -> setex_error r = None).
Proof.
  destruct polls_plan as (call & outcome & Hplan & Hout).
  destruct (generate_success Poll (poll_request c) e s call outcome (poll_data l ls)
              Hplan (Hout _) Hpoll_miss Hset) as (Hresp & _ & Hother & Hset').
  exists (snd (generate Poll (poll_request c) e s)).
  split; [|split; [|exact Hset']].
  - rewrite server_poll. unfold deliver.
    change (generate_poll (poll_request c) e s) with (generate Poll (poll_request c) e s).
    by rewrite Hresp.
  - rewrite Hother; [exact Himage_miss|]. apply poll_key_other.
Qed.

Lemma server_answers_image s1 :
  cache_answer e s1 (image_request (Some (JStr (text l)))) = None ->
  (forall r, redis s1 = Some r -> setex_error r = None) ->
  exists s2,
    server e (lit "/api/generateImage") (image_request (Some (JStr (text l)))) s1
    = (inr {| status := 200; payload := Some (image_data url) |}, s2).
Proof.
  intros Hmiss Hset'.
  destruct polls_image_plan as (call & outcome & Hplan & Hout).
  destruct (generate_success Image (image_request (Some (JStr (text l)))) e s1 call outcome _
              Hplan (Hout _) Hmiss Hset') as (Hresp & _).
  eexists. rewrite server_image. unfold deliver.
  change (generateImage ?b e s1) with (generate Image b e s1).
  by rewrite Hresp.
Qed.

Lemma generatePoll_server :
  generatedPoll (fst (generatePoll (server e) c s))
  = Some {| question := Some (JStr (text l));
            options := Some (JArr (List.map (fun x => JStr (text x)) (take 3 ls)));
            explanation := None;
            imageUrl := Some (JStr url) |}
  /\ isLoading (fst (generatePoll (server e) c s)) = false
  /\ alerts (fst (generatePoll (server e) c s)) = alerts c.
Proof.
  destruct server_answers_poll as (s1 & Hpoll & Hmiss1 & Hset1).
  destruct (server_answers_image s1 Hmiss1 Hset1) as (s2 & Himg).
  assert (fetch_image (server e) (poll_data l ls) s1 = (Some (JStr url), s2)) as Hfi.
  { unfold fetch_image.
    change (prop (poll_data l ls) (lit "question")) with (Some (JStr (text l))).
    rewrite Himg. cbn [payload].
    assert (truthy (prop (image_data url) (lit "imageUrl")) = true) as Hu
      by (change (truthy_string url = true); by destruct url).
    change (truthy (prop (image_data url) (lit "success"))) with true.
    fold (image_data url). by rewrite Hu. }
  unfold generatePoll. rewrite Htopic. cbn [negb].
  unfold fetch_poll.
  change (poll_request (setGeneratedPoll None (setIsLoading true c))) with (poll_request c).
  rewrite Hpoll.
  change (response_ok _) with true. cbn [negb payload].
  fold (poll_data l ls).
  change (truthy (prop (poll_data l ls) (lit "success"))) with true. cbn [negb].
  rewrite Hfi. done.
Qed.

(** From the click to the clipboard. With a topic in the form, a
    credential configured, a store that answers neither request and
    takes writes, an upstream that answers every chat call with the
    well-formed numbered lines [l :: ls] and every image call with [url]:
    the component shows the text of the first line as the question and
    the texts of the next three lines as the options, with the image and
    no explanation, raises no alert and stops loading; and copying the
    poll writes the question and the options labelled A, B, C. A fifth and
    a sixth line (the fourth option and the explanation the prompt asks
    for) never reach the component. *)
Theorem generatePoll_end_to_end :
  let shown := fst (generatePoll (server e) c s) in
  generatedPoll shown
  = Some {| question := Some (JStr (text l));
            options := Some (JArr (List.map (fun x => JStr (text x)) (take 3 ls)));
            explanation := None;
            imageUrl := Some (JStr url) |}
  /\ isLoading shown = false
  /\ alerts shown = alerts c
  /\ exists copied,
       copyPollToClipboard shown = inr copied
       /\ clipboard copied
          = Some ([55357; 56522; 32] ++ text l ++ [10; 10]
                  ++ join [10] (zip_with (fun letter x => letter :: lit ". " ++ text x)
                                  (lit "ABC") (take 3 ls))).
Proof.
  cbv zeta. destruct generatePoll_server as (Hpoll & Hloading & Halerts).
  split; [exact Hpoll|]. split; [exact Hloading|]. split; [exact Halerts|].
  unfold copyPollToClipboard. rewrite Hpoll. unfold pollText. cbn [options question].
  eexists. split; [reflexivity|]. cbn [writeText clipboard interpolate ToString].
  do 4 f_equal.
  destruct ls as [|a [|b [|d ls']]]; reflexivity.
Qed.

End EndToEnd.

(** The form with a topic, on a server with a working empty store whose
    upstream answers with three numbered lines. *)
Lemma generatePoll_end_to_end_witness :
  let shown :=
    fst (generatePoll
           (server (answering (render [tabs_or_spaces; option_tabs; option_spaces])
                      (lit "https://img/1.png") api_key 0))
           polls_form (fresh (Some (working_redis ∅)))) in
  generatedPoll shown
  = Some {| question := Some (JStr (lit "Tabs or spaces?"));
            options := Some (JArr [JStr (lit "Tabs"); JStr (lit "Spaces")]);
            explanation := None;
            imageUrl := Some (JStr (lit "https://img/1.png")) |}
  /\ isLoading shown = false
  /\ alerts shown = []
  /\ exists copied,
       copyPollToClipboard shown = inr copied
       /\ clipboard copied
          = Some ([55357; 56522; 32] ++ lit "Tabs or spaces?" ++ [10; 10]
                  ++ lit "A. Tabs" ++ [10] ++ lit "B. Spaces").
Proof.
  apply (generatePoll_end_to_end polls_form
           (answering (render [tabs_or_spaces; option_tabs; option_spaces])
              (lit "https://img/1.png") api_key 0)
           (fresh (Some (working_redis ∅)))
           tabs_or_spaces [option_tabs; option_spaces] (lit "https://img/1.png"));
    try reflexivity; try discriminate.
  - intros r [= <-]. reflexivity.
  - intros n req. eexists. reflexivity.
Defined.

(** A request appends its events to the trace, one upstream call at most
    among them. *)
Lemma generate_extends op input e s :
  exists evs, trace (snd (generate op input e s)) = trace s ++ evs
              /\ (length (upstream_calls evs) <= 1)%nat.
Proof.
  paths op input e s; eexists; (split; [reflexivity|]);
    rewrite ?upstream_calls_lookup_events, ?upstream_calls_before_only, ?upstream_calls_before;
    try (cbn [length]; lia);
    pose proof (plan_call _ _ _ _ _ Hp) as (Hu & _);
    unfold upstream_calls; cbn [List.filter is_upstream]; rewrite Hu; cbn [length]; lia.
Qed.

Lemma polls_plan_call c e :
  truthy_string (trim (polls_topic c)) = true ->
  api_key_missing e = false ->
  exists outcome,
    plan Poll (poll_request c) e
    = inr (ChatCall {| chat_model := lit "gpt-4o-mini";
                       chat_system := system_poll;
                       chat_user := poll_prompt (Some (JStr (polls_topic c)))
                                      (Some (JStr (polls_audience c)))
                                      (Some (JStr (polls_style c)))
                                      (Some (JStr (polls_guidelines c)));
                       chat_sampling := None |}, outcome).
Proof.
  intros Htopic Hkey. unfold plan.
  assert (truthy (prop (poll_request c) (lit "topic")) = true) as ->.
  { change (truthy_string (polls_topic c) = true).
    destruct (polls_topic c); [done|reflexivity]. }
  rewrite Hkey. eexists. reflexivity.
Qed.

(** What the component sends is what the server asks the upstream. A
    click with a topic in the form, on a server with a credential whose
    store does not answer, makes exactly one upstream call: the poll
    prompt with the four fields of the form as they are (an empty field
    is sent as an empty text, not as a default), whatever the platforms
    preference sent along. The route's own check of the topic never
    rejects a request of the component. *)
Theorem polls_request_reaches_upstream c e s :
  truthy_string (trim (polls_topic c)) = true ->
  api_key_missing e = false ->
  cache_answer e s (poll_request c) = None ->
  upstream_calls (emitted s (snd (generate_poll (poll_request c) e s)))
  = [ChatCall {| chat_model := lit "gpt-4o-mini";
                 chat_system := system_poll;
                 chat_user := poll_prompt (Some (JStr (polls_topic c)))
                                (Some (JStr (polls_audience c)))
                                (Some (JStr (polls_style c)))
                                (Some (JStr (polls_guidelines c)));
                 chat_sampling := None |}].
Proof.
  intros Htopic Hkey Hmiss.
  destruct (polls_plan_call c e Htopic Hkey) as (outcome & Hplan).
  change (generate_poll (poll_request c) e s) with (generate Poll (poll_request c) e s).
  paths Poll (poll_request c) e s; agree;
    rewrite upstream_calls_before; reflexivity.
Qed.

(** The form with the topic [indentation] and nothing else. *)
Lemma polls_request_reaches_upstream_witness :
  upstream_calls
    (emitted (fresh None)
       (snd (generate_poll (poll_request polls_form) (answering poll_text [] api_key 0)
               (fresh None))))
  = [ChatCall {| chat_model := lit "gpt-4o-mini";
                 chat_system := system_poll;
                 chat_user := poll_prompt (Some (JStr (lit "indentation"))) (Some (JStr []))
                                (Some (JStr [])) (Some (JStr []));
                 chat_sampling := None |}].
Proof.
  apply (polls_request_reaches_upstream polls_form (answering poll_text [] api_key 0)
           (fresh None));
    reflexivity.
Defined.

(** A click on the button. Without a topic (white space does not count)
    nothing is sent and the component asks for one. With a topic the
    component stops loading whatever happens, the server calls the
    upstream twice at most, and either the poll request failed, and then
    no image is asked for and one alert is raised, or the poll of the
    response is shown without an alert, whatever became of the image. *)
Theorem generatePoll_click c e s :
  (truthy_string (trim (polls_topic c)) = false ->
   generatePoll (server e) c s = (alert (lit "Please provide a topic for the poll") c, s))
  /\ (truthy_string (trim (polls_topic c)) = true ->
      let shown := fst (generatePoll (server e) c s) in
      let s' := snd (generatePoll (server e) c s) in
      let response := fst (generate_poll (poll_request c) e s) in
      isLoading shown = false
      /\ (length (upstream_calls (emitted s s')) <= 2)%nat
      /\ ((generatedPoll shown = None
           /\ alerts shown = alerts c ++ [lit "Failed to generate poll. Please try again."]
           /\ s' = snd (generate_poll (poll_request c) e s))
          \/ (exists image,
                generatedPoll shown
                = Some {| question := prop (body response) (lit "question");
                          options := prop (body response) (lit "options");
                          explanation := prop (body response) (lit "explanation");
                          imageUrl := image |}
                /\ alerts shown = alerts c
                /\ truthy (success response) = true))).
Proof.
  split.
  { intros Hblank. unfold generatePoll. by rewrite Hblank. }
  intros Htopic. cbv zeta.
  unfold generatePoll. rewrite Htopic. cbn [negb].
  unfold fetch_poll.
  change (poll_request (setGeneratedPoll None (setIsLoading true c))) with (poll_request c).
  rewrite server_poll. unfold deliver.
  change (generate_poll (poll_request c) e s) with (generate Poll (poll_request c) e s).
  destruct (generate_extends Poll (poll_request c) e s) as (evs1 & Ht1 & Hn1).
  destruct (generate Poll (poll_request c) e s) as [resp s1]. cbn [fst snd] in *.
  assert (forall sh : Polls, (length (upstream_calls (emitted s s1)) <= 2)%nat) as Hcount1.
  { intros _. unfold emitted. rewrite Ht1, drop_app_length. lia. }
  cbn [payload].
  destruct (response_ok _) eqn:Eok; cbn [negb];
    [|split; [done|]; split; [by apply Hcount1|]; by left].
  unfold success.
  destruct (body resp) as [| | | | |props] eqn:Ebody;
    try (split; [done|]; split; [by apply Hcount1|]; by left).
  cbn [prop].
  destruct (truthy (lookup_prop (lit "success") props)) eqn:Esucc; cbn [negb];
    [|split; [done|]; split; [by apply Hcount1|]; by left].
  unfold fetch_image. rewrite server_image. unfold deliver.
  change (generateImage ?b e s1) with (generate Image b e s1).
  match goal with
  | |- context [generate Image ?b e s1] =>
      destruct (generate_extends Image b e s1) as (evs2 & Ht2 & Hn2);
      destruct (generate Image b e s1) as [resp2 s2]
  end.
  cbn [fst snd payload] in *.
  assert ((length (upstream_calls (emitted s s2)) <= 2)%nat) as Hcount2.
  { unfold emitted. rewrite Ht2, Ht1, <- app_assoc, drop_app_length.
    rewrite upstream_calls_app, length_app. lia. }
  destruct (body resp2) as [| | | | |props2];
    try destruct (_ && _);
    (split; [done|]; split; [exact Hcount2|]; right; eexists; done).
Qed.

(** A click on the form with a topic, while the upstream times out. *)
Lemma generatePoll_click_witness :
  isLoading (fst (generatePoll (server (timing_out api_key 0)) polls_form (fresh None))) = false
  /\ (length (upstream_calls
                (emitted (fresh None)
                   (snd (generatePoll (server (timing_out api_key 0)) polls_form
                           (fresh None))))) <= 2)%nat.
Proof.
  destruct (proj2 (generatePoll_click polls_form (timing_out api_key 0) (fresh None)) eq_refl)
    as (Hloading & Hcalls & _).
  split; [exact Hloading|exact Hcalls].
Defined.

(** ** The marker, exactly *)

Lemma dropWhile_span p s :
  exists pre, s = pre ++ dropWhile p s /\ forallb p pre = true.
Proof.
  induction s as [|a s (pre & IH & Hpre)]; simpl.
  - by exists [].
  - destruct (p a) eqn:Ea.
    + exists (a :: pre). simpl. rewrite Ea. split; [by f_equal|exact Hpre].
    + by exists [].
Qed.

Lemma dropWhile_whitespace_gap g t :
  forallb isWhiteSpace g = true ->
  match t with [] => true | c :: _ => negb (isWhiteSpace c) end = true ->
  dropWhile isWhiteSpace (g ++ t) = t.
Proof.
  intros Hg Ht. rewrite dropWhile_all by exact Hg.
  destruct t as [|c t]; [reflexivity|].
  apply dropWhile_stop. by apply negb_true_iff.
Qed.

(** The marker the poll parser removes is what the regular expression
    [/^[0-9]+\.\s*/] matches, and nothing else: on a line that starts with
    digits and a dot, the digits, the dot and all the white space after it
    go, whatever follows (so a decimal number at the start of a line loses
    its integer part); every other line, a line marked [1)] or an indented
    one among them, is left as it is. *)
Theorem strip_marker_spec :
  (forall m g t,
     m <> [] -> forallb isDigit m = true -> forallb isWhiteSpace g = true ->
     match t with [] => true | c :: _ => negb (isWhiteSpace c) end = true ->
     strip_marker (m ++ [46] ++ g ++ t) = t)
  /\ (forall line, ~ numbered_prefix line -> strip_marker line = line)
  /\ strip_marker (lit "3.5% of users") = lit "5% of users"
  /\ strip_marker (lit "1) Yes") = lit "1) Yes".
Proof.
  split; [|split; [|split; reflexivity]].
  - intros m g t Hm Hd Hg Ht.
    destruct m as [|c m]; [done|]. unfold strip_marker.
    cbn [app forallb] in *. apply andb_prop in Hd as [Hc Hd]. rewrite Hc.
    change (c :: m ++ 46 :: g ++ t) with ((c :: m) ++ 46 :: g ++ t).
    rewrite (dropWhile_all isDigit (c :: m)) by (cbn [forallb]; by rewrite Hc, Hd).
    rewrite dropWhile_stop by exact dot_not_digit.
    rewrite N.eqb_refl. by apply dropWhile_whitespace_gap.
  - intros line Hno. unfold strip_marker.
    destruct line as [|c line]; [reflexivity|].
    destruct (isDigit c) eqn:Ec; [|reflexivity].
    destruct (dropWhile_span isDigit (c :: line)) as (pre & Hpre & Hdigits).
    destruct (dropWhile isDigit (c :: line)) as [|d rest] eqn:Ed; [reflexivity|].
    destruct (N.eqb_spec d 46) as [->|]; [|reflexivity].
    exfalso. apply Hno. exists pre, rest. split; [|by split].
    intros ->. cbn [app] in Hpre. injection Hpre as -> _. by rewrite dot_not_digit in Ec.
Qed.

(** ** Prompts and their fields *)

(** The fields of a request are spliced into the prompt as they are, so
    the prompt does not tell them apart: a topic that ends in a line
    break and the words of the next label passes for a topic and an
    audience. On the content route, for every kind, and on the poll
    route, moving such a tail from the topic to the front of the audience
    leaves the prompt the same. *)
Theorem prompt_fields_spliced type c x y z s g :
  generatePrompt type
    (with_topic_audience c (x ++ lit "
    Target Audience: " ++ y) z)
  = generatePrompt type
      (with_topic_audience c x (y ++ lit "
    Target Audience: " ++ z))
  /\ poll_prompt (Some (JStr (x ++ lit "
      Target Audience: " ++ y))) (Some (JStr z)) s g
     = poll_prompt (Some (JStr x)) (Some (JStr (y ++ lit "
      Target Audience: " ++ z))) s g.
Proof.
  split.
  - unfold generatePrompt, promptTemplates.
    repeat (case_match; simplify_eq); try reflexivity; apply (f_equal inr);
      unfold template_post, template_thread, template_poll, with_topic_audience;
      cbn [topic audience style guidelines preferences];
      by rewrite <- !app_assoc.
  - unfold poll_prompt, interpolate. cbn [ToString]. by rewrite <- !app_assoc.
Qed.

(** ** Successes and the checks before them *)

Lemma plan_checked op input e call outcome :
  plan op input e = inr (call, outcome) ->
  input_ok op input = true /\ api_key_missing e = false.
Proof.
  unfold plan, input_ok. intros H.
  destruct op; repeat (case_match; simplify_eq); done.
Qed.

(** No success without the checks: a success a route computes (not one
    the cache answers) means that the input passed the route's check (the
    schema on the content route, a prompt or a topic on the others), that
    the credential is configured, and that exactly one upstream call was
    made. *)
Theorem success_requires_checks op e s input :
  cache_answer e s input = None ->
  success (fst (generate op input e s)) = Some (JBool true) ->
  input_ok op input = true
  /\ api_key_missing e = false
  /\ length (upstream_calls (emitted s (snd (generate op input e s)))) = 1%nat.
Proof.
  intros Hmiss Hok.
  paths op input e s; agree;
    try (by rewrite errorHandler_success in Hok);
    destruct (plan_checked _ _ _ _ _ Hp) as [Hin Hkey];
    (split; [exact Hin|]); (split; [exact Hkey|]);
    rewrite upstream_calls_before, (upstream_calls_call _ _ _ _ _ _ Hp); reflexivity.
Qed.

(** The scenario's poll request. *)
Lemma success_requires_checks_witness :
  input_ok Poll poll_body = true
  /\ api_key_missing (answering poll_text [] api_key 0) = false
  /\ length (upstream_calls
               (emitted (fresh None)
                  (snd (generate Poll poll_body (answering poll_text [] api_key 0)
                          (fresh None))))) = 1%nat.
Proof.
  apply (success_requires_checks Poll (answering poll_text [] api_key 0) (fresh None) poll_body);
    reflexivity.
Defined.
